(** * agroai_solos: CRS detection, reprojection, merge and interpolation

    A shallow embedding of the server-side core of [src/server.js]:
    - [detectCRS]            (lines 248-294),
    - [reprojectGeoJSON] and its inner [transformCoordinates] (lines 116-245),
    - the [/api/merge] handler (lines 743-852),
    - the [/api/interpolate] handler with [processParameter] (lines 855-1061),
    - the [/api/upload-shapefile] handler (lines 584-740) and [findShpFile]
      (lines 508-522),
    - the [/api/generate-report] handler (lines 1138-1420),
    and of two functions of the page, [src/unnamed/part_000]:
    - [detectDepthsFromSpreadsheet] (lines 338-366),
    - the parameters of [showInterpolationSection] (lines 544-565).

    Conventions of the embedding.
    - A JavaScript string is a [string].  For a text of ASCII characters
      ([isAscii]) the characters of the [string] are the code units of
      JavaScript and the functions below are those of JavaScript.  For
      another text the [string] holds the bytes of its UTF-8 form, and
      three things differ: white space ([isSpace] has the six ASCII
      blanks, JavaScript also U+00A0 and the other Unicode spaces), case
      ([lowerChar] lowers A to Z, JavaScript accented letters too) and
      length ([substring0] counts bytes, JavaScript code units).
    - [parseInt] is computed on the natural numbers, which is the number of
      the source up to 2^53, so for runs of at most fifteen digits.
    - A JavaScript number is a [jsnum]: NaN, the two infinities, or a finite
      rational (every finite double is one).  Only comparisons are computed
      on it; the rounding operations of the JavaScript runtime
      (subtraction, division, [parseFloat], [String(n)]) are the fields of
      [JsRuntime] and every statement holds for all of them.
    - An object is an association list in property order, a new key
      being added at the end (JavaScript lists the keys that are array
      indices first); the JavaScript [Map] of the merge and the
      [interpolations] object are [gmap]s.
    - A request is answered by the first response that is sent; the
      orchestrator of the interpolation is given twice, as the chain of
      workers that deliver one event each ([processFrom]) and as the
      events of the workers drive it ([Events.run]).
    - [undefined] is [None]; a thrown exception is [None] of the function
      that throws. *)

From Stdlib Require Import QArith Qabs ZArith Ascii String DecimalString.
From Stdlib Require Import DecimalPos DecimalN.
From stdpp Require Import gmap strings list.

Local Open Scope string_scope.
Local Open Scope list_scope.

(** ** JavaScript strings *)

Module Js.

(** White space of the regular expression class [\s] and of [trim] among
    the ASCII characters: TAB, LF, VT, FF, CR and SPACE.  (JavaScript
    also takes U+00A0 and the other Unicode spaces, which a [string] holds
    as bytes above 127.) *)
Definition isSpace (c : ascii) : bool :=
  let n := nat_of_ascii c in
  ((9 <=? n)%nat && (n <=? 13)%nat) || (n =? 32)%nat.

(** The class [\d]. *)
Definition isDigit (c : ascii) : bool :=
  let n := nat_of_ascii c in (48 <=? n)%nat && (n <=? 57)%nat.

(** The lower case of an ASCII character; a byte above 127 is left as it
    is. *)
Definition lowerChar (c : ascii) : ascii :=
  let n := nat_of_ascii c in
  if (65 <=? n)%nat && (n <=? 90)%nat then ascii_of_nat (n + 32) else c.

Definition upperChar (c : ascii) : ascii :=
  let n := nat_of_ascii c in
  if (97 <=? n)%nat && (n <=? 122)%nat then ascii_of_nat (n - 32) else c.

Fixpoint mapChars (f : ascii -> ascii) (s : string) : string :=
  match s with
  | EmptyString => EmptyString
  | String c t => String (f c) (mapChars f t)
  end.

(** [s.toLowerCase()]. *)
Definition toLowerCase : string -> string := mapChars lowerChar.

Fixpoint allChars (p : ascii -> bool) (s : string) : bool :=
  match s with
  | EmptyString => true
  | String c t => p c && allChars p t
  end.

(** The longest prefix of characters in a class, and what follows it: a
    greedy [c*] of a regular expression. *)
Fixpoint takeWhile (p : ascii -> bool) (s : string) : string :=
  match s with
  | EmptyString => EmptyString
  | String c t => if p c then String c (takeWhile p t) else EmptyString
  end.

Fixpoint dropWhile (p : ascii -> bool) (s : string) : string :=
  match s with
  | EmptyString => EmptyString
  | String c t => if p c then dropWhile p t else s
  end.

Definition isEmpty (s : string) : bool :=
  match s with EmptyString => true | String _ _ => false end.

Fixpoint trimEnd (s : string) : string :=
  match s with
  | EmptyString => EmptyString
  | String c t =>
      let t' := trimEnd t in
      if isSpace c && isEmpty t' then EmptyString else String c t'
  end.

(** [s.trim()]. *)
Definition trim (s : string) : string := trimEnd (dropWhile isSpace s).

(** [stripPrefix p s] is what follows [p] when [s] starts with [p]. *)
Fixpoint stripPrefix (p s : string) : option string :=
  match p, s with
  | EmptyString, _ => Some s
  | String a p', String b s' =>
      if Ascii.eqb a b then stripPrefix p' s' else None
  | String _ _, EmptyString => None
  end.

(** The same, ignoring case: [p] is given in lower case (flag [i]). *)
Fixpoint stripPrefixCI (p s : string) : option string :=
  match p, s with
  | EmptyString, _ => Some s
  | String a p', String b s' =>
      if Ascii.eqb a (lowerChar b) then stripPrefixCI p' s' else None
  | String _ _, EmptyString => None
  end.

(** [s.startsWith(p)]. *)
Definition startsWith (p s : string) : bool :=
  match stripPrefix p s with Some _ => true | None => false end.

(** [s.includes(p)]. *)
Fixpoint includes (p s : string) : bool :=
  startsWith p s ||
  match s with
  | EmptyString => false
  | String _ t => includes p t
  end.

(** [parseInt] on a run of decimal digits: the number the digits spell.
    (The source computes it in a double: the two are the same number up
    to 2^53, hence for every run of at most fifteen digits; a longer run
    is rounded by the source, and printed with an exponent from 1e21
    on.) *)
Definition digitValue (c : ascii) : N := N.of_nat (nat_of_ascii c - 48).

Fixpoint parseDigits (acc : N) (s : string) : N :=
  match s with
  | EmptyString => acc
  | String c t => parseDigits (10 * acc + digitValue c)%N t
  end.

Definition parseInt (digits : string) : N := parseDigits 0%N digits.

(** An integer inside a template literal: its decimal digits. *)
Definition showN (n : N) : string := NilZero.string_of_uint (N.to_uint n).

(** Numbers: doubles as NaN, the infinities and the finite rationals. *)
Inductive jsnum : Type :=
| NaN
| NegInf
| Fin (q : Q)
| PosInf.

Definition isNaN (n : jsnum) : bool :=
  match n with NaN => true | _ => false end.

(** [Math.abs]. *)
Definition abs (n : jsnum) : jsnum :=
  match n with
  | NaN => NaN
  | NegInf | PosInf => PosInf
  | Fin q => Fin (Qabs q)
  end.

(** [a > b] and [a < b]: false as soon as one side is NaN. *)
Definition gt (a b : jsnum) : bool :=
  match a, b with
  | NaN, _ | _, NaN => false
  | PosInf, PosInf => false
  | PosInf, _ => true
  | _, PosInf => false
  | NegInf, _ => false
  | Fin _, NegInf => true
  | Fin x, Fin y => negb (Qle_bool x y)
  end.

Definition lt (a b : jsnum) : bool := gt b a.

(** [Math.min(...l)] and [Math.max(...l)] on numbers: NaN as soon as one
    argument is NaN, the infinities on the empty list. *)
Definition min2 (a b : jsnum) : jsnum :=
  if isNaN a || isNaN b then NaN else if lt b a then b else a.

Definition max2 (a b : jsnum) : jsnum :=
  if isNaN a || isNaN b then NaN else if gt b a then b else a.

Definition mathMin (l : list jsnum) : jsnum := fold_left min2 l PosInf.
Definition mathMax (l : list jsnum) : jsnum := fold_left max2 l NegInf.

(** Truthiness of a number: [0] and [NaN] are falsy. *)
Definition truthyNum (n : jsnum) : bool :=
  match n with
  | NaN => false
  | Fin q => negb (Qeq_bool q 0)
  | _ => true
  end.

(** The operations of the runtime that round or print a double. *)
Class JsRuntime : Type := {
  numToString : jsnum -> string;
  parseFloat : string -> jsnum;
  fsub : jsnum -> jsnum -> jsnum;
  fdiv : jsnum -> jsnum -> jsnum
}.

End Js.

Export Js.

(** ** JSON values, objects and GeoJSON *)

Module Json.

(** A scalar of a parsed JSON body. *)
Inductive value : Type :=
| VNull
| VBool (b : bool)
| VNum (n : jsnum)
| VStr (s : string).

(** An object: its own properties in property order, one binding a key.
    (JavaScript lists keys that are array indices first, in numeric
    order, and the other keys in the order in which they were added;
    [setProp] and [assign] below add a new key at the end, which is that
    order for the keys that are not runs of digits.  The only walk over
    keys in the source looks for a header that contains [prof].) *)
Definition obj : Type := list (string * value).

Definition keys (o : obj) : list string := map fst o.

(** [o[k]]: [None] is [undefined]. *)
Fixpoint getProp (k : string) (o : obj) : option value :=
  match o with
  | [] => None
  | (k', v) :: t => if String.eqb k k' then Some v else getProp k t
  end.

(** [o[k] = v]: an existing property keeps its place. *)
Fixpoint setProp (k : string) (v : value) (o : obj) : obj :=
  match o with
  | [] => [(k, v)]
  | (k', v') :: t =>
      if String.eqb k k' then (k, v) :: t else (k', v') :: setProp k v t
  end.

(** [Object.assign(target, source)], the step of an object spread. *)
Definition assign (target source : obj) : obj :=
  fold_left (fun acc kv => setProp (fst kv) (snd kv) acc) source target.

(** [{...a, ...b}]. *)
Definition spread (a b : obj) : obj := assign (assign [] a) b.

(** Truthiness of [o[k]]. *)
Definition truthy (v : option value) : bool :=
  match v with
  | None | Some VNull => false
  | Some (VBool b) => b
  | Some (VNum n) => truthyNum n
  | Some (VStr s) => negb (isEmpty s)
  end.

(** [String(v)]. *)
Definition jsString `{JsRuntime} (v : option value) : string :=
  match v with
  | None => "undefined"
  | Some VNull => "null"
  | Some (VBool true) => "true"
  | Some (VBool false) => "false"
  | Some (VNum n) => numToString n
  | Some (VStr s) => s
  end.

(** Nested coordinate arrays: a number or an array. *)
Unset Elimination Schemes.
Inductive coord : Type :=
| CNum (n : jsnum)
| CArr (l : list coord).
Set Elimination Schemes.

(** [c[i]]; indexing a number gives [undefined]. *)
Definition index (c : coord) (i : nat) : option coord :=
  match c with
  | CNum _ => None
  | CArr l => l !! i
  end.

Record geometry : Type := {
  gtype : string;
  coordinates : option coord
}.

Record feature : Type := {
  fgeometry : option geometry;
  properties : obj
}.

Record featureCollection : Type := {
  fctype : string;
  features : list feature
}.

(** [feature.geometry && feature.geometry.coordinates] as a condition: an
    array is truthy, a number unless it is [0] or [NaN]. *)
Definition truthyCoord (c : coord) : bool :=
  match c with
  | CNum n => truthyNum n
  | CArr _ => true
  end.

Definition geometryCoordinates (f : feature) : option (geometry * coord) :=
  match fgeometry f with
  | None => None
  | Some g =>
      match coordinates g with
      | None => None
      | Some c => if truthyCoord c then Some (g, c) else None
      end
  end.

End Json.

Export Json.

(** ** CRS detection: [detectCRS] *)

Module Crs.

(** The first position of [s] at which an anchored pattern matches:
    [String.prototype.match] without the flag [g]. *)
Fixpoint firstMatch {A : Type} (anchored : string -> option A) (s : string)
  : option A :=
  match anchored s with
  | Some r => Some r
  | None =>
      match s with
      | EmptyString => None
      | String _ t => firstMatch anchored t
      end
  end.

(** The class [[_\s]]. *)
Definition isZoneSep (c : ascii) : bool := Ascii.eqb c "_" || isSpace c.

(** The class [[NS]] under the flag [i]. *)
Definition isNS (c : ascii) : bool :=
  Ascii.eqb (lowerChar c) "n" || Ascii.eqb (lowerChar c) "s".

(** [/Zone[_\s]*(\d+)([NS])/i] anchored at the start of [s]; the result is
    the two groups.  The classes that follow one another are disjoint, so
    the greedy runs are the only way to match and no backtracking is lost. *)
Definition zoneAt (s : string) : option (string * ascii) :=
  match stripPrefixCI "zone" s with
  | None => None
  | Some r =>
      let r1 := dropWhile isZoneSep r in
      let digits := takeWhile isDigit r1 in
      if isEmpty digits then None
      else
        match dropWhile isDigit r1 with
        | String h _ => if isNS h then Some (digits, h) else None
        | EmptyString => None
        end
  end.

(** [prjString.match(/Zone[_\s]*(\d+)([NS])/i)]. *)
Definition zoneMatch (prjString : string) : option (string * ascii) :=
  firstMatch zoneAt prjString.

Definition detectCRS (prj : option string) : string :=
  match prj with
  | None => "EPSG:4674"
  | Some prjString =>
      if isEmpty prjString then "EPSG:4674"
      else if includes "UTM" prjString
              || includes "Transverse_Mercator" prjString then
        match zoneMatch prjString with
        | Some (digits, h) =>
            let zone := parseInt digits in
            let hemisphere := upperChar h in
            let epsgCode :=
              if Ascii.eqb hemisphere "S" then (32700 + zone)%N
              else (32600 + zone)%N in
            "EPSG:" +:+ showN epsgCode
        | None =>
            if includes "Zone_21S" prjString || includes "Zone 21S" prjString
            then "EPSG:32721"
            else "UTM"
        end
      else if includes "SIRGAS" prjString || includes "4674" prjString
              || includes "GCS_SIRGAS2000" prjString then "EPSG:4674"
      else if (includes "WGS84" prjString || includes "4326" prjString
               || includes "GCS_WGS_1984" prjString)
              && negb (includes "UTM" prjString)
              && negb (includes "PROJCS" prjString) then "EPSG:4326"
      else if includes "PROJCS" prjString then "PROJECTED"
      else "EPSG:4674"
  end.

End Crs.

Export Crs.

(** ** Reprojection: [reprojectGeoJSON] *)

Module Reproject.

(** [transform.forward]: [None] when it throws. *)
Definition transform : Type := jsnum * jsnum -> option (jsnum * jsnum).

(** The library [proj4]: [proj4(from, to)] builds a transform or throws. *)
Definition proj4lib : Type := string -> string -> option transform.

(** The leaf of [transformCoordinates]: [coords] starts with the numbers
    [x] and [y]. *)
Definition transformLeaf (t : transform) (coords : coord) (x y : jsnum)
  : coord :=
  if isNaN x || isNaN y then coords
  else
    match t (x, y) with
    | None => coords
    | Some (t0, t1) =>
        if isNaN t0 || isNaN t1 then coords
        else
          let lon := t0 in
          let lat := t1 in
          if gt (abs lon) (Fin 180) || gt (abs lat) (Fin 90) then
            if gt (abs t1) (Fin 180) || gt (abs t0) (Fin 90)
            then CArr [CNum lat; CNum lon]
            else CArr [CNum lon; CNum lat]
          else CArr [CNum lon; CNum lat]
    end.

Fixpoint transformCoordinates (t : transform) (coords : coord) : coord :=
  match coords with
  | CArr (CNum x :: CNum y :: _) => transformLeaf t coords x y
  | CArr l => CArr (map (transformCoordinates t) l)
  | CNum _ => coords
  end.

(** The function mapped over [geojson.features].  Nothing in the walk
    throws on numbers and arrays, so its [try] never reaches its [catch]. *)
Definition reprojectFeature (t : transform) (f : feature) : feature :=
  match geometryCoordinates f with
  | None => f
  | Some (g, c) =>
      {| fgeometry :=
           Some {| gtype := gtype g;
                   coordinates := Some (transformCoordinates t c) |};
         properties := properties f |}
  end.

(** What the [try] that builds the transform ends with. *)
Inductive built : Type :=
| Built (t : transform)
| ReturnInput
| Threw.

Definition ofProj4 (r : option transform) : built :=
  match r with Some t => Built t | None => Threw end.

Definition buildTransform (proj4 : proj4lib) (fromCRS toCRS : string)
  : built :=
  if String.eqb fromCRS "EPSG:32721" || String.eqb fromCRS "32721" then
    ofProj4 (proj4 "EPSG:32721" "EPSG:4326")
  else if startsWith "EPSG:327" fromCRS || startsWith "EPSG:326" fromCRS then
    ofProj4 (proj4 fromCRS "EPSG:4326")
  else if String.eqb fromCRS "EPSG:4674" || String.eqb fromCRS "4674" then
    ofProj4 (proj4 "EPSG:4674" "EPSG:4326")
  else if String.eqb fromCRS "UTM" || String.eqb fromCRS "PROJECTED" then
    ReturnInput
  else ofProj4 (proj4 fromCRS toCRS).

(** [reprojectGeoJSON(geojson, fromCRS, toCRS)]; [proj4] is the global of
    that name, [None] when the library could not be loaded. *)
Definition reprojectGeoJSON (proj4 : option proj4lib)
    (geojson : featureCollection) (fromCRS toCRS : string)
  : featureCollection :=
  match proj4 with
  | None => geojson
  | Some p =>
      if String.eqb fromCRS toCRS
         || (String.eqb fromCRS "EPSG:4326" || String.eqb fromCRS "4326")
      then geojson
      else
        let reprojected t :=
          {| fctype := fctype geojson;
             features := map (reprojectFeature t) (features geojson) |} in
        match buildTransform p fromCRS toCRS with
        | ReturnInput => geojson
        | Built t => reprojected t
        | Threw =>
            match p fromCRS toCRS with
            | Some t => reprojected t
            | None => geojson
            end
        end
  end.

End Reproject.

Export Reproject.

(** ** The attribute join: [POST /api/merge] *)

Module Merge.

Section WithRuntime.
Context `{JsRuntime}.

(** [/\s*cm\s*/i] anchored at the start of [s]: what follows the match. *)
Definition cmAt (s : string) : option string :=
  match stripPrefixCI "cm" (dropWhile isSpace s) with
  | Some r => Some (dropWhile isSpace r)
  | None => None
  end.

(** [s.replace(/\s*cm\s*/gi, '')]: from left to right, every match is cut
    out and the scan goes on after it.  A match is never empty, so one unit
    of [fuel] per character is enough ([replaceCm]). *)
Fixpoint replaceCmFuel (fuel : nat) (s : string) : string :=
  match fuel with
  | O => s
  | S fuel' =>
      match cmAt s with
      | Some rest => replaceCmFuel fuel' rest
      | None =>
          match s with
          | EmptyString => EmptyString
          | String c t => String c (replaceCmFuel fuel' t)
          end
      end
  end.

Definition replaceCm (s : string) : string :=
  replaceCmFuel (S (String.length s)) s.

(** [selectedDepth.trim().replace(/\s*cm\s*/gi, '').toLowerCase()]; the row
    side applies the same three steps to [String(rowDepth)]. *)
Definition normalizeDepth (depth : string) : string :=
  toLowerCase (replaceCm (trim depth)).

(** The predicate of the [find] over the headers. *)
Definition isDepthColumn (col : string) : bool :=
  String.eqb (toLowerCase col) "prof"
  || String.eqb (toLowerCase col) "profundidade"
  || includes "prof" (toLowerCase col).

(** [Object.keys(spreadsheetData[0] || {}).find(...)]. *)
Definition depthColumnOf (spreadsheetData : list obj) : option string :=
  find isDepthColumn (keys (hd [] spreadsheetData)).

Definition isNullText (v : value) : bool :=
  match v with
  | VStr s => String.eqb s "NULL" || isEmpty s
  | _ => false
  end.

(** The predicate of the [filter] over the rows. *)
Definition depthRowFilter (depthColumn normalizedDepth : string) (row : obj)
  : bool :=
  match getProp depthColumn row with
  | None | Some VNull => false
  | Some rowDepth =>
      if isNullText rowDepth then false
      else
        let rowDepthStr := trim (jsString (Some rowDepth)) in
        if isEmpty rowDepthStr then false
        else
          String.eqb (toLowerCase (replaceCm rowDepthStr)) normalizedDepth
  end.

(** [filteredSpreadsheetData]. *)
Definition filterByDepth (spreadsheetData : list obj)
    (selectedDepth : option string) : list obj :=
  match selectedDepth with
  | None => spreadsheetData
  | Some depth =>
      if isEmpty depth then spreadsheetData
      else
        let normalizedDepth := normalizeDepth depth in
        match depthColumnOf spreadsheetData with
        | Some depthColumn =>
            filter (fun row => depthRowFilter depthColumn normalizedDepth row = true)
                   spreadsheetData
        | None => spreadsheetData
        end
  end.

(** [String(row[spreadsheetColumn]).toLowerCase().trim()]. *)
Definition rowKey (spreadsheetColumn : string) (row : obj) : string :=
  trim (toLowerCase (jsString (getProp spreadsheetColumn row))).

(** [v || '']. *)
Definition orEmpty (v : option value) : option value :=
  if truthy v then v else Some (VStr EmptyString).

(** [String(feature.properties[shapefileColumn] || '').toLowerCase().trim()]. *)
Definition featureKey (shapefileColumn : string) (f : feature) : string :=
  trim (toLowerCase (jsString (orEmpty (getProp shapefileColumn (properties f))))).

(** The [Map] filled by the [forEach]: a later row replaces an earlier one. *)
Definition buildMap (spreadsheetColumn : string) (rows : list obj)
  : gmap string obj :=
  fold_left (fun m row => <[rowKey spreadsheetColumn row := row]> m) rows ∅.

(** The function mapped over the features.  A row is an object, hence
    truthy: the test [if (spreadsheetRow)] is the test that the key is
    there. *)
Definition mergeFeature (spreadsheetMap : gmap string obj)
    (shapefileColumn : string) (f : feature) : feature :=
  match spreadsheetMap !! featureKey shapefileColumn f with
  | Some spreadsheetRow =>
      {| fgeometry := fgeometry f;
         properties := spread (properties f) spreadsheetRow |}
  | None => f
  end.

Record mergeResult : Type := {
  geojson : featureCollection;
  matchedCount : nat;
  totalCount : nat;
  unmatchedCount : nat
}.

(** The body of the handler once the request is complete. *)
Definition merge (spreadsheetData : list obj)
    (shapefileGeoJson : featureCollection)
    (spreadsheetColumn shapefileColumn : string)
    (selectedDepth : option string) : mergeResult :=
  let filteredSpreadsheetData := filterByDepth spreadsheetData selectedDepth in
  let filteredFeatures := features shapefileGeoJson in
  let spreadsheetMap := buildMap spreadsheetColumn filteredSpreadsheetData in
  let mergedFeatures :=
    map (mergeFeature spreadsheetMap shapefileColumn) filteredFeatures in
  let matched :=
    length (filter (fun f => is_Some (spreadsheetMap !! featureKey shapefileColumn f))
                   mergedFeatures) in
  {| geojson := {| fctype := "FeatureCollection"; features := mergedFeatures |};
     matchedCount := matched;
     totalCount := length mergedFeatures;
     unmatchedCount := length mergedFeatures - matched |}.

(** The request body: the two data members may be missing; a missing
    column name is the empty string, falsy like it. *)
Record mergeBody : Type := {
  spreadsheetData : option (list obj);
  shapefileGeoJson : option featureCollection;
  spreadsheetColumn : string;
  shapefileColumn : string;
  selectedDepth : option string
}.

Inductive response (A : Type) : Type :=
| Ok (body : A)
| BadRequest (error : string).

(** [app.post('/api/merge', ...)]. *)
Definition mergeHandler (body : mergeBody) : response mergeResult :=
  match spreadsheetData body, shapefileGeoJson body with
  | Some data, Some fc =>
      if isEmpty (spreadsheetColumn body) || isEmpty (shapefileColumn body)
      then BadRequest _ "Dados incompletos para merge"
      else Ok _ (merge data fc (spreadsheetColumn body) (shapefileColumn body)
                       (selectedDepth body))
  | _, _ => BadRequest _ "Dados incompletos para merge"
  end.

End WithRuntime.

Arguments Ok {A} body.
Arguments BadRequest {A} error.

End Merge.

Export Merge.

(** ** The interpolation orchestrator: [POST /api/interpolate] *)

Module Interpolate.

Section WithRuntime.
Context `{JsRuntime}.

(** *** The bounding box *)

(** [ToNumber] of what [Math.min(...)] is given: a number is itself,
    [undefined] is NaN, an array goes through its string ([[]] is [0],
    [[x]] is the number of [x], anything longer has a comma and is NaN). *)
Fixpoint toNumber (c : coord) : jsnum :=
  match c with
  | CNum n => n
  | CArr [] => Fin 0
  | CArr [x] => toNumber x
  | CArr _ => NaN
  end.

Definition toNumberOpt (c : option coord) : jsnum :=
  match c with Some c => toNumber c | None => NaN end.

(** The representative of a feature:
    [type === 'Point' ? coordinates : coordinates[0]]. *)
Definition representative (g : geometry) (c : coord) : option coord :=
  if String.eqb (gtype g) "Point" then Some c else index c 0.

(** The array [coords]: one entry, maybe [undefined], per feature that has
    a geometry with coordinates. *)
Definition representatives (fs : list feature) : list (option coord) :=
  omap (fun f =>
          match geometryCoordinates f with
          | Some (g, c) => Some (representative g c)
          | None => None
          end) fs.

Definition bbox : Type := (jsnum * jsnum) * (jsnum * jsnum).

(** [results.bounds] after the block "Calcular bounds": [None] when reading
    [c[0]] of an [undefined] entry throws, [Some None] when the bounds stay
    [null]. *)
Definition computeBounds (fs : list feature) : option (option bbox) :=
  match fs with
  | [] => Some None
  | _ =>
      let coords := representatives fs in
      match coords with
      | [] => Some None
      | _ =>
          match mapM (fun c : option coord => c) coords with
          | None => None
          | Some cs =>
              let lons := map (fun c => toNumberOpt (index c 0)) cs in
              let lats := map (fun c => toNumberOpt (index c 1)) cs in
              Some (Some ((mathMin lats, mathMin lons),
                          (mathMax lats, mathMax lons)))
          end
      end
  end.

(** *** One worker *)

(** The class [[\d\.-]]. *)
Definition isNumChar (c : ascii) : bool :=
  isDigit c || Ascii.eqb c "." || Ascii.eqb c "-".

(** [/STATS: min=([\d\.-]+), max=([\d\.-]+), mean=([\d\.-]+)/] anchored at
    the start of [s]: the three groups. *)
Definition statsAt (s : string) : option (string * string * string) :=
  match stripPrefix "STATS: min=" s with
  | None => None
  | Some r1 =>
      let g1 := takeWhile isNumChar r1 in
      if isEmpty g1 then None
      else
        match stripPrefix ", max=" (dropWhile isNumChar r1) with
        | None => None
        | Some r2 =>
            let g2 := takeWhile isNumChar r2 in
            if isEmpty g2 then None
            else
              match stripPrefix ", mean=" (dropWhile isNumChar r2) with
              | None => None
              | Some r3 =>
                  let g3 := takeWhile isNumChar r3 in
                  if isEmpty g3 then None else Some (g1, g2, g3)
              end
        end
  end.

Definition statsMatch (stdout : string) : option (string * string * string) :=
  firstMatch statsAt stdout.

(** [/std[=:]?\s*([\d\.-]+)/i] anchored at the start of [s]: the group. *)
Definition stdAt (s : string) : option string :=
  match stripPrefixCI "std" s with
  | None => None
  | Some r =>
      let r1 :=
        match r with
        | String c t => if Ascii.eqb c "=" || Ascii.eqb c ":" then t else r
        | EmptyString => r
        end in
      let g := takeWhile isNumChar (dropWhile isSpace r1) in
      if isEmpty g then None else Some g
  end.

Definition stdMatch (stdout : string) : option string :=
  firstMatch stdAt stdout.

Record statistics : Type := {
  stat_min : jsnum;
  stat_max : jsnum;
  stat_mean : jsnum;
  stat_std : jsnum
}.

(** The block "Extrair estatísticas do output". *)
Definition extractStatistics (stdout : string) : statistics :=
  let '(min, max, mean) :=
    match statsMatch stdout with
    | Some (g1, g2, g3) => (parseFloat g1, parseFloat g2, parseFloat g3)
    | None => (Fin 0, Fin 1, Fin (1 # 2))
    end in
  let std :=
    match stdMatch stdout with
    | Some g => parseFloat g
    | None => fdiv (fsub max min) (Fin 4)
    end in
  {| stat_min := min; stat_max := max; stat_mean := mean; stat_std := std |}.

(** An entry of [results.interpolations]. *)
Inductive jobResult : Type :=
| JobSuccess (tiffFile : string) (stats : statistics)
| JobFailure (error : string).

(** An event of one worker process, as its listeners see it: the event
    [close] with the exit code ([None] when a signal ended it), what was
    read from the two pipes, whether the expected TIFF exists and whether
    copying it works; or the event [error].  A worker that is started
    delivers [close], once; a worker that cannot be started delivers
    [error] and then [close].  [processFrom] below is the chain of the
    workers when each delivers one event; the handler as any events drive
    it is [Events.run]. *)
Inductive workerEnd : Type :=
| Close (code : option Z) (stdout stderr : string) (tiffExists copyOk : bool)
| SpawnError (message : string).

Record results : Type := {
  success : bool;
  method : string;
  bounds : option bbox;
  tiffFiles : gmap string string;
  interpolations : gmap string jobResult
}.

Definition setTiffFile (param file : string) (r : results) : results :=
  {| success := success r; method := method r; bounds := bounds r;
     tiffFiles := <[param := file]> (tiffFiles r);
     interpolations := interpolations r |}.

Definition setInterpolation (param : string) (j : jobResult) (r : results)
  : results :=
  {| success := success r; method := method r; bounds := bounds r;
     tiffFiles := tiffFiles r;
     interpolations := <[param := j]> (interpolations r) |}.

Definition isLowerAlnum (c : ascii) : bool :=
  let n := nat_of_ascii c in
  ((97 <=? n)%nat && (n <=? 122)%nat) || isDigit c.

(** [s.substring(0, n)], for a text of ASCII characters: the first [n]
    characters. *)
Fixpoint substring0 (n : nat) (s : string) : string :=
  match n, s with
  | S n', String c t => String c (substring0 n' t)
  | _, _ => EmptyString
  end.

(** [propertyName.toLowerCase().replace(/[^a-z0-9]/g, '_').substring(0, 30)]. *)
Definition cleanPropertyName (propertyName : string) : string :=
  substring0 30
    (mapChars (fun c => if isLowerAlnum c then c else "_"%char)
              (toLowerCase propertyName)).

(** What the request fixes for every worker; [dateStr] is the date of the
    clock. *)
Record job : Type := {
  jobMethod : string;
  propertyName : string;
  dateStr : string
}.

(** The listeners of one worker, up to the call that starts the next. *)
Definition recordEnd (j : job) (param : string) (e : workerEnd) (r : results)
  : results :=
  match e with
  | Close (Some 0%Z) stdout stderr tiffExists copyOk =>
      if tiffExists then
        let descriptiveName :=
          param +:+ "_" +:+ cleanPropertyName (propertyName j) +:+ "_"
                +:+ jobMethod j +:+ "_" +:+ dateStr j +:+ ".tif" in
        let tiffFile :=
          if copyOk then "/output/" +:+ descriptiveName
          else "/output/" +:+ param +:+ "_" +:+ jobMethod j
                          +:+ "_interpolation.tif" in
        setInterpolation param
          (JobSuccess tiffFile (extractStatistics stdout))
          (setTiffFile param tiffFile r)
      else
        setInterpolation param (JobFailure "Arquivo TIFF não foi gerado") r
  | Close _ stdout stderr _ _ =>
      setInterpolation param
        (JobFailure (if isEmpty stderr then "Erro desconhecido" else stderr)) r
  | SpawnError message =>
      setInterpolation param
        (JobFailure ("Erro ao executar Python: " +:+ message)) r
  end.

(** The outside world: how the worker started for the parameter at an
    index ends. *)
Definition workers : Type := nat -> string -> workerEnd.

(** [processParameter(paramIndex)] with [rest] the parameters from
    [paramIndex] on: past the last one the results are the response. *)
Fixpoint processFrom (w : workers) (j : job) (rest : list string)
    (paramIndex : nat) (r : results) : results :=
  match rest with
  | [] => r
  | param :: rest' =>
      processFrom w j rest' (S paramIndex)
                  (recordEnd j param (w paramIndex param) r)
  end.

Definition processParameter (w : workers) (j : job) (parameters : list string)
    (paramIndex : nat) (r : results) : results :=
  processFrom w j (drop paramIndex parameters) paramIndex r.

Record interpolateBody : Type := {
  geoJson : option featureCollection;
  parameters : option (list string);
  bodyMethod : string;
  resolution : jsnum;
  searchRadius : jsnum;
  bodyPropertyName : option string
}.

Inductive interpolateResponse : Type :=
| Results (r : results)
| BadRequest400 (error : string)
| ServerError500.

(** [app.post('/api/interpolate', ...)]; the working directories are
    taken to be writable. *)
Definition interpolateHandler (w : workers) (today : string)
    (body : interpolateBody) : interpolateResponse :=
  let propertyName :=
    match bodyPropertyName body with
    | Some p => if isEmpty p then "fazenda" else p
    | None => "fazenda"
    end in
  match geoJson body, parameters body with
  | Some geo, Some params =>
      if isEmpty (bodyMethod body) || negb (truthyNum (resolution body))
         || negb (truthyNum (searchRadius body))
      then BadRequest400 "Dados incompletos para interpolação"
      else
        match params with
        | [] => BadRequest400 "Selecione pelo menos um parâmetro para interpolar"
        | _ =>
            match computeBounds (features geo) with
            | None => ServerError500
            | Some b =>
                let results0 :=
                  {| success := true; method := bodyMethod body; bounds := b;
                     tiffFiles := ∅; interpolations := ∅ |} in
                let j :=
                  {| jobMethod := bodyMethod body;
                     propertyName := propertyName;
                     dateStr := today |} in
                Results (processParameter w j params 0 results0)
            end
        end
  | _, _ => BadRequest400 "Dados incompletos para interpolação"
  end.

End WithRuntime.

End Interpolate.

Export Interpolate.

(** ** The orchestrator, event by event

    Every worker has the two listeners of [processParameter], and each
    listener ends with the call [processParameter(paramIndex + 1)]: an
    event of a worker records its end and goes on with the next
    parameter.  For a worker that cannot be started Node delivers [error]
    and then [close], so that the rest of the list is processed once more;
    the workers of the chains that follow run at the same time, and their
    events arrive in any order. *)

Module Events.

Section WithRuntime.
Context `{JsRuntime}.

(** A worker that is running: the index of its parameter, and whether its
    event [error] has been delivered. *)
Record worker : Type := {
  workerIndex : nat;
  errored : bool
}.

(** The handler between two events: the object [results] that the
    listeners share, the answer of the request (what the first call of
    [res.json] has sent), the number of calls of [res.json] (a call after
    the first throws, the headers being sent; what Node does with the
    rejected promise is left out), the workers that are running, numbered
    as they are spawned, and the number of workers spawned. *)
Record server : Type := {
  shared : results;
  answer : option results;
  jsonCalls : nat;
  running : gmap nat worker;
  spawned : nat
}.

(** [processParameter(paramIndex)]: past the last parameter
    [res.json(results)], otherwise a new worker for the parameter at the
    index. *)
Definition processParameter (parameters : list string) (paramIndex : nat)
    (s : server) : server :=
  match parameters !! paramIndex with
  | None =>
      {| shared := shared s;
         answer := match answer s with
                   | Some sent => Some sent
                   | None => Some (shared s)
                   end;
         jsonCalls := S (jsonCalls s);
         running := running s;
         spawned := spawned s |}
  | Some _ =>
      {| shared := shared s;
         answer := answer s;
         jsonCalls := jsonCalls s;
         running := <[spawned s := {| workerIndex := paramIndex; errored := false |}]>
                      (running s);
         spawned := S (spawned s) |}
  end.

(** The listener of the event [e] of the worker [id]: [None] when Node
    does not deliver the event (the worker is not running, or it has had
    its [error]).  After [close] the worker is gone; after [error] its
    [close] is still to come. *)
Definition listen (j : job) (parameters : list string) (s : server)
    (id : nat) (e : workerEnd) : option server :=
  match running s !! id with
  | None => None
  | Some wk =>
      match parameters !! workerIndex wk with
      | None => None
      | Some param =>
          let left :=
            match e with
            | Close _ _ _ _ _ => Some (delete id (running s))
            | SpawnError _ =>
                if errored wk then None
                else Some (<[id := {| workerIndex := workerIndex wk;
                                      errored := true |}]> (running s))
            end in
          match left with
          | None => None
          | Some workers =>
              Some (processParameter parameters (S (workerIndex wk))
                      {| shared := recordEnd j param e (shared s);
                         answer := answer s;
                         jsonCalls := jsonCalls s;
                         running := workers;
                         spawned := spawned s |})
          end
      end
  end.

(** The events in the order in which they arrive. *)
Fixpoint run (j : job) (parameters : list string)
    (events : list (nat * workerEnd)) (s : server) : option server :=
  match events with
  | [] => Some s
  | (id, e) :: rest =>
      match listen j parameters s id e with
      | Some s' => run j parameters rest s'
      | None => None
      end
  end.


End WithRuntime.

End Events.

(** ** A runtime on exact rationals

    The instance the examples run on: the arithmetic is that of the
    rationals, [parseFloat] reads a sign, digits and a fraction, and a
    number prints as its decimal digits, a whole number without a point
    and a number with at most seventeen decimal places with them, as
    JavaScript prints the numbers of the examples.  (A number with more
    places prints as a fraction, which JavaScript never does; the
    examples have none.) *)

Module Exact.

Definition showZ (z : Z) : string :=
  match z with
  | Z0 => "0"
  | Zpos p => showN (Npos p)
  | Zneg p => "-" +:+ showN (Npos p)
  end.

Definition digitChar (d : N) : ascii := ascii_of_nat (48 + N.to_nat d).

(** The decimal places of [num / den], for [num < den], when there are at
    most [fuel] of them. *)
Fixpoint fractionDigits (fuel : nat) (num den : N) : option string :=
  if (num =? 0)%N then Some EmptyString
  else
    match fuel with
    | O => None
    | S fuel' =>
        match fractionDigits fuel' ((10 * num) mod den) den with
        | Some places => Some (String (digitChar ((10 * num) / den)) places)
        | None => None
        end
    end.

Definition numToStringExact (n : jsnum) : string :=
  match n with
  | NaN => "NaN"
  | PosInf => "Infinity"
  | NegInf => "-Infinity"
  | Fin q =>
      let r := Qred q in
      let d := Npos (Qden r) in
      let a := Z.abs_N (Qnum r) in
      if (a mod d =? 0)%N then showZ (Qnum r)
      else
        match fractionDigits 17 (a mod d) d with
        | Some places =>
            (if (Qnum r <? 0)%Z then "-" else EmptyString)
              +:+ showN (a / d) +:+ "." +:+ places
        | None => showZ (Qnum r) +:+ "/" +:+ showN d
        end
  end.

Definition parseFloatExact (s : string) : jsnum :=
  let '(negative, r) :=
    match s with
    | String "-" t => (true, t)
    | _ => (false, s)
    end in
  let whole := takeWhile isDigit r in
  let fraction :=
    match dropWhile isDigit r with
    | String "." t => takeWhile isDigit t
    | _ => EmptyString
    end in
  if isEmpty whole && isEmpty fraction then NaN
  else
    let magnitude :=
      Z.of_N (parseInt (whole +:+ fraction))
      # Z.to_pos (10 ^ Z.of_nat (String.length fraction)) in
    Fin (Qred (if negative then Qopp magnitude else magnitude)).

Definition arith (op : Q -> Q -> Q) (a b : jsnum) : jsnum :=
  match a, b with
  | Fin x, Fin y => Fin (Qred (op x y))
  | _, _ => NaN
  end.

Definition exactRuntime : JsRuntime := {|
  numToString := numToStringExact;
  parseFloat := parseFloatExact;
  fsub := arith Qminus;
  fdiv := arith Qdiv
|}.

End Exact.

Export Exact.

(** ** Ingestion of a shapefile: [POST /api/upload-shapefile] and
    [findShpFile] *)

Module Upload.

(** [s.endsWith(suffix)]. *)
Fixpoint endsWith (suffix s : string) : bool :=
  String.eqb s suffix
  || match s with
     | EmptyString => false
     | String _ t => endsWith suffix t
     end.

(** What the loop over the entries of the archive has found: the content
    of the last entry of each kind. *)
Record zipParts : Type := {
  shpBuffer : option string;
  dbfBuffer : option string;
  prjString : option string
}.

(** The body of the loop over [Object.entries(zipContent.files)]. *)
Definition scanEntry (parts : zipParts) (entry : string * string) : zipParts :=
  let '(filename, content) := entry in
  if endsWith ".shp" filename then
    {| shpBuffer := Some content; dbfBuffer := dbfBuffer parts;
       prjString := prjString parts |}
  else if endsWith ".dbf" filename then
    {| shpBuffer := shpBuffer parts; dbfBuffer := Some content;
       prjString := prjString parts |}
  else if endsWith ".prj" filename then
    {| shpBuffer := shpBuffer parts; dbfBuffer := dbfBuffer parts;
       prjString := Some content |}
  else parts.

Definition scanZip (entries : list (string * string)) : zipParts :=
  fold_left scanEntry entries
            {| shpBuffer := None; dbfBuffer := None; prjString := None |}.

(** [detectedCRS] of the handler: [EPSG:4326] unless a non-empty [.prj]
    was found. *)
Definition uploadCRS (prj : option string) : string :=
  match prj with
  | Some s => if isEmpty s then "EPSG:4326" else detectCRS (Some s)
  | None => "EPSG:4326"
  end.

(** [geojson] after the block "SEMPRE converter para EPSG:4326" of the
    handler; what the block logs is in [uploadShapefile]. *)
Definition reprojectAfterUpload (proj4 : option proj4lib) (detectedCRS : string)
    (geojson : featureCollection) : featureCollection :=
  if negb (String.eqb detectedCRS "EPSG:4326")
     && negb (String.eqb detectedCRS "EPSG:4674") then
    reprojectGeoJSON proj4 geojson detectedCRS "EPSG:4326"
  else if String.eqb detectedCRS "EPSG:4674" then
    reprojectGeoJSON proj4 geojson "EPSG:4674" "EPSG:4326"
  else geojson.

(** The library [shapefile]: from the two buffers to the features read, or
    the message of what it throws. *)
Definition shapefileReader : Type :=
  string -> option string -> string + list feature.

(** The uploaded file: the extension [path.extname] finds in its name and
    the entries of the archive, or the message of what loading it throws. *)
Record uploaded : Type := {
  extname : string;
  zipEntries : string + list (string * string)
}.

(** The answers of the handler: the collection with its columns, status
    400 with an error, status 500 with an error, and status 500 with the
    message of a [TypeError] of the engine. *)
Inductive uploadResponse : Type :=
| Uploaded (geojson : featureCollection) (columns : list string)
| UploadRejected (error : string)
| UploadFailed (error : string)
| UploadTypeError.

(** The log of the first coordinate of a collection reads [coords[0]],
    [coords] being the representative of the first feature: it throws when
    that is [undefined]. *)
Definition logThrows (features : list feature) : bool :=
  match features with
  | firstFeature :: _ =>
      match geometryCoordinates firstFeature with
      | Some (g, c) =>
          match representative g c with
          | Some _ => false
          | None => true
          end
      | None => false
      end
  | [] => false
  end.

(** [columns] of the answer. *)
Definition columnsOf (geojson : featureCollection) : list string :=
  match features geojson with
  | f :: _ => keys (properties f)
  | [] => []
  end.

(** [app.post('/api/upload-shapefile', ...)]. *)
Definition uploadShapefile (shapefileLib : option shapefileReader)
    (proj4 : option proj4lib) (file : option uploaded) : uploadResponse :=
  match file with
  | None => UploadRejected "Nenhum arquivo enviado"
  | Some file =>
      if negb (String.eqb (toLowerCase (extname file)) ".zip") then
        UploadRejected "O shapefile deve estar em um arquivo ZIP"
      else
        match zipEntries file with
        | inl message => UploadFailed ("Erro ao processar shapefile: " +:+ message)
        | inr entries =>
            let parts := scanZip entries in
            match shpBuffer parts with
            | None => UploadRejected "Arquivo .shp não encontrado no ZIP"
            | Some shp =>
                let detectedCRS := uploadCRS (prjString parts) in
                match shapefileLib with
                | None => UploadFailed "Biblioteca shapefile.js não disponível"
                | Some read =>
                    match read shp (dbfBuffer parts) with
                    | inl message =>
                        UploadFailed ("Erro ao processar shapefile: " +:+ message)
                    | inr [] =>
                        UploadRejected "Nenhuma feature encontrada no shapefile"
                    | inr features =>
                        if logThrows features then UploadTypeError
                        else
                          let geojson :=
                            reprojectAfterUpload proj4 detectedCRS
                              {| fctype := "FeatureCollection";
                                 features := features |} in
                          if negb (String.eqb detectedCRS "EPSG:4326")
                             && negb (String.eqb detectedCRS "EPSG:4674")
                             && logThrows (Json.features geojson)
                          then UploadTypeError
                          else Uploaded geojson (columnsOf geojson)
                    end
                end
            end
        end
  end.

(** A directory tree as [readdirSync] and [statSync] show it. *)
Unset Elimination Schemes.
Inductive node : Type :=
| File (name : string)
| Dir (name : string) (entries : list node).
Set Elimination Schemes.

(** One turn of the loop of [findShpFile(dir)], at the entry [n]: what the
    loop returns there, [None] when it goes on.  [join] is [path.join]. *)
Fixpoint findAt (join : string -> string -> string) (dir : string) (n : node)
  : option string :=
  match n with
  | File name =>
      if endsWith ".shp" (toLowerCase name) then Some (join dir name) else None
  | Dir name entries =>
      let filePath := join dir name in
      let found :=
        (fix loop (files : list node) : option string :=
           match files with
           | [] => None
           | file :: rest =>
               match findAt join filePath file with
               | Some p => Some p
               | None => loop rest
               end
           end) entries in
      match found with
      | Some p => if isEmpty p then None else Some p
      | None => None
      end
  end.

(** [findShpFile(dir)], [files] being the entries of [dir]. *)
Fixpoint findShpFile (join : string -> string -> string) (dir : string)
    (files : list node) : option string :=
  match files with
  | [] => None
  | file :: rest =>
      match findAt join dir file with
      | Some p => Some p
      | None => findShpFile join dir rest
      end
  end.

End Upload.

Export Upload.

(** ** The page: [detectDepthsFromSpreadsheet] and the parameters of
    [showInterpolationSection]

    The two functions of [src/unnamed/part_000] are embedded as they are
    written, as functions of their arguments and of [mergedGeoJson].  (In
    the same script the listener of the report button declares
    [contentType] twice in one block, lines 978 and 986, which an engine
    refuses when it loads the script; nothing below depends on that
    listener.) *)

Module Client.

Section WithRuntime.
Context `{JsRuntime}.

(** The body of the [forEach] over the rows: the depth a row adds to the
    set, when it adds one. *)
Definition rowDepth (depthColumn : string) (row : obj) : option string :=
  match getProp depthColumn row with
  | None | Some VNull => None
  | Some depth =>
      let depthStr := trim (jsString (Some depth)) in
      if isEmpty depthStr then None
      else
        let normalized := toLowerCase (replaceCm depthStr) in
        if isEmpty normalized then None else Some normalized
  end.

(** [detectDepthsFromSpreadsheet(data, columns)]: the set [depths] handed
    to [updateDepthSelector], [None] when the function returns before. *)
Definition detectDepthsFromSpreadsheet (data : list obj) (columns : list string)
  : option (gset string) :=
  match find isDepthColumn columns with
  | None => None
  | Some depthColumn =>
      match data with
      | [] => None
      | _ =>
          Some (fold_left (fun depths row =>
                             match rowDepth depthColumn row with
                             | Some normalized => depths ∪ {[normalized]}
                             | None => depths
                             end) data ∅)
      end
  end.

End WithRuntime.

(** [availableParameters] of the page. *)
Definition availableParameters : list string :=
  ["pH_CaCl2"; "P"; "K"; "Ca"; "Mg"; "Al"; "MO"; "Argila";
   "Sb"; "CTC"; "V%"; "Zn"; "Cu"; "Fe"; "Mn"; "S"; "B"].

(** [availableCols] of [showInterpolationSection]. *)
Definition availableCols (mergedGeoJson : option featureCollection)
  : list string :=
  match mergedGeoJson with
  | Some merged =>
      match features merged with
      | f :: _ => keys (properties f)
      | [] => []
      end
  | None => []
  end.

(** [paramsToShow] of [showInterpolationSection]: the parameters the
    checklist is filled with. *)
Definition paramsToShow (mergedGeoJson : option featureCollection)
  : list string :=
  let existingParams :=
    filter (fun param =>
              existsb (fun col => String.eqb (toLowerCase col) (toLowerCase param))
                      (availableCols mergedGeoJson) = true)
           availableParameters in
  match existingParams with
  | [] => availableCols mergedGeoJson
  | _ :: _ => existingParams
  end.


End Client.

Export Client.

(** ** The report: [POST /api/generate-report] *)

Module Report.

(** [s.replace(p, '')] with a string [p]: the first occurrence is cut
    out. *)
Fixpoint removeFirst (p s : string) : string :=
  match stripPrefix p s with
  | Some rest => rest
  | None =>
      match s with
      | EmptyString => EmptyString
      | String c t => String c (removeFirst p t)
      end
  end.

(** The path stored in [tiffFilesAbsolute] for a path that is a string;
    [outputPath name] is [path.join(__dirname, 'output', name)]. *)
Definition absoluteTiff (outputPath : string -> string) (tiffPath : string)
  : string :=
  if startsWith "/output/" tiffPath
  then outputPath (removeFirst "/output/" tiffPath)
  else tiffPath.

(** The loop over [Object.entries(tiffFiles)]; [None] when [startsWith]
    is called on a truthy value that is not a string, which throws. *)
Fixpoint tiffFilesAbsolute (outputPath : string -> string) (tiffFiles : obj)
  : option (list (string * string)) :=
  match tiffFiles with
  | [] => Some []
  | (param, tiffPath) :: rest =>
      if truthy (Some tiffPath) then
        match tiffPath with
        | VStr s =>
            match tiffFilesAbsolute outputPath rest with
            | Some absolute => Some ((param, absoluteTiff outputPath s) :: absolute)
            | None => None
            end
        | _ => None
        end
      else tiffFilesAbsolute outputPath rest
  end.

(** [Object.values(tiffFilesAbsolute).filter(p => p && fs.existsSync(p))]. *)
Definition validTiffs (existsSync : string -> bool)
    (absolute : list (string * string)) : list string :=
  filter (fun p => negb (isEmpty p) && existsSync p = true) (map snd absolute).

(** [s.split('\n')]. *)
Fixpoint splitLines (s : string) : list string :=
  match s with
  | EmptyString => [EmptyString]
  | String c t =>
      if Ascii.eqb c "010" then EmptyString :: splitLines t
      else
        match splitLines t with
        | l :: ls => String c l :: ls
        | [] => [String c EmptyString]
        end
  end.

(** [l.join(sep)]. *)
Fixpoint joinWith (sep : string) (l : list string) : string :=
  match l with
  | [] => EmptyString
  | [x] => x
  | x :: rest => x +:+ sep +:+ joinWith sep rest
  end.

(** The predicate of the [filter] over the lines of [stderr]. *)
Definition isErrorLine (l : string) : bool :=
  includes "Error" l || includes "error" l || includes "Exception" l
  || includes "Traceback" l.

(** [errorMsg] of the listener of [close]. *)
Definition errorMsg (stderr : string) : string :=
  if isEmpty stderr then "Erro desconhecido ao gerar PDF"
  else
    match filter (fun l => isErrorLine l = true) (splitLines stderr) with
    | [] => substring0 200 stderr
    | errorLines => joinWith " | " (take 3 errorLines)
    end.

(** How the Python process ends: its [close] event, with what was written
    to its two streams and whether the PDF is there, or its [error] event,
    with the message of the error and its [toString()]. *)
Inductive reportEnd : Type :=
| ReportClose (code : option Z) (stdout stderr : string) (pdfExists : bool)
| ReportError (message text : string).

(** The answers of the handler: the PDF, status 400 with an error, and the
    objects sent with status 500. *)
Inductive reportAnswer : Type :=
| PdfSent
| ReportRejected (error : string)
| ReportFailed (error : string)
| PermissionFailed (error suggestion details : string)
| PythonFailed (error : string) (code : option Z) (details : string)
| SpawnFailed (error details : string)
| InternalError.

(** The answer of the listener of [close] and of the listener of
    [error], for the event that arrives first. *)
Definition reportClose (pdfPath : string) (e : reportEnd) : reportAnswer :=
  match e with
  | ReportClose (Some 0%Z) stdout stderr pdfExists =>
      if pdfExists then PdfSent
      else ReportFailed "PDF não foi gerado. Verifique os logs do Python."
  | ReportClose code stdout stderr _ =>
      let errorText := toLowerCase (stderr +:+ stdout) in
      if includes "permission denied" errorText || includes "errno 13" errorText
         || includes "permissionerror" errorText
      then
        PermissionFailed
          "Erro de permissão ao salvar PDF. O arquivo pode estar aberto em outro programa."
          "Feche o PDF anterior se estiver aberto e tente gerar novamente."
          ("Caminho: " +:+ pdfPath)
      else PythonFailed (errorMsg stderr) code (substring0 500 stderr)
  | ReportError message text =>
      SpawnFailed ("Erro ao executar Python: " +:+ message) text
  end.

(** What happens first once Python is started: the process ends, with the
    event [close] or with the event [error], or the timer of five minutes
    fires while no event has arrived. *)
Inductive reportRun : Type :=
| Ended (e : reportEnd)
| TimedOut.

(** The answer to the request once Python is started: the first that is
    sent.  (What would be sent after it throws, the headers being sent:
    by the listener of [close] after the one of [error] or after the
    timer has killed the process, and by the timer after the process has
    ended.) *)
Definition firstAnswer (pdfPath : string) (run : reportRun) : reportAnswer :=
  match run with
  | Ended e => reportClose pdfPath e
  | TimedOut => ReportFailed "Timeout ao gerar PDF (mais de 5 minutos)"
  end.

(** The request body: the two names are strings when they are there,
    [tiffFiles] an object; of [interpolations] only the truthiness
    counts.  The other members, which go into the arguments of Python
    only, are strings or numbers as the page sends them, so that building
    the arguments does not throw. *)
Record reportBody : Type := {
  reportPropertyName : option string;
  reportPlotName : option string;
  reportInterpolations : bool;
  reportTiffFiles : option obj
}.

(** [!name] for a name of the body. *)
Definition missing (name : option string) : bool :=
  match name with
  | Some s => isEmpty s
  | None => true
  end.

(** [app.post('/api/generate-report', ...)] up to the answer.
    [reportsDirError] is the message of what the write test in the
    directory of the reports throws, [pdfPath] the path the handler
    settles on for the PDF, [run] what happens first once Python is
    started; apart from the write test, the calls on the file system are
    taken not to throw. *)
Definition generateReport (outputPath : string -> string)
    (existsSync : string -> bool) (reportsDirError : option string)
    (pdfPath : string) (run : reportRun) (body : reportBody) : reportAnswer :=
  match reportTiffFiles body with
  | None => ReportRejected "Dados incompletos para gerar relatório"
  | Some tiffFiles =>
      if missing (reportPropertyName body) || missing (reportPlotName body)
         || negb (reportInterpolations body)
      then ReportRejected "Dados incompletos para gerar relatório"
      else
        match tiffFilesAbsolute outputPath tiffFiles with
        | None => InternalError
        | Some absolute =>
            match validTiffs existsSync absolute with
            | [] =>
                ReportRejected
                  "Nenhum arquivo TIFF válido encontrado. Faça a interpolação primeiro."
            | _ :: _ =>
                match reportsDirError with
                | Some message =>
                    ReportFailed
                      ("Erro de permissão no diretório de relatórios: " +:+ message)
                | None => firstAnswer pdfPath run
                end
            end
        end
  end.

End Report.

Export Report.


(** * Vocabulary of the statements *)

Module Vocabulary.

(** A string [stops] a class when it does not start with one of its
    characters: a greedy run ends in front of it. *)
Definition stops (f : ascii -> bool) (s : string) : Prop :=
  match s with EmptyString => True | String c _ => f c = false end.

(** A text of ASCII characters: on it the code units of JavaScript are the
    characters of the [string], and white space, case and length are those
    of JavaScript. *)
Definition isAscii (s : string) : bool :=
  allChars (fun c => (nat_of_ascii c <? 128)%nat) s.

(** The four letters of a hemisphere. *)
Definition isHemisphere (h : ascii) : Prop :=
  (h = "N" \/ h = "n" \/ h = "S" \/ h = "s")%char.

(** What a match of the zone pattern at the start of a string looks like:
    the word [zone] in any case, underscores and blanks, one digit or
    more, and the letter of a hemisphere. *)
Definition zoneShape (s digits : string) (h : ascii) : Prop :=
  exists z sep post,
    s = z +:+ sep +:+ digits +:+ String h post
    /\ toLowerCase z = "zone"
    /\ allChars isZoneSep sep = true
    /\ allChars isDigit digits = true
    /\ digits <> EmptyString
    /\ isHemisphere h.

(** The first zone of a description: the leftmost place at which a zone
    can be read, with its digits and its letter. *)
Definition firstZone (prj digits : string) (h : ascii) : Prop :=
  exists pre suf,
    prj = pre +:+ suf
    /\ zoneShape suf digits h
    /\ forall pre1 pre2 digits' h',
        pre = pre1 +:+ pre2 -> pre2 <> EmptyString ->
        ~ zoneShape (pre2 +:+ suf) digits' h'.

(** A description in which no zone can be read at any place. *)
Definition noZone (prj : string) : Prop :=
  forall pre suf digits h, prj = pre +:+ suf -> ~ zoneShape suf digits h.

(** A description with one of the two markers of the UTM branch. *)
Definition utmMarked (prj : string) : Prop :=
  exists pre post,
    prj = pre +:+ "UTM" +:+ post \/ prj = pre +:+ "Transverse_Mercator" +:+ post.

(** The length of the longest run of digits of a text. *)
Fixpoint maxDigitRun (s : string) : nat :=
  match s with
  | EmptyString => 0
  | String _ t => Nat.max (String.length (takeWhile isDigit s)) (maxDigitRun t)
  end.

(** The test that opens the UTM branch of [detectCRS]. *)
Definition hasUtmMarker (prj : string) : bool :=
  includes "UTM" prj || includes "Transverse_Mercator" prj.

(** The largest integer up to which every integer is a double: below it
    [parseInt] and the addition of the source are exact, as on [N]. *)
Definition maxSafe : N := 9007199254740992.

(** The nesting of a coordinate value: a number, a position (an array that
    starts with two numbers, the leaf of [transformCoordinates]) or an
    array of nested values. *)
Unset Elimination Schemes.
Inductive skeleton : Type :=
| SNum
| SPos
| SArr (l : list skeleton).
Set Elimination Schemes.

Fixpoint shape (c : coord) : skeleton :=
  match c with
  | CNum _ => SNum
  | CArr (CNum _ :: CNum _ :: _) => SPos
  | CArr l => SArr (map shape l)
  end.

(** The number of positions in a coordinate value. *)
Fixpoint positions (c : coord) : nat :=
  match c with
  | CNum _ => 0
  | CArr (CNum _ :: CNum _ :: _) => 1
  | CArr l => list_sum (map positions l)
  end.

Definition featureShape (f : feature) : option skeleton :=
  match fgeometry f with
  | Some g => option_map shape (coordinates g)
  | None => None
  end.

Definition featurePositions (f : feature) : nat :=
  match fgeometry f with
  | Some g => from_option positions 0 (coordinates g)
  | None => 0
  end.

(** A longitude in [-180, 180] with a latitude in [-90, 90]. *)
Definition inRange (lon lat : jsnum) : bool :=
  negb (isNaN lon) && negb (isNaN lat)
  && negb (gt (abs lon) (Fin 180)) && negb (gt (abs lat) (Fin 90)).

(** A coordinate value that is a position in that range. *)
Definition validPosition (c : coord) : bool :=
  match c with
  | CArr [CNum lon; CNum lat] => inRange lon lat
  | _ => false
  end.

(** A transform to geographic coordinates at its best: whatever it
    returns is a longitude and a latitude in range. *)
Definition geographic (t : transform) : Prop :=
  forall p lon lat, t p = Some (lon, lat) -> inRange lon lat = true.

(** The test of the leaf: [typeof coords[0] === 'number' && typeof
    coords[1] === 'number'] on the elements of an array. *)
Definition isPosition (l : list coord) : bool :=
  match l with
  | CNum _ :: CNum _ :: _ => true
  | _ => false
  end.

(** The lookup key of a join value: its text, lower-cased and trimmed. *)
Definition keyOf `{JsRuntime} (v : option value) : string :=
  trim (toLowerCase (jsString v)).

(** An object as [JSON.parse] builds it: no key twice. *)
Definition wfObj (o : obj) : Prop := NoDup (keys o).



(** What the listeners store for a parameter, by the way its worker ends. *)
Definition recorded `{JsRuntime} (j : job) (param : string) (e : workerEnd)
  : jobResult :=
  match e with
  | Close (Some 0%Z) stdout _ true copyOk =>
      JobSuccess
        (if copyOk
         then "/output/" +:+ param +:+ "_" +:+ cleanPropertyName (propertyName j)
                         +:+ "_" +:+ jobMethod j +:+ "_" +:+ dateStr j +:+ ".tif"
         else "/output/" +:+ param +:+ "_" +:+ jobMethod j
                         +:+ "_interpolation.tif")
        (extractStatistics stdout)
  | Close (Some 0%Z) _ _ false _ => JobFailure "Arquivo TIFF não foi gerado"
  | Close _ _ stderr _ _ =>
      JobFailure (if isEmpty stderr then "Erro desconhecido" else stderr)
  | SpawnError message => JobFailure ("Erro ao executar Python: " +:+ message)
  end.


(** What a match of the statistics line at the start of a string looks
    like. *)
Definition statsShape (s g1 g2 g3 post : string) : Prop :=
  s = "STATS: min=" +:+ g1 +:+ ", max=" +:+ g2 +:+ ", mean=" +:+ g3 +:+ post
  /\ allChars isNumChar g1 = true /\ g1 <> EmptyString
  /\ allChars isNumChar g2 = true /\ g2 <> EmptyString
  /\ allChars isNumChar g3 = true /\ g3 <> EmptyString.

(** A request for interpolation that passes the two checks of the
    handler. *)
Definition completeRequest (body : interpolateBody) : Prop :=
  is_Some (geoJson body)
  /\ (exists p ps, parameters body = Some (p :: ps))
  /\ isEmpty (bodyMethod body) = false
  /\ truthyNum (resolution body) = true
  /\ truthyNum (searchRadius body) = true.

(** The representative of a feature is a position: an array that starts
    with a longitude and a latitude. *)
Definition representativePosition (f : feature) : option (jsnum * jsnum) :=
  match geometryCoordinates f with
  | Some (g, c) =>
      match representative g c with
      | Some (CArr (CNum lon :: CNum lat :: _)) => Some (lon, lat)
      | _ => None
      end
  | None => None
  end.



(** The geometry type of a feature, when it has a geometry. *)
Definition geometryType (f : feature) : option string :=
  option_map gtype (fgeometry f).

(** The characters a cleaned property name is made of: [a-z0-9_]. *)
Definition isFileNameChar (c : ascii) : bool :=
  isLowerAlnum c || Ascii.eqb c "_".

(** A feature whose representative is [undefined]: it has coordinates, is
    not a point, and its coordinates have no first element. *)
Definition noRepresentative (f : feature) : Prop :=
  exists g c, geometryCoordinates f = Some (g, c) /\ representative g c = None.

(** An order on numbers that are not NaN. *)
Definition notAbove (a b : jsnum) : Prop := gt a b = false.

(** The paths of the files of a tree whose name ends in [.shp] in any
    case, in depth-first order, each directory in the order of its
    listing. *)
Fixpoint shpPaths (join : string -> string -> string) (dir : string) (n : node)
  : list string :=
  match n with
  | File name =>
      if endsWith ".shp" (toLowerCase name) then [join dir name] else []
  | Dir name entries => concat (map (shpPaths join (join dir name)) entries)
  end.

(** The collection an upload is answered with when it is converted with
    the transform [t]. *)
Definition convertedWith (t : transform) (geojson : featureCollection)
  : featureCollection :=
  {| fctype := fctype geojson;
     features := map (reprojectFeature t) (features geojson) |}.


(** The name of a raster written for a parameter: the parameter, an
    underscore, and the extension [.tif] at the end. *)
Definition rasterName (param name : string) : Prop :=
  exists rest, name = param +:+ "_" +:+ rest +:+ ".tif".

(** A report request with both names and with interpolations. *)
Definition completeReport (body : reportBody) : Prop :=
  missing (reportPropertyName body) = false
  /\ missing (reportPlotName body) = false
  /\ reportInterpolations body = true.

(** Every truthy path of the object is a string. *)
Definition pathsAreStrings (tiffFiles : obj) : Prop :=
  forall param v, (param, v) ∈ tiffFiles -> truthy (Some v) = true ->
                  exists s, v = VStr s.

(** The object lists a raster that is on the disk. *)
Definition listsRaster (outputPath : string -> string)
    (existsSync : string -> bool) (tiffFiles : obj) : Prop :=
  exists param s,
    (param, VStr s) ∈ tiffFiles /\ isEmpty s = false
    /\ isEmpty (absoluteTiff outputPath s) = false
    /\ existsSync (absoluteTiff outputPath s) = true.

(** The three texts the handler takes for a permission problem. *)
Definition permissionMarker (marker : string) : Prop :=
  toLowerCase marker = "permission denied"
  \/ toLowerCase marker = "errno 13"
  \/ toLowerCase marker = "permissionerror".








(** A key that may be an array index: a run of digits.  Among the keys of
    an object JavaScript lists the array indices first, in numeric order,
    and the other keys in the order in which they were added. *)
Definition isIndexKey (k : string) : bool :=
  negb (isEmpty k) && allChars isDigit k.





End Vocabulary.

Export Vocabulary.

(** * Properties *)

(** ** Strings and patterns *)

Lemma append_nil (t : string) : EmptyString +:+ t = t.
Proof. reflexivity. Qed.

Lemma append_cons c (s t : string) : String c s +:+ t = String c (s +:+ t).
Proof. reflexivity. Qed.

Lemma append_assoc (a b c : string) : (a +:+ b) +:+ c = a +:+ b +:+ c.
Proof.
  induction a as [|x a IH]; [reflexivity |].
  now rewrite !append_cons, IH.
Qed.

Ltac push_append := rewrite ?append_cons, ?append_nil in *; simpl in *.

Section StringFacts.

Implicit Types s t p : string.

Lemma take_drop_while (f : ascii -> bool) s :
  takeWhile f s +:+ dropWhile f s = s.
Proof.
  induction s as [|c s IH]; simpl; [reflexivity |].
  destruct (f c); push_append; [now rewrite IH | reflexivity].
Qed.

Lemma allChars_takeWhile (f : ascii -> bool) s :
  allChars f (takeWhile f s) = true.
Proof.
  induction s as [|c s IH]; simpl; [reflexivity |].
  destruct (f c) eqn:E; simpl; [now rewrite E | reflexivity].
Qed.

Lemma stops_dropWhile (f : ascii -> bool) s : stops f (dropWhile f s).
Proof.
  induction s as [|c s IH]; simpl; [exact I |].
  destruct (f c) eqn:E; simpl; [exact IH | exact E].
Qed.

Lemma dropWhile_app (f : ascii -> bool) s t :
  allChars f s = true -> stops f t -> dropWhile f (s +:+ t) = t.
Proof.
  induction s as [|c s IH]; push_append; intros Hall Hstop.
  - destruct t as [|c t]; simpl in *; [reflexivity | now rewrite Hstop].
  - apply andb_prop in Hall as [Hc Hs]. rewrite Hc. now apply IH.
Qed.

Lemma takeWhile_app (f : ascii -> bool) s t :
  allChars f s = true -> stops f t -> takeWhile f (s +:+ t) = s.
Proof.
  induction s as [|c s IH]; push_append; intros Hall Hstop.
  - destruct t as [|c t]; simpl in *; [reflexivity | now rewrite Hstop].
  - apply andb_prop in Hall as [Hc Hs]. rewrite Hc. now rewrite IH.
Qed.

Lemma stripPrefix_sound p s r : stripPrefix p s = Some r -> s = p +:+ r.
Proof.
  revert s; induction p as [|a p IH]; intros s; simpl.
  - now intros [= ->].
  - destruct s as [|b s]; [discriminate |].
    destruct (Ascii.eqb a b) eqn:E; [| discriminate].
    apply Ascii.eqb_eq in E as ->. intros Hs.
    now rewrite (IH _ Hs), append_cons.
Qed.

Lemma stripPrefix_app p r : stripPrefix p (p +:+ r) = Some r.
Proof.
  induction p as [|a p IH]; push_append; [now destruct r |].
  now rewrite Ascii.eqb_refl.
Qed.

Lemma stripPrefixCI_sound p s r :
  stripPrefixCI p s = Some r ->
  exists z, s = z +:+ r /\ toLowerCase z = p.
Proof.
  revert s; induction p as [|a p IH]; intros s; simpl.
  - intros [= ->]. now exists EmptyString.
  - destruct s as [|b s]; [discriminate |].
    destruct (Ascii.eqb a (lowerChar b)) eqn:E; [| discriminate].
    apply Ascii.eqb_eq in E as ->. intros Hs.
    destruct (IH _ Hs) as (z & -> & <-). now exists (String b z).
Qed.

Lemma stripPrefixCI_app z r :
  stripPrefixCI (toLowerCase z) (z +:+ r) = Some r.
Proof.
  induction z as [|a z IH]; push_append; [now destruct r |].
  now rewrite Ascii.eqb_refl.
Qed.

Lemma includes_sound p s :
  includes p s = true -> exists pre post, s = pre +:+ p +:+ post.
Proof.
  induction s as [|c s IH]; simpl; unfold startsWith.
  - destruct (stripPrefix p EmptyString) as [r|] eqn:E; [| discriminate].
    intros _. exists EmptyString, r.
    rewrite append_nil. now apply stripPrefix_sound.
  - destruct (stripPrefix p (String c s)) as [r|] eqn:E.
    + intros _. exists EmptyString, r.
      rewrite append_nil. now apply stripPrefix_sound.
    + simpl. intros Hin. destruct (IH Hin) as (pre & post & ->).
      now exists (String c pre), post.
Qed.

Lemma includes_here p post : includes p (p +:+ post) = true.
Proof.
  destruct (p +:+ post) eqn:E; simpl; unfold startsWith;
    rewrite <- E, stripPrefix_app; reflexivity.
Qed.

Lemma includes_app p pre post : includes p (pre +:+ p +:+ post) = true.
Proof.
  induction pre as [|c pre IH]; push_append.
  - apply includes_here.
  - rewrite IH. apply orb_true_r.
Qed.

Lemma firstMatch_sound {A} (f : string -> option A) s r :
  firstMatch f s = Some r ->
  exists pre suf, s = pre +:+ suf /\ f suf = Some r.
Proof.
  induction s as [|c s IH]; simpl.
  - destruct (f EmptyString) eqn:E; [| discriminate].
    intros [= ->]. now exists EmptyString, EmptyString.
  - destruct (f (String c s)) eqn:E.
    + intros [= ->]. now exists EmptyString, (String c s).
    + intros Hs. destruct (IH Hs) as (pre & suf & -> & Hf).
      now exists (String c pre), suf.
Qed.

Lemma firstMatch_complete {A} (f : string -> option A) pre suf :
  is_Some (f suf) -> is_Some (firstMatch f (pre +:+ suf)).
Proof.
  intros [r Hr]. induction pre as [|c pre IH]; push_append.
  - destruct suf; simpl; rewrite Hr; eauto.
  - destruct (f (String c (pre +:+ suf))); eauto.
Qed.

Lemma firstMatch_none {A} (f : string -> option A) pre suf :
  firstMatch f (pre +:+ suf) = None -> f suf = None.
Proof.
  intros Hn. destruct (f suf) eqn:E; [| reflexivity].
  destruct (firstMatch_complete f pre suf) as [r Hr]; [eauto | congruence].
Qed.


End StringFacts.

(** ** [detectCRS] *)

Lemma digit_not_zoneSep c : isDigit c = true -> isZoneSep c = false.
Proof.
  destruct c as [[] [] [] [] [] [] [] []]; vm_compute; congruence.
Qed.

Lemma NS_not_digit c : isNS c = true -> isDigit c = false.
Proof.
  destruct c as [[] [] [] [] [] [] [] []]; vm_compute; congruence.
Qed.

(** The hemisphere letter is one of the four the class [[NS]] accepts under
    the flag [i]. *)
Lemma isNS_cases c :
  isNS c = true ->
  c = "N"%char \/ c = "n"%char \/ c = "S"%char \/ c = "s"%char.
Proof.
  destruct c as [[] [] [] [] [] [] [] []]; vm_compute; intros E;
    try discriminate; auto.
Qed.

Lemma zoneAt_sound s digits h :
  zoneAt s = Some (digits, h) -> zoneShape s digits h.
Proof.
  unfold zoneAt.
  destruct (stripPrefixCI "zone" s) as [r|] eqn:Hz; [| discriminate].
  destruct (stripPrefixCI_sound _ _ _ Hz) as (z & -> & Hlow).
  set (r1 := dropWhile isZoneSep r).
  destruct (isEmpty (takeWhile isDigit r1)) eqn:Hd; [discriminate |].
  destruct (dropWhile isDigit r1) as [|h' post] eqn:Hrest; [discriminate |].
  destruct (isNS h') eqn:Hns; [| discriminate].
  intros [= <- <-].
  exists z, (takeWhile isZoneSep r), post.
  split; [| split; [exact Hlow | split; [apply allChars_takeWhile |
            split; [apply allChars_takeWhile | split; [| now apply isNS_cases]]]]].
  - rewrite <- Hrest, take_drop_while. subst r1.
    now rewrite take_drop_while.
  - intros E. now rewrite E in Hd.
Qed.

Lemma zoneAt_complete s digits h :
  zoneShape s digits h -> zoneAt s = Some (digits, h).
Proof.
  intros (z & sep & post & -> & Hlow & Hsep & Hdig & Hne & Hh).
  assert (Hns : isNS h = true) by (destruct Hh as [-> | [-> | [-> | ->]]]; reflexivity).
  unfold zoneAt. rewrite <- Hlow, stripPrefixCI_app.
  assert (Hstop : stops isZoneSep (digits +:+ String h post)).
  { destruct digits as [|d ds]; [congruence |].
    rewrite append_cons. simpl in *. apply andb_prop in Hdig as [Hd _].
    now apply digit_not_zoneSep. }
  rewrite (dropWhile_app _ _ _ Hsep Hstop).
  assert (Hstop' : stops isDigit (String h post)).
  { simpl. now apply NS_not_digit. }
  rewrite (takeWhile_app _ _ _ Hdig Hstop'), (dropWhile_app _ _ _ Hdig Hstop').
  destruct digits; [congruence |]. simpl. now rewrite Hns.
Qed.

(** The pattern finds a zone in a description exactly when some suffix of
    the description has the shape of a match. *)
Lemma zoneMatch_sound prj digits h :
  zoneMatch prj = Some (digits, h) ->
  exists pre suf, prj = pre +:+ suf /\ zoneShape suf digits h.
Proof.
  intros Hm. destruct (firstMatch_sound _ _ _ Hm) as (pre & suf & -> & Hat).
  exists pre, suf. split; [reflexivity | now apply zoneAt_sound].
Qed.

Lemma zoneMatch_complete pre suf digits h :
  zoneShape suf digits h -> is_Some (zoneMatch (pre +:+ suf)).
Proof.
  intros Hs. apply firstMatch_complete. rewrite (zoneAt_complete _ _ _ Hs).
  eauto.
Qed.

(** The second test of the branch, for "Zone_21S" or "Zone 21S", never
    decides: the pattern has already matched such a description. *)
Lemma zone21S_matched prj :
  includes "Zone_21S" prj || includes "Zone 21S" prj = true ->
  is_Some (zoneMatch prj).
Proof.
  intros Hin. apply orb_prop in Hin as [Hin | Hin];
    destruct (includes_sound _ _ Hin) as (pre & post & ->);
    apply zoneMatch_complete with (digits := "21") (h := "S"%char).
  - exists "Zone", "_", post. unfold isHemisphere.
    repeat split; try reflexivity; [discriminate | auto].
  - exists "Zone", " ", post. unfold isHemisphere.
    repeat split; try reflexivity; [discriminate | auto].
Qed.

Lemma includes_nonempty p s :
  p <> EmptyString -> includes p s = true -> isEmpty s = false.
Proof.
  intros Hp. destruct s; [| reflexivity].
  simpl. unfold startsWith. destruct p; [congruence | discriminate].
Qed.

Lemma utmMarker_nonempty prj : hasUtmMarker prj = true -> isEmpty prj = false.
Proof.
  unfold hasUtmMarker. intros Hm.
  apply orb_prop in Hm as [Hm | Hm];
    eapply includes_nonempty; try exact Hm; discriminate.
Qed.

(** The leftmost match. *)
Lemma firstMatch_first {A} (f : string -> option A) (pre suf : string) r :
  f suf = Some r ->
  (forall pre1 pre2 : string,
      pre = pre1 +:+ pre2 -> pre2 <> EmptyString -> f (pre2 +:+ suf) = None) ->
  firstMatch f (pre +:+ suf) = Some r.
Proof.
  intros Hr. induction pre as [|c pre IH]; intros Hbefore.
  - rewrite append_nil. destruct suf; cbn; now rewrite Hr.
  - assert (Hn : f (String c pre +:+ suf) = None)
      by (apply (Hbefore EmptyString (String c pre)); [reflexivity | discriminate]).
    rewrite append_cons in Hn |- *. cbn [firstMatch]. rewrite Hn. apply IH.
    intros pre1 pre2 -> Hne. now apply (Hbefore (String c pre1) pre2).
Qed.

Lemma firstMatch_leftmost {A} (f : string -> option A) (s : string) r :
  firstMatch f s = Some r ->
  exists pre suf : string,
    s = pre +:+ suf /\ f suf = Some r
    /\ forall pre1 pre2 : string,
        pre = pre1 +:+ pre2 -> pre2 <> EmptyString -> f (pre2 +:+ suf) = None.
Proof.
  induction s as [|c s IH]; cbn [firstMatch].
  - destruct (f EmptyString) eqn:E; [| discriminate].
    intros [= ->]. exists EmptyString, EmptyString.
    split; [reflexivity |]. split; [exact E |].
    intros [|x pre1] [|y pre2]; try discriminate. congruence.
  - destruct (f (String c s)) eqn:E.
    + intros [= ->]. exists EmptyString, (String c s).
      split; [reflexivity |]. split; [exact E |].
      intros [|x pre1] [|y pre2]; try discriminate. congruence.
    + intros Hs. destruct (IH Hs) as (pre & suf & -> & Hf & Hbefore).
      exists (String c pre), suf. split; [reflexivity |]. split; [exact Hf |].
      intros [|x pre1] pre2.
      * rewrite append_nil. intros <- _. exact E.
      * rewrite append_cons. intros [= _ ->] Hne. now apply (Hbefore pre1 pre2).
Qed.

Lemma zoneAt_None s :
  zoneAt s = None <-> forall digits h, ~ zoneShape s digits h.
Proof.
  split.
  - intros Hn digits h Hs. apply zoneAt_complete in Hs. congruence.
  - intros Hno. destruct (zoneAt s) as [[digits h]|] eqn:E; [| reflexivity].
    exfalso. apply (Hno digits h). now apply zoneAt_sound.
Qed.

(** The pattern finds the first zone of a description, and finds none
    exactly when there is none to read. *)
Lemma firstZone_zoneMatch prj digits h :
  firstZone prj digits h <-> zoneMatch prj = Some (digits, h).
Proof.
  split.
  - intros (pre & suf & -> & Hs & Hbefore).
    apply firstMatch_first; [now apply zoneAt_complete |].
    intros pre1 pre2 Hpre Hne. apply zoneAt_None.
    intros digits' h'. now apply (Hbefore pre1 pre2).
  - intros Hm. destruct (firstMatch_leftmost _ _ _ Hm)
      as (pre & suf & -> & Hat & Hbefore).
    exists pre, suf. split; [reflexivity |].
    split; [now apply zoneAt_sound |].
    intros pre1 pre2 digits' h' Hpre Hne.
    now apply zoneAt_None, (Hbefore pre1 pre2).
Qed.

Lemma noZone_zoneMatch prj : noZone prj <-> zoneMatch prj = None.
Proof.
  split.
  - intros Hno. destruct (zoneMatch prj) as [[digits h]|] eqn:E; [| reflexivity].
    destruct (zoneMatch_sound _ _ _ E) as (pre & suf & -> & Hs).
    exfalso. now apply (Hno pre suf digits h).
  - intros Hn pre suf digits h -> Hs.
    apply (firstMatch_none zoneAt pre suf) in Hn.
    apply zoneAt_complete in Hs. congruence.
Qed.

Lemma utmMarked_hasUtmMarker prj : utmMarked prj <-> hasUtmMarker prj = true.
Proof.
  unfold utmMarked, hasUtmMarker. split.
  - intros (pre & post & [-> | ->]); rewrite includes_app;
      [reflexivity | apply orb_true_r].
  - intros Hm. apply orb_prop in Hm as [Hm | Hm];
      destruct (includes_sound _ _ Hm) as (pre & post & ->);
      exists pre, post; auto.
Qed.

(** The number a run of digits spells is below the power of ten of its
    length. *)
Lemma digitValue_bound c : isDigit c = true -> (digitValue c <= 9)%N.
Proof.
  destruct c as [[] [] [] [] [] [] [] []]; vm_compute; congruence.
Qed.

Lemma parseDigits_bound (s : string) acc :
  allChars isDigit s = true ->
  (parseDigits acc s < (acc + 1) * 10 ^ N.of_nat (String.length s))%N.
Proof.
  revert acc. induction s as [|c s IH]; intros acc Hs.
  - cbn. lia.
  - cbn [allChars] in Hs. apply andb_prop in Hs as [Hc Hs].
    cbn [parseDigits String.length]. pose proof (digitValue_bound c Hc) as Hd.
    pose proof (IH (10 * acc + digitValue c)%N Hs) as Hb.
    rewrite Nat2N.inj_succ, N.pow_succ_r'.
    eapply N.lt_le_trans; [exact Hb |].
    assert (Hle : (10 * acc + digitValue c + 1 <= (acc + 1) * 10)%N) by lia.
    pose proof (N.mul_le_mono_r _ _ (10 ^ N.of_nat (String.length s)) Hle). lia.
Qed.

Lemma parseInt_safe (digits : string) :
  allChars isDigit digits = true ->
  String.length digits <= 15 ->
  (32700 + parseInt digits <= maxSafe)%N.
Proof.
  intros Hd Hlen. unfold parseInt.
  pose proof (parseDigits_bound digits 0 Hd) as Hb.
  assert (Hpow : (10 ^ N.of_nat (String.length digits) <= 10 ^ 15)%N)
    by (apply N.pow_le_mono_r; lia).
  unfold maxSafe. change (10 ^ 15)%N with 1000000000000000%N in Hpow. lia.
Qed.

(** C3. In a description of ASCII characters with a UTM or
    Transverse-Mercator marker, the first place at which a zone can be
    read (the word [zone] in any case, underscores and blanks, digits,
    and one of the letters N, n, S, s) decides: the result is [EPSG:]
    followed by [32700 + zone] for the south and by [32600 + zone] for the
    north, [zone] being the number the digits spell, at most fifteen of
    them, so that the sum is exact; zone 21 south gives [EPSG:32721].
    With a marker and no place at which a zone can be read, the result is
    the sentinel [UTM]. *)
Theorem detectCRS_utm_zone :
  (forall prj digits h,
      isAscii prj = true ->
      utmMarked prj ->
      firstZone prj digits h ->
      String.length digits <= 15 ->
      (h = "S"%char \/ h = "s"%char ->
       detectCRS (Some prj) = "EPSG:" +:+ showN (32700 + parseInt digits))
      /\ (h = "N"%char \/ h = "n"%char ->
          detectCRS (Some prj) = "EPSG:" +:+ showN (32600 + parseInt digits))
      /\ (32700 + parseInt digits <= maxSafe)%N)
  /\ (forall prj,
         isAscii prj = true ->
         utmMarked prj ->
         noZone prj ->
         detectCRS (Some prj) = "UTM")
  /\ detectCRS (Some "PROJCS[WGS_1984_UTM_Zone_21S,GEOGCS[GCS_WGS_1984]]")
     = "EPSG:32721".
Proof.
  split; [| split].
  - intros prj digits h _ Hm Hz Hlen.
    apply utmMarked_hasUtmMarker in Hm.
    assert (Hdigits : allChars isDigit digits = true).
    { destruct Hz as (pre & suf & _ & (z & sep & post & _ & _ & _ & Hd & _) & _).
      exact Hd. }
    apply firstZone_zoneMatch in Hz.
    unfold detectCRS. rewrite (utmMarker_nonempty _ Hm).
    unfold hasUtmMarker in Hm. rewrite Hm, Hz.
    split; [| split]; [| | now apply parseInt_safe];
      intros [-> | ->]; reflexivity.
  - intros prj _ Hm Hz.
    apply utmMarked_hasUtmMarker in Hm. apply noZone_zoneMatch in Hz.
    unfold detectCRS. rewrite (utmMarker_nonempty _ Hm).
    unfold hasUtmMarker in Hm. rewrite Hm, Hz.
    destruct (includes "Zone_21S" prj || includes "Zone 21S" prj) eqn:E;
      [| reflexivity].
    apply zone21S_matched in E as [r Hr]. congruence.
  - vm_compute. reflexivity.
Qed.

(** The theorem at the projection file of a shapefile in UTM zone 21 south,
    at one in zone 22 north, and at two descriptions in which no zone can
    be read: one without the word, one whose zone is followed by a letter
    that is not of a hemisphere. *)
Lemma detectCRS_utm_zone_witness :
  detectCRS (Some "WGS 84 / UTM zone 21S") = "EPSG:32721"
  /\ detectCRS (Some "NAD83_UTM_Zone_22n") = "EPSG:32622"
  /\ detectCRS (Some "PROJCS[Transverse_Mercator]") = "UTM"
  /\ detectCRS (Some "UTM Zone 21X") = "UTM".
Proof.
  destruct detectCRS_utm_zone as (Hzone & Hnone & _).
  split; [| split; [| split]].
  - destruct (Hzone "WGS 84 / UTM zone 21S" "21" "S"%char) as [HS _].
    + reflexivity.
    + exists "WGS 84 / ", " zone 21S". now left.
    + apply firstZone_zoneMatch. reflexivity.
    + cbn. lia.
    + rewrite HS; [reflexivity | now left].
  - destruct (Hzone "NAD83_UTM_Zone_22n" "22" "n"%char) as (_ & HN & _).
    + reflexivity.
    + exists "NAD83_", "_Zone_22n". now left.
    + apply firstZone_zoneMatch. reflexivity.
    + cbn. lia.
    + rewrite HN; [reflexivity | now right].
  - apply Hnone.
    + reflexivity.
    + exists "PROJCS[", "]". now right.
    + apply noZone_zoneMatch. reflexivity.
  - apply Hnone.
    + reflexivity.
    + exists EmptyString, " Zone 21X". now left.
    + apply noZone_zoneMatch. reflexivity.
Defined.

(** ** [reprojectGeoJSON] *)

(** Induction on nested coordinate arrays. *)
Lemma coord_ind (P : coord -> Prop) :
  (forall n, P (CNum n)) ->
  (forall l, Forall P l -> P (CArr l)) ->
  forall c, P c.
Proof.
  intros HN HA. fix IH 1. intros [n | l].
  - apply HN.
  - apply HA. induction l as [|c l IHl]; constructor; [apply IH | exact IHl].
Qed.

Lemma transformLeaf_cases t coords x y :
  transformLeaf t coords x y = coords
  \/ exists a b, transformLeaf t coords x y = CArr [CNum a; CNum b].
Proof.
  unfold transformLeaf.
  destruct (isNaN x || isNaN y); [now left |].
  destruct (t (x, y)) as [[t0 t1]|]; [| now left].
  destruct (isNaN t0 || isNaN t1); [now left |].
  right. repeat case_match; eauto.
Qed.

(** The walk turns a number into a number and an array into an array. *)
Lemma transformCoordinates_isNum t c :
  match transformCoordinates t c, c with
  | CNum _, CNum _ | CArr _, CArr _ => True
  | _, _ => False
  end.
Proof.
  destruct c as [n | l]; simpl; [exact I |].
  destruct l as [|[x|] [|[y|] l]]; simpl; try exact I.
  destruct (transformLeaf_cases t (CArr (CNum x :: CNum y :: l)) x y)
    as [-> | (a & b & ->)]; exact I.
Qed.

Lemma transformCoordinates_array t l :
  isPosition l = false ->
  transformCoordinates t (CArr l) = CArr (map (transformCoordinates t) l).
Proof. destruct l as [|[x|] [|[y|] l]]; intros E; try discriminate; reflexivity. Qed.

Lemma shape_array l : isPosition l = false -> shape (CArr l) = SArr (map shape l).
Proof. destruct l as [|[x|] [|[y|] l]]; intros E; try discriminate; reflexivity. Qed.

Lemma shape_position l : isPosition l = true -> shape (CArr l) = SPos.
Proof. destruct l as [|[x|] [|[y|] l]]; intros E; try discriminate; reflexivity. Qed.

Lemma positions_array l :
  isPosition l = false -> positions (CArr l) = list_sum (map positions l).
Proof. destruct l as [|[x|] [|[y|] l]]; intros E; try discriminate; reflexivity. Qed.

Lemma isPosition_map t l :
  isPosition (map (transformCoordinates t) l) = isPosition l.
Proof.
  destruct l as [|c1 [|c2 l]]; cbn [map].
  - reflexivity.
  - pose proof (transformCoordinates_isNum t c1).
    destruct (transformCoordinates t c1), c1; try contradiction; reflexivity.
  - pose proof (transformCoordinates_isNum t c1).
    pose proof (transformCoordinates_isNum t c2).
    destruct (transformCoordinates t c1), c1; try contradiction;
      destruct (transformCoordinates t c2), c2; try contradiction;
      reflexivity.
Qed.

Lemma transformCoordinates_shape t c :
  shape (transformCoordinates t c) = shape c.
Proof.
  induction c as [n | l IH] using coord_ind; [reflexivity |].
  destruct (isPosition l) eqn:Hpos.
  - destruct l as [|[x|] [|[y|] l]]; try discriminate.
    change (transformCoordinates t (CArr (CNum x :: CNum y :: l)))
      with (transformLeaf t (CArr (CNum x :: CNum y :: l)) x y).
    destruct (transformLeaf_cases t (CArr (CNum x :: CNum y :: l)) x y)
      as [-> | (a & b & ->)]; reflexivity.
  - rewrite (transformCoordinates_array _ _ Hpos), (shape_array _ Hpos).
    rewrite shape_array by now rewrite isPosition_map.
    f_equal. clear Hpos.
    induction IH as [|c l Hc _ IHl]; cbn [map]; [reflexivity |].
    now rewrite Hc, IHl.
Qed.

Lemma skeleton_positions c1 c2 :
  shape c1 = shape c2 -> positions c1 = positions c2.
Proof.
  revert c2. induction c1 as [n | l IH] using coord_ind; intros c2.
  - destruct c2 as [m | l2]; [reflexivity |].
    destruct (isPosition l2) eqn:E2.
    + now rewrite (shape_position _ E2).
    + now rewrite (shape_array _ E2).
  - destruct c2 as [m | l2].
    + destruct (isPosition l) eqn:E.
      * now rewrite (shape_position _ E).
      * now rewrite (shape_array _ E).
    + destruct (isPosition l) eqn:E, (isPosition l2) eqn:E2.
      * destruct l as [|[x|] [|[y|] l]]; try discriminate.
        destruct l2 as [|[x2|] [|[y2|] l2]]; try discriminate. reflexivity.
      * now rewrite (shape_position _ E), (shape_array _ E2).
      * now rewrite (shape_position _ E2), (shape_array _ E).
      * rewrite (shape_array _ E), (shape_array _ E2).
        rewrite (positions_array _ E), (positions_array _ E2).
        intros [= Hmap]. f_equal. clear E E2.
        revert l2 Hmap. induction IH as [|c l Hc _ IHl]; intros [|c2 l2];
          cbn [map]; intros Hmap; try discriminate; [reflexivity |].
        injection Hmap as Hh Ht. now rewrite (Hc _ Hh), (IHl _ Ht).
Qed.

Lemma reprojectFeature_shape t f :
  featureShape (reprojectFeature t f) = featureShape f.
Proof.
  unfold reprojectFeature, geometryCoordinates, featureShape.
  destruct (fgeometry f) as [g|] eqn:Hg; [| now rewrite Hg].
  destruct (coordinates g) as [c|] eqn:Hc; [| now rewrite Hg, Hc].
  destruct (truthyCoord c); [| now rewrite Hg, Hc].
  simpl. now rewrite transformCoordinates_shape.
Qed.

Lemma reprojected_shapes t fs :
  map featureShape (map (reprojectFeature t) fs) = map featureShape fs.
Proof.
  induction fs as [|f fs IH]; simpl; [reflexivity |].
  now rewrite reprojectFeature_shape, IH.
Qed.

Lemma reprojectGeoJSON_cases proj4 geojson fromCRS toCRS :
  reprojectGeoJSON proj4 geojson fromCRS toCRS = geojson
  \/ exists t,
      reprojectGeoJSON proj4 geojson fromCRS toCRS
      = {| fctype := fctype geojson;
           features := map (reprojectFeature t) (features geojson) |}.
Proof.
  unfold reprojectGeoJSON.
  destruct proj4 as [p|]; [| now left].
  destruct (_ || _); [now left |].
  destruct (buildTransform p fromCRS toCRS) as [t | |]; eauto.
  destruct (p fromCRS toCRS) as [t|]; eauto.
Qed.

Lemma featureShape_positions f1 f2 :
  featureShape f1 = featureShape f2 -> featurePositions f1 = featurePositions f2.
Proof.
  unfold featureShape, featurePositions.
  destruct (fgeometry f1) as [g1|], (fgeometry f2) as [g2|]; simpl;
    try destruct (coordinates g1) as [c1|]; try destruct (coordinates g2) as [c2|];
    simpl; try discriminate; try reflexivity.
  intros [= Hs]. now apply skeleton_positions.
Qed.

(** C9. A position with a NaN component, and a position whose transform
    has a NaN component, stays in place as it was; reprojection keeps, for
    every feature, the nesting of its coordinates and the number of its
    positions, and keeps the number of features. *)
Theorem reproject_retains_NaN_positions :
  (forall t x y rest,
      isNaN x || isNaN y = true ->
      transformCoordinates t (CArr (CNum x :: CNum y :: rest))
      = CArr (CNum x :: CNum y :: rest))
  /\ (forall t x y rest t0 t1,
         t (x, y) = Some (t0, t1) ->
         isNaN t0 || isNaN t1 = true ->
         transformCoordinates t (CArr (CNum x :: CNum y :: rest))
         = CArr (CNum x :: CNum y :: rest))
  /\ (forall t c, shape (transformCoordinates t c) = shape c)
  /\ (forall proj4 geojson fromCRS toCRS,
         let out := reprojectGeoJSON proj4 geojson fromCRS toCRS in
         length (features out) = length (features geojson)
         /\ map featureShape (features out) = map featureShape (features geojson)
         /\ map featurePositions (features out)
            = map featurePositions (features geojson)).
Proof.
  split; [| split; [| split]].
  - intros t x y rest Hnan. simpl. unfold transformLeaf. now rewrite Hnan.
  - intros t x y rest t0 t1 Ht Hnan. simpl. unfold transformLeaf.
    destruct (isNaN x || isNaN y); [reflexivity |]. now rewrite Ht, Hnan.
  - apply transformCoordinates_shape.
  - intros proj4 geojson fromCRS toCRS out.
    assert (Hs : map featureShape (features out)
                 = map featureShape (features geojson)).
    { subst out.
      destruct (reprojectGeoJSON_cases proj4 geojson fromCRS toCRS)
        as [-> | [t ->]]; [reflexivity | apply reprojected_shapes]. }
    split; [| split].
    + rewrite <- (length_map featureShape), Hs. apply length_map.
    + exact Hs.
    + clear -Hs. revert Hs. generalize (features out), (features geojson).
      intros l1. induction l1 as [|f1 l1 IH]; intros [|f2 l2] Hs;
        simpl in *; try discriminate; [reflexivity |].
      injection Hs as Hh Ht.
      now rewrite (featureShape_positions _ _ Hh), (IH _ Ht).
Qed.

(** The theorem at a point with a NaN easting, and at a point that the
    transform sends to NaN. *)
Lemma reproject_retains_NaN_positions_witness :
  transformCoordinates (fun _ => Some (Fin 0, Fin 0))
                       (CArr [CNum NaN; CNum (Fin 7500000)])
  = CArr [CNum NaN; CNum (Fin 7500000)]
  /\ transformCoordinates (fun _ => Some (NaN, NaN))
                          (CArr [CNum (Fin 500000); CNum (Fin 7500000)])
     = CArr [CNum (Fin 500000); CNum (Fin 7500000)].
Proof.
  destruct reproject_retains_NaN_positions as (Hin & Hout & _).
  split.
  - apply Hin. reflexivity.
  - apply (Hout _ _ _ _ NaN NaN); reflexivity.
Defined.

(** C10. With the source CRS [UTM] or [PROJECTED], the sentinels of an
    unidentified projected system, the collection is returned as it came:
    no transform is built and no coordinate is touched. *)
Theorem reproject_sentinel_unchanged :
  forall proj4 geojson toCRS,
    reprojectGeoJSON proj4 geojson "UTM" toCRS = geojson
    /\ reprojectGeoJSON proj4 geojson "PROJECTED" toCRS = geojson.
Proof.
  intros [p|] geojson toCRS; [| split; reflexivity].
  unfold reprojectGeoJSON. split.
  - destruct (String.eqb "UTM" toCRS || _); reflexivity.
  - destruct (String.eqb "PROJECTED" toCRS || _); reflexivity.
Qed.

(** The claim of C4 fails.  A transform all of whose results are in range
    still leaves the position [[NaN, 7500000]] as it is, and that is no
    longitude and latitude; and a pair that a transform puts at longitude
    50 and latitude 100, out of range, is returned all the same (neither
    [|lat| > 180] nor [|lon| > 90], so it is not even swapped). *)
Lemma reproject_range_counterexample :
  ~ (forall t : transform,
        geographic t ->
        forall x y,
          validPosition (transformCoordinates t (CArr [CNum x; CNum y])) = true)
  /\ ~ (forall (t : transform) x y lon lat,
           isNaN x || isNaN y = false ->
           t (x, y) = Some (lon, lat) ->
           isNaN lon || isNaN lat = false ->
           validPosition (transformCoordinates t (CArr [CNum x; CNum y])) = true).
Proof.
  split; intros Hclaim.
  - specialize (Hclaim (fun _ => Some (Fin (-57), Fin (-22)))).
    assert (Hgeo : geographic (fun _ => Some (Fin (-57), Fin (-22)))).
    { intros p lon lat [= <- <-]. reflexivity. }
    specialize (Hclaim Hgeo NaN (Fin 7500000)). discriminate Hclaim.
  - specialize (Hclaim (fun _ => Some (Fin 50, Fin 100))
                       (Fin 500000) (Fin 7500000) (Fin 50) (Fin 100)
                       eq_refl eq_refl eq_refl).
    discriminate Hclaim.
Qed.

(** C4, amended. A position without NaN whose transform is a pair without
    NaN in the range of longitude and latitude becomes that pair; a
    position with a NaN component, or whose transform throws or has a NaN
    component, stays as it was, whatever its range; a transformed pair out
    of range is returned all the same, as it is or swapped. *)
Theorem reproject_range_amended :
  forall t x y rest,
    let coords := CArr (CNum x :: CNum y :: rest) in
    (forall lon lat,
        isNaN x || isNaN y = false ->
        t (x, y) = Some (lon, lat) ->
        inRange lon lat = true ->
        transformCoordinates t coords = CArr [CNum lon; CNum lat]
        /\ validPosition (transformCoordinates t coords) = true)
    /\ (isNaN x || isNaN y = true \/ t (x, y) = None
        \/ (exists t0 t1, t (x, y) = Some (t0, t1) /\ isNaN t0 || isNaN t1 = true) ->
        transformCoordinates t coords = coords)
    /\ (forall lon lat,
           isNaN x || isNaN y = false ->
           t (x, y) = Some (lon, lat) ->
           isNaN lon || isNaN lat = false ->
           inRange lon lat = false ->
           transformCoordinates t coords = CArr [CNum lon; CNum lat]
           \/ transformCoordinates t coords = CArr [CNum lat; CNum lon]).
Proof.
  intros t x y rest coords. subst coords. simpl. unfold transformLeaf.
  split; [| split].
  - intros lon lat Hin Ht Hr. rewrite Hin, Ht.
    pose proof Hr as Hr'. unfold inRange in Hr'.
    apply andb_prop in Hr' as [Hr' Hlat].
    apply andb_prop in Hr' as [Hr' Hlon].
    apply andb_prop in Hr' as [Hn0 Hn1].
    apply negb_true_iff in Hlat, Hlon, Hn0, Hn1.
    rewrite Hn0, Hn1, Hlon, Hlat. simpl. split; [reflexivity | exact Hr].
  - intros [Hin | [Hthrow | (t0 & t1 & Ht & Hout)]].
    + now rewrite Hin.
    + rewrite Hthrow. now destruct (isNaN x || isNaN y).
    + rewrite Ht, Hout. now destruct (isNaN x || isNaN y).
  - intros lon lat Hin Ht Hnan Hr. rewrite Hin, Ht, Hnan.
    repeat case_match; auto.
Qed.

(** The theorem at the centre of UTM zone 21 south, sent to longitude -57
    and latitude about -22.6. *)
Lemma reproject_range_amended_witness :
  transformCoordinates (fun _ => Some (Fin (-57), Fin (-226 # 10)))
                       (CArr [CNum (Fin 500000); CNum (Fin 7500000)])
  = CArr [CNum (Fin (-57)); CNum (Fin (-226 # 10))].
Proof.
  destruct (reproject_range_amended
              (fun _ => Some (Fin (-57), Fin (-226 # 10)))
              (Fin 500000) (Fin 7500000) []) as (Hok & _ & _).
  destruct (Hok (Fin (-57)) (Fin (-226 # 10))) as [Heq _];
    [reflexivity | reflexivity | reflexivity |].
  exact Heq.
Defined.

(** ** The merge *)

Section MergeFacts.
Context `{JsRuntime}.

Lemma getProp_setProp k k' v o :
  getProp k (setProp k' v o)
  = if String.eqb k k' then Some v else getProp k o.
Proof.
  induction o as [|[k1 v1] o IH]; simpl.
  - destruct (String.eqb k k'); reflexivity.
  - destruct (String.eqb k' k1) eqn:E1; simpl.
    + apply String.eqb_eq in E1 as ->. destruct (String.eqb k k1); reflexivity.
    + destruct (String.eqb k k1) eqn:E2; [| exact IH].
      apply String.eqb_eq in E2 as ->.
      rewrite String.eqb_sym, E1. reflexivity.
Qed.

Lemma getProp_None k o : k ∉ keys o -> getProp k o = None.
Proof.
  induction o as [|[k1 v1] o IH]; simpl; [reflexivity |].
  intros Hk. apply not_elem_of_cons in Hk as [Hne Hk].
  destruct (String.eqb k k1) eqn:E; [| now apply IH].
  apply String.eqb_eq in E. contradiction.
Qed.

Lemma getProp_assign k target source :
  wfObj source ->
  getProp k (assign target source)
  = match getProp k source with
    | Some v => Some v
    | None => getProp k target
    end.
Proof.
  unfold wfObj, assign. revert target.
  induction source as [|[k1 v1] source IH]; intros target Hwf; simpl;
    [reflexivity |].
  cbn in Hwf. apply NoDup_cons in Hwf as [Hfresh Hwf].
  rewrite (IH _ Hwf), getProp_setProp.
  destruct (String.eqb k k1) eqn:E.
  - apply String.eqb_eq in E as ->. now rewrite (getProp_None _ _ Hfresh).
  - reflexivity.
Qed.

(** A spread reads a key in the later object first. *)
Lemma getProp_spread k a b :
  wfObj a -> wfObj b ->
  getProp k (spread a b)
  = match getProp k b with
    | Some v => Some v
    | None => getProp k a
    end.
Proof.
  intros Ha Hb. unfold spread.
  rewrite (getProp_assign _ _ _ Hb), (getProp_assign _ _ _ Ha).
  now destruct (getProp k a).
Qed.

Lemma buildMap_snoc col rows row :
  buildMap col (rows ++ [row])
  = <[rowKey col row := row]> (buildMap col rows).
Proof. unfold buildMap. now rewrite fold_left_app. Qed.

(** The [Map] holds, under a key, the last row that has it. *)
Lemma buildMap_last col before row after :
  (forall r, r ∈ after -> rowKey col r <> rowKey col row) ->
  buildMap col (before ++ row :: after) !! rowKey col row = Some row.
Proof.
  induction after as [|r after IH] using rev_ind; intros Hlast.
  - rewrite buildMap_snoc. apply lookup_insert_eq.
  - replace (before ++ row :: after ++ [r])
      with ((before ++ row :: after) ++ [r])
      by now rewrite <- app_assoc.
    rewrite buildMap_snoc, lookup_insert_ne.
    + apply IH. intros r' Hr'. apply Hlast. apply elem_of_app. now left.
    + apply Hlast. apply elem_of_app. right. now apply list_elem_of_singleton.
Qed.

Lemma buildMap_Some col rows k row :
  buildMap col rows !! k = Some row -> row ∈ rows /\ rowKey col row = k.
Proof.
  induction rows as [|r rows IH] using rev_ind.
  - unfold buildMap. simpl. now rewrite lookup_empty.
  - rewrite buildMap_snoc.
    destruct (decide (rowKey col r = k)) as [<- | Hne].
    + rewrite lookup_insert_eq. intros [= <-].
      split; [| reflexivity]. apply elem_of_app. right.
      now apply list_elem_of_singleton.
    + rewrite lookup_insert_ne by exact Hne. intros Hk.
      destruct (IH Hk) as [Hin Hkey]. split; [| exact Hkey].
      apply elem_of_app. now left.
Qed.

Lemma buildMap_None col rows k :
  (forall r, r ∈ rows -> rowKey col r <> k) -> buildMap col rows !! k = None.
Proof.
  intros Hno. destruct (buildMap col rows !! k) as [row|] eqn:E;
    [| reflexivity].
  destruct (buildMap_Some _ _ _ _ E) as [Hin Hkey]. now destruct (Hno row Hin).
Qed.

Lemma mergeFeature_geometry m fcol f :
  fgeometry (mergeFeature m fcol f) = fgeometry f.
Proof. unfold mergeFeature. now destruct (m !! featureKey fcol f). Qed.

End MergeFacts.

(** C1. Whenever the merge answers with a collection, the collection has
    exactly as many features as the one that came in, whatever the table,
    the key pair and the depth filter, and each feature carries the
    geometry of the input feature at its place: the depth filter removes
    nothing on the geometry side.  A request with its table, its collection
    and two column names is always answered so. *)
Theorem merge_total_on_features :
  forall `{JsRuntime} body,
    (forall out,
        mergeHandler body = Ok out ->
        exists fc,
          shapefileGeoJson body = Some fc
          /\ length (features (geojson out)) = length (features fc)
          /\ totalCount out = length (features fc)
          /\ map fgeometry (features (geojson out)) = map fgeometry (features fc))
    /\ (is_Some (spreadsheetData body) ->
        is_Some (shapefileGeoJson body) ->
        isEmpty (spreadsheetColumn body) = false ->
        isEmpty (shapefileColumn body) = false ->
        exists out, mergeHandler body = Ok out).
Proof.
  intros rt body. unfold mergeHandler. split.
  - intros out.
    destruct (spreadsheetData body) as [data|]; [| discriminate].
    destruct (shapefileGeoJson body) as [fc|]; [| discriminate].
    destruct (isEmpty (spreadsheetColumn body) || isEmpty (shapefileColumn body));
      [discriminate |].
    intros [= <-]. exists fc. simpl. repeat split.
    + apply length_map.
    + apply length_map.
    + rewrite map_map. apply map_ext. intros f. apply mergeFeature_geometry.
  - intros [data ->] [fc ->] -> ->. simpl. eauto.
Qed.

(** The first example of the specification: one record, one point, the
    join on [Farm] and the depth ["0-20 cm"]. *)
Lemma merge_total_on_features_witness :
  let point :=
    {| gtype := "Point";
       coordinates := Some (CArr [CNum (Fin (-57)); CNum (Fin (-22))]) |} in
  let body :=
    {| spreadsheetData :=
         Some [[("Farm", VStr "A"); ("Prof", VStr "0-20");
                ("Zn", VNum (Fin (12 # 10)))]];
       shapefileGeoJson :=
         Some {| fctype := "FeatureCollection";
                 features :=
                   [{| fgeometry := Some point;
                       properties := [("Farm", VStr "A")] |}] |};
       spreadsheetColumn := "Farm";
       shapefileColumn := "Farm";
       selectedDepth := Some "0-20 cm" |} in
  exists out,
    mergeHandler (H := exactRuntime) body = Ok out
    /\ length (features (geojson out)) = 1
    /\ map fgeometry (features (geojson out)) = [Some point].
Proof.
  intros point body.
  destruct (merge_total_on_features (H := exactRuntime) body) as [Hsame Hok].
  destruct Hok as [out Hout]; [simpl; eauto | simpl; eauto | reflexivity
                              | reflexivity |].
  exists out. split; [exact Hout |].
  destruct (Hsame out Hout) as (fc & Hfc & Hlen & _ & Hgeo).
  injection Hfc as <-. split; [exact Hlen | exact Hgeo].
Defined.

(** The merged feature of that example has the column [Zn] of the record,
    and it is counted as matched. *)
Example merge_first_example :
  let out :=
    merge (H := exactRuntime)
      [[("Farm", VStr "A"); ("Prof", VStr "0-20"); ("Zn", VNum (Fin (12 # 10)))]]
      {| fctype := "FeatureCollection";
         features := [{| fgeometry := None; properties := [("Farm", VStr "A")] |}] |}
      "Farm" "Farm" (Some "0-20 cm") in
  map properties (features (geojson out))
  = [[("Farm", VStr "A"); ("Prof", VStr "0-20"); ("Zn", VNum (Fin (12 # 10)))]]
  /\ matchedCount out = 1 /\ totalCount out = 1.
Proof. vm_compute. repeat split; reflexivity. Qed.

(** ** The depth filter *)

Section DepthFacts.
Context `{JsRuntime}.








End DepthFacts.

(** ** The join *)

Section JoinFacts.
Context `{JsRuntime}.

(** On a truthy join value the feature key is the key of the value; on a
    value that is absent, null or the empty text it is the empty key. *)
Lemma featureKey_truthy fcol f :
  truthy (getProp fcol (properties f)) = true ->
  featureKey fcol f = keyOf (getProp fcol (properties f)).
Proof. unfold featureKey, orEmpty, keyOf. now intros ->. Qed.

Lemma featureKey_missing fcol f :
  getProp fcol (properties f) = None
  \/ getProp fcol (properties f) = Some VNull
  \/ getProp fcol (properties f) = Some (VStr EmptyString) ->
  featureKey fcol f = EmptyString.
Proof. unfold featureKey, orEmpty. now intros [-> | [-> | ->]]. Qed.

(** X10. The join as the handler computes it: under a key the map holds the
    last filtered row with that key; a feature whose key is in the map
    gets its own attributes overlaid by the columns of that row, the
    columns of the row winning; a feature whose key is not in the map is
    returned as it is. *)
Lemma merge_join data fc scol fcol depth :
  let rows := filterByDepth data depth in
  let m := buildMap scol rows in
  (forall before row after,
      rows = before ++ row :: after ->
      (forall r, r ∈ after -> rowKey scol r <> rowKey scol row) ->
      m !! rowKey scol row = Some row)
  /\ (forall k row, m !! k = Some row -> row ∈ rows /\ keyOf (getProp scol row) = k)
  /\ features (geojson (merge data fc scol fcol depth))
     = map (mergeFeature m fcol) (features fc)
  /\ (forall f row,
         m !! featureKey fcol f = Some row ->
         wfObj (properties f) -> wfObj row ->
         fgeometry (mergeFeature m fcol f) = fgeometry f
         /\ forall k,
             getProp k (properties (mergeFeature m fcol f))
             = match getProp k row with
               | Some v => Some v
               | None => getProp k (properties f)
               end)
  /\ (forall f, m !! featureKey fcol f = None -> mergeFeature m fcol f = f).
Proof.
  intros rows m. split; [| split; [| split; [| split]]].
  - intros before row after -> Hlast. now apply buildMap_last.
  - intros k row Hk. now apply buildMap_Some in Hk.
  - reflexivity.
  - intros f row Hm Hf Hrow. unfold mergeFeature. rewrite Hm. simpl.
    split; [reflexivity |]. intros k. now apply getProp_spread.
  - intros f Hm. unfold mergeFeature. now rewrite Hm.
Qed.

End JoinFacts.

(** C5, at the input on which the code departs from it.  The table
    [[{ID: 0, Zn: 1.2}]] and a point with the attribute [ID: 0] are joined
    on [ID]: the key of the join value [0] is ["0"] and the map has the
    record under it, but the key the handler computes for the feature is
    the empty one, since [0 || ''] is the empty text; the feature comes
    back without [Zn] and is not counted as matched. *)
Theorem merge_zero_join_value :
  let row := [("ID", VNum (Fin 0)); ("Zn", VNum (Fin (12 # 10)))] in
  let f :=
    {| fgeometry :=
         Some {| gtype := "Point";
                 coordinates := Some (CArr [CNum (Fin (-57)); CNum (Fin (-22))]) |};
       properties := [("ID", VNum (Fin 0))] |} in
  let fc := {| fctype := "FeatureCollection"; features := [f] |} in
  let out := merge (H := exactRuntime) [row] fc "ID" "ID" None in
  keyOf (H := exactRuntime) (getProp "ID" (properties f)) = "0"
  /\ buildMap (H := exactRuntime) "ID" [row] !! "0" = Some row
  /\ featureKey (H := exactRuntime) "ID" f = EmptyString
  /\ features (geojson out) = [f]
  /\ matchedCount out = 0.
Proof. vm_compute. repeat split; reflexivity. Qed.

(** ** The bounding box *)

Lemma representatives_cons f fs :
  representatives (f :: fs)
  = match geometryCoordinates f with
    | Some (g, c) => representative g c :: representatives fs
    | None => representatives fs
    end.
Proof.
  unfold representatives. simpl.
  now destruct (geometryCoordinates f) as [[g c]|].
Qed.

Lemma positions_cons f fs :
  omap representativePosition (f :: fs)
  = match representativePosition f with
    | Some p => p :: omap representativePosition fs
    | None => omap representativePosition fs
    end.
Proof. reflexivity. Qed.

(** When every feature that has coordinates is represented by a position,
    the walk over the representatives does not throw and reads the
    longitudes and the latitudes of those positions. *)
Lemma representatives_positions fs :
  (forall f, f ∈ fs ->
             geometryCoordinates f = None \/ is_Some (representativePosition f)) ->
  exists cs,
    mapM (fun c : option coord => c) (representatives fs) = Some cs
    /\ map (fun c => toNumberOpt (index c 0)) cs
       = map fst (omap representativePosition fs)
    /\ map (fun c => toNumberOpt (index c 1)) cs
       = map snd (omap representativePosition fs)
    /\ (representatives fs = [] <-> omap representativePosition fs = []).
Proof.
  induction fs as [|f fs IH]; intros Hall.
  - exists []. repeat split; reflexivity.
  - destruct IH as (cs & Hcs & Hlon & Hlat & Hnil).
    { intros f' Hf'. apply Hall. now apply list_elem_of_further. }
    rewrite representatives_cons, positions_cons.
    destruct (Hall f (list_elem_of_here _ _)) as [Hnone | [[lon lat] Hpos]].
    + assert (Hpn : representativePosition f = None).
      { unfold representativePosition. now rewrite Hnone. }
      exists cs. rewrite Hpn, Hnone. auto.
    + rewrite Hpos. unfold representativePosition in Hpos.
      destruct (geometryCoordinates f) as [[g c]|]; [| discriminate].
      destruct (representative g c) as [[n | [|[x|] [|[y|] l]]]|];
        try discriminate.
      injection Hpos as -> ->.
      exists (CArr (CNum lon :: CNum lat :: l) :: cs).
      cbn [mapM]. rewrite Hcs. cbn. rewrite Hlon, Hlat.
      repeat split; discriminate.
Qed.

(** On such a collection the bounds are the smallest and the largest
    latitude and longitude of the representative positions. *)
Lemma computeBounds_positions fs :
  (forall f, f ∈ fs ->
             geometryCoordinates f = None \/ is_Some (representativePosition f)) ->
  omap representativePosition fs <> [] ->
  let lons := map fst (omap representativePosition fs) in
  let lats := map snd (omap representativePosition fs) in
  computeBounds fs
  = Some (Some ((mathMin lats, mathMin lons), (mathMax lats, mathMax lons))).
Proof.
  intros Hall Hne lons lats.
  destruct (representatives_positions fs Hall) as (cs & Hcs & Hlon & Hlat & Hnil).
  unfold computeBounds. destruct fs as [|f fs]; [now destruct Hne |].
  destruct (representatives (f :: fs)) as [|r rs] eqn:Hr.
  - destruct Hne. now apply Hnil.
  - rewrite Hcs, Hlon, Hlat. reflexivity.
Qed.

(** C7, at the input on which the code departs from it.  For one polygon
    whose ring starts at longitude -57 and latitude -22, the
    representative [coordinates[0]] is the ring, so that [c[0]] and [c[1]]
    are its first two vertices, arrays that [Math.min] and [Math.max] turn
    into NaN: the bounds are four NaN and not the box of the first
    coordinate. *)
Theorem computeBounds_polygon :
  let ring :=
    CArr [CArr [CNum (Fin (-57)); CNum (Fin (-22))];
          CArr [CNum (Fin (-56)); CNum (Fin (-22))];
          CArr [CNum (Fin (-56)); CNum (Fin (-21))];
          CArr [CNum (Fin (-57)); CNum (Fin (-22))]] in
  let polygon :=
    {| fgeometry := Some {| gtype := "Polygon"; coordinates := Some (CArr [ring]) |};
       properties := [] |} in
  computeBounds [polygon] = Some (Some ((NaN, NaN), (NaN, NaN)))
  /\ representative {| gtype := "Polygon"; coordinates := Some (CArr [ring]) |}
                    (CArr [ring]) = Some ring
  /\ index ring 0 = Some (CArr [CNum (Fin (-57)); CNum (Fin (-22))]).
Proof. vm_compute. repeat split; reflexivity. Qed.

(** The same computation on two points gives the box the claim describes. *)
Example computeBounds_points :
  computeBounds
    [{| fgeometry :=
          Some {| gtype := "Point";
                  coordinates := Some (CArr [CNum (Fin (-57)); CNum (Fin (-22))]) |};
        properties := [] |};
     {| fgeometry :=
          Some {| gtype := "Point";
                  coordinates := Some (CArr [CNum (Fin (-56)); CNum (Fin (-23))]) |};
        properties := [] |}]
  = Some (Some ((Fin (-23), Fin (-57)), (Fin (-22), Fin (-56)))).
Proof. vm_compute. reflexivity. Qed.

(** ** The orchestrator *)

Section OrchestratorFacts.
Context `{JsRuntime}.

Lemma recordEnd_interpolations j param e r :
  interpolations (recordEnd j param e r)
  = <[param := recorded j param e]> (interpolations r).
Proof.
  destruct e as [[[| p | p]|] stdout stderr [|] copyOk | message];
    reflexivity.
Qed.

(** A parameter that is not among those still to process keeps its entry. *)
Lemma processFrom_absent w j rest i r param :
  param ∉ rest ->
  interpolations (processFrom w j rest i r) !! param
  = interpolations r !! param.
Proof.
  revert i r. induction rest as [|p rest IH]; intros i r Hnot; [reflexivity |].
  apply not_elem_of_cons in Hnot as [Hne Hnot]. simpl.
  rewrite (IH _ _ Hnot), recordEnd_interpolations.
  now apply lookup_insert_ne.
Qed.


(** Every parameter ends with an entry. *)
Lemma processFrom_all w j rest i r param :
  param ∈ rest -> is_Some (interpolations (processFrom w j rest i r) !! param).
Proof.
  revert i r. induction rest as [|p rest IH]; intros i r Hin.
  - now apply elem_of_nil in Hin.
  - simpl. destruct (decide (param ∈ rest)) as [Hrest | Hrest].
    + now apply IH.
    + apply elem_of_cons in Hin as [-> | Hin]; [| contradiction].
      rewrite (processFrom_absent _ _ _ _ _ _ Hrest), recordEnd_interpolations.
      rewrite lookup_insert_eq. eauto.
Qed.

(** The handler answers a complete request whose bounds can be computed
    with the results of the whole batch. *)
Lemma interpolateHandler_complete w today body :
  completeRequest body ->
  forall geo params b,
    geoJson body = Some geo ->
    parameters body = Some params ->
    computeBounds (features geo) = Some b ->
    exists j r0,
      interpolations r0 = ∅
      /\ interpolateHandler w today body
         = Results (processFrom w j params 0 r0).
Proof.
  intros (_ & (p & ps & Hps) & Hm & Hres & Hrad) geo params b Hgeo Hparams Hb.
  unfold interpolateHandler. rewrite Hgeo, Hparams, Hm, Hres, Hrad, Hb. simpl.
  rewrite Hparams in Hps. injection Hps as ->.
  eexists _, _. split; [| reflexivity]. reflexivity.
Qed.

End OrchestratorFacts.

(** ** The statistics *)

Section StatisticsFacts.
Context `{JsRuntime}.

Lemma numChar_stops_max s : stops isNumChar (", max=" +:+ s).
Proof. reflexivity. Qed.

Lemma numChar_stops_mean s : stops isNumChar (", mean=" +:+ s).
Proof. reflexivity. Qed.

Lemma nonempty_isEmpty (s : string) : s <> EmptyString -> isEmpty s = false.
Proof. destruct s; [congruence | reflexivity]. Qed.

Lemma isEmpty_false (s : string) : isEmpty s = false -> s <> EmptyString.
Proof. destruct s; [discriminate | congruence]. Qed.

Lemma takeWhile_nonempty_app f (s t : string) :
  allChars f s = true -> s <> EmptyString ->
  isEmpty (takeWhile f (s +:+ t)) = false.
Proof.
  destruct s as [|c s]; [congruence |]. intros Hall _.
  change (String c s +:+ t) with (String c (s +:+ t)). simpl in *.
  apply andb_prop in Hall as [Hc _]. now rewrite Hc.
Qed.

(** The statistics pattern matches at the start of a string exactly when
    the string has the shape of the marker; the third group then runs on
    as far as its class goes. *)
Lemma statsAt_sound s g1 g2 g3 :
  statsAt s = Some (g1, g2, g3) -> exists post, statsShape s g1 g2 g3 post.
Proof.
  unfold statsAt.
  destruct (stripPrefix "STATS: min=" s) as [r1|] eqn:E1; [| discriminate].
  destruct (isEmpty (takeWhile isNumChar r1)) eqn:N1; [discriminate |].
  destruct (stripPrefix ", max=" (dropWhile isNumChar r1)) as [r2|] eqn:E2;
    [| discriminate].
  destruct (isEmpty (takeWhile isNumChar r2)) eqn:N2; [discriminate |].
  destruct (stripPrefix ", mean=" (dropWhile isNumChar r2)) as [r3|] eqn:E3;
    [| discriminate].
  destruct (isEmpty (takeWhile isNumChar r3)) eqn:N3; [discriminate |].
  intros [= <- <- <-]. exists (dropWhile isNumChar r3).
  unfold statsShape. repeat split;
    auto using allChars_takeWhile, isEmpty_false.
  apply stripPrefix_sound in E1, E2, E3.
  rewrite take_drop_while, <- E3, take_drop_while, <- E2, take_drop_while.
  exact E1.
Qed.

Lemma statsAt_complete s g1 g2 g3 post :
  statsShape s g1 g2 g3 post -> is_Some (statsAt s).
Proof.
  intros (-> & A1 & N1 & A2 & N2 & A3 & N3). unfold statsAt.
  rewrite stripPrefix_app.
  rewrite (takeWhile_app _ g1 _ A1 (numChar_stops_max _)).
  rewrite (dropWhile_app _ g1 _ A1 (numChar_stops_max _)).
  rewrite (nonempty_isEmpty _ N1), stripPrefix_app.
  rewrite (takeWhile_app _ g2 _ A2 (numChar_stops_mean _)).
  rewrite (dropWhile_app _ g2 _ A2 (numChar_stops_mean _)).
  rewrite (nonempty_isEmpty _ N2), stripPrefix_app.
  rewrite (takeWhile_nonempty_app _ _ _ A3 N3). eauto.
Qed.

(** The output has no statistics marker exactly when the pattern finds
    nothing in it. *)
Lemma statsMatch_None stdout :
  statsMatch stdout = None
  <-> forall pre suf g1 g2 g3 post,
        stdout = pre +:+ suf -> ~ statsShape suf g1 g2 g3 post.
Proof.
  split.
  - intros Hnone pre suf g1 g2 g3 post -> Hshape.
    apply firstMatch_none in Hnone.
    destruct (statsAt_complete _ _ _ _ _ Hshape) as [r Hr]. congruence.
  - intros Hno. destruct (statsMatch stdout) as [[[g1 g2] g3]|] eqn:E;
      [| reflexivity].
    destruct (firstMatch_sound _ _ _ E) as (pre & suf & -> & Hat).
    destruct (statsAt_sound _ _ _ _ Hat) as [post Hshape].
    now destruct (Hno pre suf g1 g2 g3 post eq_refl).
Qed.

End StatisticsFacts.



(** ** More on [detectCRS] *)

Lemma showN_inj n m : showN n = showN m -> n = m.
Proof.
  unfold showN. intros E.
  assert (Hnn : forall k, N.to_uint k <> Decimal.Nil).
  { intros [|p]; [discriminate | apply DecimalPos.Unsigned.to_uint_nonnil]. }
  apply DecimalN.Unsigned.to_uint_inj.
  pose proof (NilZero.usu _ (Hnn n)) as Un.
  pose proof (NilZero.usu _ (Hnn m)) as Um.
  rewrite E in Un. congruence.
Qed.

Lemma append_inj_l (p a b : string) : p +:+ a = p +:+ b -> a = b.
Proof.
  induction p as [|c p IH]; [trivial |].
  rewrite !append_cons. intros [= E]. now apply IH.
Qed.

Lemma epsg_code_neq n (code : N) :
  (code < 32600)%N -> (32600 <= n)%N ->
  "EPSG:" +:+ showN n <> "EPSG:" +:+ showN code.
Proof.
  intros Hc Hn E. apply append_inj_l, showN_inj in E. lia.
Qed.

(** The results of the UTM branch. *)
Lemma detectCRS_utm_branch prj :
  hasUtmMarker prj = true ->
  detectCRS (Some prj) = "UTM"
  \/ exists n, (32600 <= n)%N /\ detectCRS (Some prj) = "EPSG:" +:+ showN n.
Proof.
  intros Hm. unfold detectCRS. rewrite (utmMarker_nonempty _ Hm).
  unfold hasUtmMarker in Hm. rewrite Hm.
  destruct (zoneMatch prj) as [[digits h]|] eqn:Hz.
  - right. destruct (Ascii.eqb (upperChar h) "S"); eexists; (split; [| reflexivity]); lia.
  - destruct (includes "Zone_21S" prj || includes "Zone 21S" prj) eqn:E.
    + apply zone21S_matched in E as [r Hr]. congruence.
    + now left.
Qed.

(** The longest run of digits bounds every run. *)
Lemma maxDigitRun_app (pre suf : string) :
  maxDigitRun suf <= maxDigitRun (pre +:+ suf).
Proof.
  induction pre as [|c pre IH]; [reflexivity |].
  rewrite append_cons. cbn [maxDigitRun]. lia.
Qed.

Lemma takeWhile_length_app f (ds post : string) :
  allChars f ds = true ->
  String.length ds <= String.length (takeWhile f (ds +:+ post)).
Proof.
  induction ds as [|c ds IH]; cbn [allChars]; intros Hds; [cbn; lia |].
  apply andb_prop in Hds as [Hc Hds]. rewrite append_cons. cbn [takeWhile].
  rewrite Hc. cbn [String.length]. specialize (IH Hds). lia.
Qed.

Lemma maxDigitRun_run (pre ds post : string) :
  allChars isDigit ds = true ->
  String.length ds <= maxDigitRun (pre +:+ ds +:+ post).
Proof.
  intros Hds. etransitivity; [| apply maxDigitRun_app].
  pose proof (takeWhile_length_app isDigit ds post Hds) as Hlen.
  destruct ds as [|c ds]; [cbn; lia |].
  rewrite append_cons in Hlen |- *. cbn [maxDigitRun]. lia.
Qed.

Lemma zoneMatch_digits prj digits h :
  zoneMatch prj = Some (digits, h) ->
  allChars isDigit digits = true /\ String.length digits <= maxDigitRun prj.
Proof.
  intros Hm. destruct (zoneMatch_sound _ _ _ Hm)
    as (pre & suf & -> & z & sep & post & -> & _ & _ & Hd & _).
  split; [exact Hd |].
  rewrite <- !append_assoc. rewrite append_assoc.
  apply maxDigitRun_run, Hd.
Qed.

(** The results of the UTM branch when no run of digits is longer than
    fifteen: the number is one that the source computes exactly. *)
Lemma detectCRS_utm_branch_exact prj :
  hasUtmMarker prj = true ->
  maxDigitRun prj <= 15 ->
  detectCRS (Some prj) = "UTM"
  \/ exists n, (32600 <= n <= maxSafe)%N
               /\ detectCRS (Some prj) = "EPSG:" +:+ showN n.
Proof.
  intros Hm Hrun. unfold detectCRS. rewrite (utmMarker_nonempty _ Hm).
  unfold hasUtmMarker in Hm. rewrite Hm.
  destruct (zoneMatch prj) as [[digits h]|] eqn:Hz.
  - right. destruct (zoneMatch_digits _ _ _ Hz) as [Hd Hlen].
    assert (Hsafe : (32700 + parseInt digits <= maxSafe)%N)
      by (apply parseInt_safe; [exact Hd | lia]).
    destruct (Ascii.eqb (upperChar h) "S"); eexists; (split; [| reflexivity]); lia.
  - destruct (includes "Zone_21S" prj || includes "Zone 21S" prj) eqn:E.
    + apply zone21S_matched in E as [r Hr]. congruence.
    + now left.
Qed.

(** X1. [detectCRS] answers every description in which no run of digits
    is longer than fifteen, absent, empty or malformed, with one of five
    forms: the two geographic codes, the two sentinels, or [EPSG:]
    followed by a number from 32600 up that the source computes
    exactly. *)
Theorem detectCRS_results :
  forall prj,
    (forall s, prj = Some s -> maxDigitRun s <= 15) ->
    detectCRS prj = "EPSG:4674" \/ detectCRS prj = "EPSG:4326"
    \/ detectCRS prj = "UTM" \/ detectCRS prj = "PROJECTED"
    \/ exists n, (32600 <= n <= maxSafe)%N
                 /\ detectCRS prj = "EPSG:" +:+ showN n.
Proof.
  intros [prj|] Hrun; [| now left]. specialize (Hrun prj eq_refl).
  destruct (hasUtmMarker prj) eqn:Hm.
  - destruct (detectCRS_utm_branch_exact prj Hm Hrun) as [-> | (n & Hn & ->)];
      eauto 10.
  - unfold detectCRS. unfold hasUtmMarker in Hm. rewrite Hm.
    destruct (isEmpty prj); [now left |].
    repeat (match goal with
            | |- context [if ?b then _ else _] => destruct b
            end; auto 10).
Qed.

(** The theorem at a description in UTM zone 21 south. *)
Lemma detectCRS_results_witness :
  exists n, (32600 <= n <= maxSafe)%N
            /\ detectCRS (Some "WGS 84 / UTM zone 21S") = "EPSG:" +:+ showN n.
Proof.
  destruct (detectCRS_results (Some "WGS 84 / UTM zone 21S"))
    as [E | [E | [E | [E | Hn]]]]; try discriminate E; [| exact Hn].
  intros s [= <-]. vm_compute. lia.
Defined.

(** X2. A description that declares a projected system, by a UTM or
    Transverse-Mercator marker or by [PROJCS], is never resolved to the
    global geographic code [EPSG:4326], whatever else it mentions; with a
    UTM or Transverse-Mercator marker it is not resolved to the regional
    geographic code [EPSG:4674] either. *)
Theorem detectCRS_projected_not_geographic :
  forall prj,
    (hasUtmMarker prj = true \/ includes "PROJCS" prj = true ->
     detectCRS (Some prj) <> "EPSG:4326")
    /\ (hasUtmMarker prj = true -> detectCRS (Some prj) <> "EPSG:4674").
Proof.
  intros prj.
  assert (Hutm : hasUtmMarker prj = true ->
                 detectCRS (Some prj) <> "EPSG:4326"
                 /\ detectCRS (Some prj) <> "EPSG:4674").
  { intros Hm. destruct (detectCRS_utm_branch prj Hm) as [-> | (n & Hn & ->)].
    - split; intros [=].
    - split.
      + apply (epsg_code_neq n 4326); [reflexivity | exact Hn].
      + apply (epsg_code_neq n 4674); [reflexivity | exact Hn]. }
  split; [| intros Hm; now apply Hutm].
  intros [Hm | Hp]; [now apply Hutm |].
  destruct (hasUtmMarker prj) eqn:Hm; [now apply Hutm |].
  unfold detectCRS. unfold hasUtmMarker in Hm. rewrite Hm, Hp.
  destruct (isEmpty prj); [intros [=] |].
  rewrite andb_false_r.
  destruct (includes "SIRGAS" prj || includes "4674" prj
            || includes "GCS_SIRGAS2000" prj); intros [=].
Qed.

(** The theorem at a WKT that names WGS 1984 inside a projected system. *)
Lemma detectCRS_projected_not_geographic_witness :
  detectCRS (Some "PROJCS[Lambert,GEOGCS[GCS_WGS_1984]]") <> "EPSG:4326"
  /\ detectCRS (Some "SIRGAS_2000_UTM_Zone_22S") <> "EPSG:4674".
Proof.
  split.
  - apply (detectCRS_projected_not_geographic
             "PROJCS[Lambert,GEOGCS[GCS_WGS_1984]]"). now right.
  - apply (detectCRS_projected_not_geographic "SIRGAS_2000_UTM_Zone_22S").
    reflexivity.
Defined.

(** ** More on [reprojectGeoJSON] *)

Lemma reprojectFeature_attributes t f :
  properties (reprojectFeature t f) = properties f
  /\ geometryType (reprojectFeature t f) = geometryType f.
Proof.
  unfold reprojectFeature, geometryCoordinates, geometryType.
  destruct (fgeometry f) as [g|] eqn:Hg; [| now rewrite Hg].
  destruct (coordinates g) as [c|]; [| now rewrite Hg].
  destruct (truthyCoord c); [| now rewrite Hg].
  split; reflexivity.
Qed.

Lemma reprojectFeature_skip t f :
  geometryCoordinates f = None -> reprojectFeature t f = f.
Proof. unfold reprojectFeature. now intros ->. Qed.

Lemma reprojectGeoJSON_attributes proj4 geojson fromCRS toCRS :
  let out := reprojectGeoJSON proj4 geojson fromCRS toCRS in
  map properties (features out) = map properties (features geojson)
  /\ map geometryType (features out) = map geometryType (features geojson)
  /\ fctype out = fctype geojson
  /\ length (features out) = length (features geojson).
Proof.
  intros out. subst out.
  destruct (reprojectGeoJSON_cases proj4 geojson fromCRS toCRS)
    as [-> | [t ->]]; [now repeat split |].
  cbn. repeat split.
  - rewrite map_map. apply map_ext. intros f.
    apply (reprojectFeature_attributes t f).
  - rewrite map_map. apply map_ext. intros f.
    apply (reprojectFeature_attributes t f).
  - apply length_map.
Qed.

(** X3. Reprojection touches coordinates only: the output has the
    attributes and the geometry type of every input feature, in the same
    order, and the same collection type; a feature without geometry or
    without coordinates comes out as it went in. *)
Theorem reproject_keeps_attributes :
  forall proj4 geojson fromCRS toCRS,
    let out := reprojectGeoJSON proj4 geojson fromCRS toCRS in
    map properties (features out) = map properties (features geojson)
    /\ map geometryType (features out) = map geometryType (features geojson)
    /\ fctype out = fctype geojson
    /\ forall i f,
        features geojson !! i = Some f ->
        geometryCoordinates f = None ->
        features out !! i = Some f.
Proof.
  intros proj4 geojson fromCRS toCRS out. subst out.
  destruct (reprojectGeoJSON_cases proj4 geojson fromCRS toCRS)
    as [-> | [t ->]]; [now repeat split |].
  simpl. repeat split.
  - rewrite map_map. apply map_ext. intros f.
    apply (reprojectFeature_attributes t f).
  - rewrite map_map. apply map_ext. intros f.
    apply (reprojectFeature_attributes t f).
  - intros i f Hi Hnone. rewrite list_lookup_fmap, Hi. simpl.
    now rewrite (reprojectFeature_skip t f Hnone).
Qed.

(** The theorem at a collection of a point and a feature without
    geometry, under a transform that moves every point. *)
Lemma reproject_keeps_attributes_witness :
  let bare := {| fgeometry := None; properties := [("ID", VNum (Fin 2))] |} in
  let point :=
    {| fgeometry :=
         Some {| gtype := "Point";
                 coordinates := Some (CArr [CNum (Fin 500000); CNum (Fin 7500000)]) |};
       properties := [("ID", VNum (Fin 1))] |} in
  let geojson := {| fctype := "FeatureCollection"; features := [point; bare] |} in
  let proj4 : proj4lib := fun _ _ => Some (fun _ => Some (Fin (-57), Fin (-22))) in
  features (reprojectGeoJSON (Some proj4) geojson "EPSG:32721" "EPSG:4326") !! 1
  = Some bare.
Proof.
  intros bare point geojson proj4.
  destruct (reproject_keeps_attributes (Some proj4) geojson
              "EPSG:32721" "EPSG:4326") as (_ & _ & _ & Hskip).
  apply Hskip; reflexivity.
Defined.



(** X5. The swap after the range check never repairs a position: when the
    transform of a position has no NaN and is out of the range of longitude
    and latitude, what is returned, swapped or not, is out of range as
    well. *)
Theorem swap_never_repairs :
  forall t x y rest lon lat,
    isNaN x || isNaN y = false ->
    t (x, y) = Some (lon, lat) ->
    isNaN lon || isNaN lat = false ->
    inRange lon lat = false ->
    validPosition (transformCoordinates t (CArr (CNum x :: CNum y :: rest)))
    = false.
Proof.
  intros t x y rest lon lat Hin Ht Hnan Hr. simpl. unfold transformLeaf.
  rewrite Hin, Ht, Hnan.
  apply orb_false_elim in Hnan as [Hn0 Hn1].
  assert (Hout : gt (abs lon) (Fin 180) || gt (abs lat) (Fin 90) = true).
  { unfold inRange in Hr. rewrite Hn0, Hn1 in Hr. simpl in Hr.
    destruct (gt (abs lon) (Fin 180)); [reflexivity |].
    destruct (gt (abs lat) (Fin 90)); [reflexivity | discriminate]. }
  rewrite Hout.
  destruct (gt (abs lat) (Fin 180) || gt (abs lon) (Fin 90)) eqn:Hswap.
  - unfold validPosition, inRange. rewrite Hn0, Hn1. simpl.
    apply orb_prop in Hswap as [-> | ->]; simpl;
      [reflexivity | apply andb_false_r].
  - exact Hr.
Qed.

(** The theorem at a transform that answers in metres. *)
Lemma swap_never_repairs_witness :
  validPosition
    (transformCoordinates (fun p => Some p)
                          (CArr [CNum (Fin 500000); CNum (Fin 7500000)]))
  = false.
Proof.
  apply (swap_never_repairs (fun p => Some p) (Fin 500000) (Fin 7500000) []
                            (Fin 500000) (Fin 7500000)); reflexivity.
Defined.

(** ** More on the merge *)

Section MergeMore.
Context `{JsRuntime}.

Lemma buildMap_nil col : buildMap col [] = ∅.
Proof. reflexivity. Qed.

Lemma mergeFeature_unmatched m fcol f :
  m !! featureKey fcol f = None -> mergeFeature m fcol f = f.
Proof. unfold mergeFeature. now intros ->. Qed.

(** A merged feature that counts as matched comes from a feature whose
    key is in the map. *)
Lemma matched_was_merged (m : gmap string obj) fcol fs :
  length (filter (fun f => is_Some (m !! featureKey fcol f))
                 (map (mergeFeature m fcol) fs))
  <= length (filter (fun f => is_Some (m !! featureKey fcol f)) fs).
Proof.
  induction fs as [|f fs IH]; [reflexivity |]. cbn [map].
  destruct (m !! featureKey fcol f) as [row|] eqn:Hm.
  - rewrite (filter_cons_True _ f fs) by (rewrite Hm; eauto).
    rewrite filter_cons. simpl. case_decide; simpl; lia.
  - rewrite (mergeFeature_unmatched _ _ _ Hm).
    rewrite !filter_cons_False by (rewrite Hm; apply is_Some_None).
    exact IH.
Qed.

Lemma keys_cons k v (o : obj) : keys ((k, v) :: o) = k :: keys o.
Proof. reflexivity. Qed.

Lemma assign_cons target k v source :
  assign target ((k, v) :: source) = assign (setProp k v target) source.
Proof. reflexivity. Qed.

Lemma setProp_keys k v o :
  keys (setProp k v o) = if decide (k ∈ keys o) then keys o else keys o ++ [k].
Proof.
  induction o as [|[k1 v1] o IH]; [reflexivity |].
  cbn [setProp]. rewrite keys_cons.
  destruct (String.eqb k k1) eqn:E.
  - apply String.eqb_eq in E as ->. rewrite keys_cons.
    rewrite decide_True by apply list_elem_of_here. reflexivity.
  - apply String.eqb_neq in E. rewrite keys_cons, IH.
    destruct (decide (k ∈ keys o)) as [Hin | Hnot].
    + rewrite decide_True by now apply list_elem_of_further. reflexivity.
    + rewrite decide_False; [reflexivity |].
      intros Hin. apply elem_of_cons in Hin as [-> | Hin]; contradiction.
Qed.

Lemma filter_ext_in {A} (P Q : A -> Prop)
    `{forall x, Decision (P x)} `{forall x, Decision (Q x)} (l : list A) :
  (forall x, x ∈ l -> P x <-> Q x) -> filter P l = filter Q l.
Proof.
  induction l as [|x l IH]; intros Hext; [reflexivity |].
  assert (Hl : filter P l = filter Q l).
  { apply IH. intros y Hy. apply Hext. now apply list_elem_of_further. }
  destruct (decide (P x)) as [Hp | Hp].
  - rewrite (filter_cons_True P x l Hp).
    rewrite (filter_cons_True Q x l)
      by (apply Hext; [apply list_elem_of_here | exact Hp]).
    now rewrite Hl.
  - rewrite (filter_cons_False P x l Hp).
    rewrite (filter_cons_False Q x l); [exact Hl |].
    intros Hq. apply Hp. apply Hext; [apply list_elem_of_here | exact Hq].
Qed.

(** The keys after [Object.assign]: those of the target in their places,
    then the new ones of the source in its order. *)
Lemma assign_keys target source :
  wfObj source ->
  keys (assign target source)
  = keys target ++ filter (fun k => k ∉ keys target) (keys source).
Proof.
  unfold wfObj. revert target.
  induction source as [|[k v] source IH]; intros target Hwf.
  - cbn. now rewrite app_nil_r.
  - rewrite keys_cons in Hwf. apply NoDup_cons in Hwf as [Hfresh Hwf].
    rewrite assign_cons, (IH _ Hwf), setProp_keys, keys_cons.
    destruct (decide (k ∈ keys target)) as [Hin | Hnot].
    + rewrite filter_cons_False by (intros Hn; now apply Hn). reflexivity.
    + rewrite (filter_cons_True _ k) by exact Hnot.
      rewrite <- app_assoc. cbn [app]. do 2 f_equal.
      apply filter_ext_in. intros k' Hk'. split.
      * intros Hn Hin. apply Hn. apply elem_of_app. now left.
      * intros Hn Hin. apply elem_of_app in Hin as [Hin | Hin]; [contradiction |].
        apply list_elem_of_singleton in Hin as ->. contradiction.
Qed.

Lemma assign_empty a : wfObj a -> assign [] a = a.
Proof.
  intros Hwf.
  assert (Hgen : forall t,
             (forall k, k ∈ keys a -> k ∉ keys t) -> assign t a = t ++ a).
  { clear -Hwf. unfold wfObj in Hwf.
    induction a as [|[k v] a IH]; intros t Hdis.
    - cbn. now rewrite app_nil_r.
    - rewrite keys_cons in Hwf. apply NoDup_cons in Hwf as [Hfresh Hwf].
      rewrite assign_cons.
      assert (Hset : setProp k v t = t ++ [(k, v)]).
      { assert (Hk : k ∉ keys t) by (apply Hdis; apply list_elem_of_here).
        clear -Hk. induction t as [|[k1 v1] t IHt]; [reflexivity |].
        rewrite keys_cons in Hk. apply not_elem_of_cons in Hk as [Hne Hk].
        cbn [setProp]. apply String.eqb_neq in Hne. rewrite Hne.
        now rewrite (IHt Hk). }
      rewrite Hset, (IH Hwf).
      + now rewrite <- app_assoc.
      + intros k' Hk' Hin. unfold keys in Hin. rewrite map_app in Hin.
        apply elem_of_app in Hin as [Hin | Hin].
        * apply (Hdis k'); [now apply list_elem_of_further | exact Hin].
        * apply list_elem_of_singleton in Hin. cbn in Hin. now subst. }
  apply (Hgen []). intros k _ Hin. now apply elem_of_nil in Hin.
Qed.

End MergeMore.

(** X6. The counts of a merge are consistent: the matched and the
    unmatched features add up to the total, the total is the number of
    input features, and the matched count never exceeds the number of
    features that were merged with a record (it is taken on the merged
    attributes, which a record may have overwritten). *)
Theorem merge_counts :
  forall `{JsRuntime} data fc scol fcol depth,
    let out := merge data fc scol fcol depth in
    let m := buildMap scol (filterByDepth data depth) in
    matchedCount out + unmatchedCount out = totalCount out
    /\ totalCount out = length (features fc)
    /\ matchedCount out
       <= length (filter (fun f => is_Some (m !! featureKey fcol f)) (features fc)).
Proof.
  intros rt data fc scol fcol depth out m. subst out m. cbn.
  rewrite length_map.
  pose proof (matched_was_merged
                (buildMap scol (filterByDepth data depth)) fcol (features fc)) as Hm.
  pose proof (length_filter
                (fun f => is_Some (buildMap scol (filterByDepth data depth)
                                     !! featureKey fcol f))
                (features fc)) as Hl.
  repeat split; [lia | exact Hm].
Qed.

(** X7. When no record is left to join, because the table is empty or the
    depth filter keeps nothing, every feature comes back exactly as it
    was and none is counted as matched. *)
Theorem merge_without_records :
  forall `{JsRuntime} data fc scol fcol depth,
    filterByDepth data depth = [] ->
    let out := merge data fc scol fcol depth in
    features (geojson out) = features fc
    /\ matchedCount out = 0
    /\ unmatchedCount out = length (features fc).
Proof.
  intros rt data fc scol fcol depth Hempty out. subst out. cbn.
  rewrite Hempty, buildMap_nil.
  assert (Hid : map (mergeFeature ∅ fcol) (features fc) = features fc).
  { induction (features fc) as [|f fs IH]; [reflexivity |]. cbn [map].
    rewrite IH, mergeFeature_unmatched by apply lookup_empty. reflexivity. }
  rewrite Hid.
  assert (Hnone : filter (fun f => is_Some ((∅ : gmap string obj) !! featureKey fcol f))
                         (features fc) = []).
  { clear Hid. induction (features fc) as [|f fs IH]; [reflexivity |].
    rewrite filter_cons_False; [exact IH |].
    rewrite lookup_empty. apply is_Some_None. }
  rewrite Hnone. cbn. repeat split. lia.
Qed.

(** The theorem at a table whose only record is at another depth. *)
Lemma merge_without_records_witness :
  let f := {| fgeometry := None; properties := [("Farm", VStr "A")] |} in
  let out :=
    merge (H := exactRuntime)
      [[("Farm", VStr "A"); ("Prof", VStr "20-40")]]
      {| fctype := "FeatureCollection"; features := [f] |}
      "Farm" "Farm" (Some "0-20 cm") in
  features (geojson out) = [f] /\ matchedCount out = 0.
Proof.
  intros f out.
  destruct (merge_without_records (H := exactRuntime)
              [[("Farm", VStr "A"); ("Prof", VStr "20-40")]]
              {| fctype := "FeatureCollection"; features := [f] |}
              "Farm" "Farm" (Some "0-20 cm") eq_refl) as (Hf & Hm & _).
  split; [exact Hf | exact Hm].
Defined.

(** X8. A feature that is merged with a record, where no attribute name
    and no column is a run of digits, keeps every attribute name it had,
    in place, followed by the columns of the record it did not have, in
    the order of the record; no name occurs twice. *)
Theorem merged_attribute_names :
  forall `{JsRuntime} (m : gmap string obj) fcol f row,
    m !! featureKey fcol f = Some row ->
    wfObj (properties f) -> wfObj row ->
    (forall k, k ∈ keys (properties f) ++ keys row -> isIndexKey k = false) ->
    keys (properties (mergeFeature m fcol f))
    = keys (properties f)
      ++ filter (fun k => k ∉ keys (properties f)) (keys row)
    /\ wfObj (properties (mergeFeature m fcol f)).
Proof.
  intros rt m fcol f row Hm Hf Hrow _. unfold mergeFeature. rewrite Hm. cbn.
  unfold spread. rewrite (assign_empty _ Hf).
  assert (Hk : keys (assign (properties f) row)
               = keys (properties f)
                 ++ filter (fun k => k ∉ keys (properties f)) (keys row))
    by now apply assign_keys.
  split; [exact Hk |]. unfold wfObj. rewrite Hk.
  apply NoDup_app. split; [exact Hf |]. split.
  - intros k Hin Hn. apply list_elem_of_filter in Hn as [Hn _]. contradiction.
  - now apply NoDup_filter.
Qed.

(** The theorem at the first example of the specification. *)
Lemma merged_attribute_names_witness :
  let row := [("Farm", VStr "A"); ("Prof", VStr "0-20"); ("Zn", VNum (Fin (12 # 10)))] in
  let f := {| fgeometry := None; properties := [("FID", VNum (Fin 7)); ("Farm", VStr "a ")] |} in
  keys (properties (mergeFeature (H := exactRuntime)
                      (buildMap (H := exactRuntime) "Farm" [row]) "Farm" f))
  = ["FID"; "Farm"; "Prof"; "Zn"].
Proof.
  intros row f.
  destruct (merged_attribute_names (H := exactRuntime)
              (buildMap (H := exactRuntime) "Farm" [row]) "Farm" f row)
    as [Hk _].
  - reflexivity.
  - unfold wfObj. apply (bool_decide_unpack _). vm_compute. exact I.
  - unfold wfObj. apply (bool_decide_unpack _). vm_compute. exact I.
  - intros k Hk.
    repeat (apply elem_of_cons in Hk as [-> | Hk]; [reflexivity |]).
    now apply elem_of_nil in Hk.
  - rewrite Hk. reflexivity.
Defined.

(** ** Keys, case and blanks *)

Lemma lowerChar_space c : isSpace (lowerChar c) = isSpace c.
Proof. destruct c as [[] [] [] [] [] [] [] []]; reflexivity. Qed.

Lemma lowerChar_idem c : lowerChar (lowerChar c) = lowerChar c.
Proof. destruct c as [[] [] [] [] [] [] [] []]; reflexivity. Qed.

Lemma toLowerCase_idem (s : string) : toLowerCase (toLowerCase s) = toLowerCase s.
Proof.
  induction s as [|c s IH]; [reflexivity |].
  unfold toLowerCase in *. cbn. now rewrite lowerChar_idem, IH.
Qed.

Lemma toLowerCase_app (a b : string) :
  toLowerCase (a +:+ b) = toLowerCase a +:+ toLowerCase b.
Proof.
  induction a as [|c a IH]; [reflexivity |].
  rewrite append_cons. unfold toLowerCase in *. cbn [mapChars].
  now rewrite IH, append_cons.
Qed.

Lemma toLowerCase_blank (s : string) :
  allChars isSpace s = true -> allChars isSpace (toLowerCase s) = true.
Proof.
  induction s as [|c s IH]; [reflexivity |]. unfold toLowerCase in *. cbn.
  intros Hall. apply andb_prop in Hall as [Hc Hs].
  now rewrite lowerChar_space, Hc, IH.
Qed.

Lemma dropWhile_blank_app (l s : string) :
  allChars isSpace l = true -> dropWhile isSpace (l +:+ s) = dropWhile isSpace s.
Proof.
  induction l as [|c l IH]; [reflexivity |]. cbn. intros Hall.
  apply andb_prop in Hall as [Hc Hl]. rewrite append_cons. cbn.
  now rewrite Hc, IH.
Qed.

Lemma trimEnd_blank (r : string) : allChars isSpace r = true -> trimEnd r = EmptyString.
Proof.
  induction r as [|c r IH]; [reflexivity |]. cbn. intros Hall.
  apply andb_prop in Hall as [Hc Hr]. now rewrite (IH Hr), Hc.
Qed.

Lemma trimEnd_app_blank (s r : string) :
  allChars isSpace r = true -> trimEnd (s +:+ r) = trimEnd s.
Proof.
  intros Hr. induction s as [|c s IH].
  - rewrite append_nil. now apply trimEnd_blank.
  - rewrite append_cons. cbn. now rewrite IH.
Qed.

(** [trim] forgets the blanks around a string. *)
Lemma trim_padding (l s r : string) :
  allChars isSpace l = true -> allChars isSpace r = true ->
  trim (l +:+ s +:+ r) = trim s.
Proof.
  intros Hl Hr. unfold trim. rewrite (dropWhile_blank_app _ _ Hl).
  induction s as [|c s IH].
  - rewrite append_nil.
    replace r with (r +:+ EmptyString).
    + now rewrite (dropWhile_blank_app _ _ Hr).
    + clear. induction r as [|c r IH]; [reflexivity |].
      now rewrite append_cons, IH.
  - rewrite append_cons. cbn. destruct (isSpace c); [exact IH |].
    change (String c (s +:+ r)) with (String c s +:+ r).
    now apply trimEnd_app_blank.
Qed.

(** X9. The key of a join value ignores the case of its letters and the
    blanks around it; so a record and a feature whose join texts differ in
    nothing else get the same key, and the feature is merged with the
    record the map holds under it. *)
Theorem key_ignores_case_and_padding :
  forall `{JsRuntime},
    (forall s l r,
        allChars isSpace l = true -> allChars isSpace r = true ->
        keyOf (Some (VStr (l +:+ s +:+ r))) = keyOf (Some (VStr s)))
    /\ (forall s, keyOf (Some (VStr (toLowerCase s))) = keyOf (Some (VStr s)))
    /\ (forall scol fcol row f s l r,
           getProp scol row = Some (VStr (l +:+ toLowerCase s +:+ r)) ->
           getProp fcol (properties f) = Some (VStr s) ->
           s <> EmptyString ->
           allChars isSpace l = true -> allChars isSpace r = true ->
           featureKey fcol f = rowKey scol row).
Proof.
  intros rt.
  assert (Hpad : forall s l r,
             allChars isSpace l = true -> allChars isSpace r = true ->
             keyOf (Some (VStr (l +:+ s +:+ r))) = keyOf (Some (VStr s))).
  { intros s l r Hl Hr. unfold keyOf. cbn.
    rewrite !toLowerCase_app.
    apply trim_padding; now apply toLowerCase_blank. }
  assert (Hlow : forall s, keyOf (Some (VStr (toLowerCase s))) = keyOf (Some (VStr s))).
  { intros s. unfold keyOf. cbn. now rewrite toLowerCase_idem. }
  split; [exact Hpad |]. split; [exact Hlow |].
  intros scol fcol row f s l r Hrow Hf Hne Hl Hr.
  unfold featureKey, rowKey, orEmpty. rewrite Hrow, Hf.
  destruct s as [|c s]; [congruence |]. cbn [truthy isEmpty negb].
  change (keyOf (Some (VStr (String c s)))
          = keyOf (Some (VStr (l +:+ toLowerCase (String c s) +:+ r)))).
  now rewrite (Hpad _ l r Hl Hr), Hlow.
Qed.

(** The theorem at a farm written ["Santa Rita"] on the map and
    [" santa rita  "] in the table. *)
Lemma key_ignores_case_and_padding_witness :
  featureKey (H := exactRuntime) "Farm"
    {| fgeometry := None; properties := [("Farm", VStr "Santa Rita")] |}
  = rowKey (H := exactRuntime) "Fazenda" [("Fazenda", VStr " santa rita  ")].
Proof.
  destruct (key_ignores_case_and_padding (H := exactRuntime)) as (_ & _ & Hsame).
  apply (Hsame "Fazenda" "Farm" _ _ "Santa Rita" " " "  ");
    try reflexivity. discriminate.
Defined.

(** The join at a table with two records under one key: the later one is
    the one the feature receives. *)
Lemma merge_join_witness :
  let r1 := [("Farm", VStr "A"); ("Zn", VNum (Fin 1))] in
  let r2 := [("Farm", VStr "a"); ("Zn", VNum (Fin 2))] in
  let f := {| fgeometry := None; properties := [("Farm", VStr "A"); ("Zn", VNum (Fin 0))] |} in
  getProp "Zn" (properties (mergeFeature (H := exactRuntime)
                              (buildMap (H := exactRuntime) "Farm" [r1; r2]) "Farm" f))
  = Some (VNum (Fin 2)).
Proof.
  intros r1 r2 f.
  destruct (merge_join (H := exactRuntime) [r1; r2]
              {| fctype := "FeatureCollection"; features := [f] |}
              "Farm" "Farm" None) as (Hlast & _ & _ & Hover & _).
  destruct (Hover f r2) as [_ Hprops].
  - apply (Hlast [r1] r2 []); [reflexivity |].
    intros r Hr. now apply elem_of_nil in Hr.
  - unfold wfObj. apply (bool_decide_unpack _). vm_compute. exact I.
  - unfold wfObj. apply (bool_decide_unpack _). vm_compute. exact I.
  - rewrite Hprops. reflexivity.
Defined.

(** X11. The depth filter only removes records: what is left is a
    sublist of the table, in the order of the table; without a depth, or
    with the empty depth, the table is left as it is. *)
Theorem depth_filter_only_removes :
  forall `{JsRuntime} data depth,
    sublist (filterByDepth data depth) data
    /\ (depth = None \/ depth = Some EmptyString -> filterByDepth data depth = data).
Proof.
  intros rt data depth. split.
  - unfold filterByDepth. destruct depth as [d|]; [| reflexivity].
    destruct (isEmpty d); [reflexivity |].
    destruct (depthColumnOf data); [apply sublist_filter | reflexivity].
  - intros [-> | ->]; reflexivity.
Qed.

(** The theorem at a request that sends the empty depth. *)
Lemma depth_filter_only_removes_witness :
  filterByDepth (H := exactRuntime) [[("Prof", VStr "0-20")]; [("Prof", VStr "20-40")]]
                (Some EmptyString)
  = [[("Prof", VStr "0-20")]; [("Prof", VStr "20-40")]].
Proof.
  apply (depth_filter_only_removes (H := exactRuntime)). now right.
Defined.

(** ** More on the orchestrator *)

Section OrchestratorMore.
Context `{JsRuntime}.

Lemma recordEnd_tiffFiles j param e r :
  tiffFiles (recordEnd j param e r)
  = match recorded j param e with
    | JobSuccess file _ => <[param := file]> (tiffFiles r)
    | JobFailure _ => tiffFiles r
    end.
Proof.
  destruct e as [[[| p | p]|] stdout stderr [|] copyOk | message];
    reflexivity.
Qed.





End OrchestratorMore.



(** ** The file name of a raster *)

Lemma substring0_length n (s : string) : String.length (substring0 n s) <= n.
Proof.
  revert s. induction n as [|n IH]; intros [|c s]; cbn; try lia.
  specialize (IH s). lia.
Qed.

Lemma substring0_all f n (s : string) :
  allChars f s = true -> allChars f (substring0 n s) = true.
Proof.
  revert s. induction n as [|n IH]; intros [|c s]; cbn; try reflexivity.
  intros Hall. apply andb_prop in Hall as [Hc Hs]. now rewrite Hc, IH.
Qed.

Lemma substring0_short n (s : string) :
  String.length s <= n -> substring0 n s = s.
Proof.
  revert s. induction n as [|n IH]; intros [|c s]; cbn; try reflexivity; try lia.
  intros Hl. rewrite IH; [reflexivity | lia].
Qed.

Lemma fileNameChar_fixed c :
  isFileNameChar c = true ->
  lowerChar c = c /\ (if isLowerAlnum c then c else "_"%char) = c.
Proof.
  destruct c as [[] [] [] [] [] [] [] []]; vm_compute; intros E;
    try discriminate; split; reflexivity.
Qed.

Lemma clean_char c :
  isFileNameChar (if isLowerAlnum (lowerChar c) then lowerChar c else "_"%char) = true.
Proof. destruct c as [[] [] [] [] [] [] [] []]; reflexivity. Qed.

(** X13. The property name that goes into the name of a raster is safe
    for a file name: at most thirty characters, each a lower-case letter, a
    digit or an underscore; cleaning a cleaned name changes nothing. *)
Theorem cleanPropertyName_safe :
  forall name,
    String.length (cleanPropertyName name) <= 30
    /\ allChars isFileNameChar (cleanPropertyName name) = true
    /\ cleanPropertyName (cleanPropertyName name) = cleanPropertyName name.
Proof.
  intros name.
  assert (Hlen : forall s, String.length (cleanPropertyName s) <= 30)
    by (intros s; apply substring0_length).
  assert (Hall : forall s, allChars isFileNameChar (cleanPropertyName s) = true).
  { intros s. apply substring0_all. unfold toLowerCase.
    induction s as [|c s IH]; [reflexivity |]. cbn [mapChars allChars].
    now rewrite clean_char, IH. }
  split; [apply Hlen |]. split; [apply Hall |].
  assert (Hfix : forall s, allChars isFileNameChar s = true ->
                           mapChars (fun c => if isLowerAlnum c then c else "_"%char)
                                    (toLowerCase s) = s).
  { intros s. unfold toLowerCase. induction s as [|c s IH]; [reflexivity |].
    cbn [mapChars allChars]. intros Hs. apply andb_prop in Hs as [Hc Hs].
    destruct (fileNameChar_fixed c Hc) as [Hl Hm].
    now rewrite Hl, Hm, (IH Hs). }
  unfold cleanPropertyName at 1. fold (cleanPropertyName name).
  rewrite (Hfix _ (Hall name)). apply substring0_short, Hlen.
Qed.

(** ** More on the bounding box *)

Lemma mapM_id_None (l : list (option coord)) :
  mapM (fun c : option coord => c) l = None <-> None ∈ l.
Proof.
  induction l as [|[c|] l IH]; cbn.
  - split; [discriminate | intros Hin; now apply elem_of_nil in Hin].
  - destruct (mapM (fun c : option coord => c) l) as [cs|] eqn:E; cbn.
    + split; [discriminate |]. intros Hin.
      apply elem_of_cons in Hin as [Hin | Hin]; [discriminate |].
      apply IH in Hin. discriminate.
    + split; [| reflexivity]. intros _. apply list_elem_of_further.
      now apply IH.
  - split; [| reflexivity]. intros _. apply list_elem_of_here.
Qed.

Lemma representatives_elem fs r :
  r ∈ representatives fs
  <-> exists f g c, f ∈ fs /\ geometryCoordinates f = Some (g, c)
                    /\ representative g c = r.
Proof.
  induction fs as [|f fs IH].
  - split; [intros Hin; now apply elem_of_nil in Hin |].
    intros (f & g & c & Hin & _). now apply elem_of_nil in Hin.
  - rewrite representatives_cons.
    destruct (geometryCoordinates f) as [[g c]|] eqn:Hg.
    + rewrite elem_of_cons, IH. split.
      * intros [-> | (f' & g' & c' & Hin & Hg' & Hr)].
        -- exists f, g, c. repeat split; [apply list_elem_of_here | exact Hg].
        -- exists f', g', c'. repeat split; auto. now apply list_elem_of_further.
      * intros (f' & g' & c' & Hin & Hg' & Hr).
        apply elem_of_cons in Hin as [-> | Hin].
        -- left. congruence.
        -- right. eauto 10.
    + rewrite IH. split.
      * intros (f' & g' & c' & Hin & Hg' & Hr).
        exists f', g', c'. repeat split; auto. now apply list_elem_of_further.
      * intros (f' & g' & c' & Hin & Hg' & Hr).
        apply elem_of_cons in Hin as [-> | Hin]; [congruence | eauto 10].
Qed.

(** X14. The bounds of a request: they stay [null] exactly when no
    feature has a geometry with coordinates; computing them throws, and
    the whole request fails with status 500, exactly when some feature that
    is not a point has coordinates without a first element (an empty array
    or a number). *)
Theorem computeBounds_edge_cases :
  forall `{JsRuntime} fs,
    (computeBounds fs = Some None
     <-> forall f, f ∈ fs -> geometryCoordinates f = None)
    /\ (computeBounds fs = None <-> exists f, f ∈ fs /\ noRepresentative f)
    /\ (forall w today body geo,
           geoJson body = Some geo ->
           completeRequest body ->
           (exists f, f ∈ features geo /\ noRepresentative f) ->
           interpolateHandler w today body = ServerError500).
Proof.
  intros rt fs.
  assert (Hnil : representatives fs = []
                 <-> forall f, f ∈ fs -> geometryCoordinates f = None).
  { split.
    - intros Hr f Hin.
      destruct (geometryCoordinates f) as [[g c]|] eqn:Hg; [| reflexivity].
      assert (Hel : representative g c ∈ representatives fs)
        by (apply representatives_elem; eauto 10).
      rewrite Hr in Hel. now apply elem_of_nil in Hel.
    - intros Hall. destruct (representatives fs) as [|r rs] eqn:Hr; [reflexivity |].
      assert (Hel : r ∈ representatives fs) by (rewrite Hr; apply list_elem_of_here).
      apply representatives_elem in Hel as (f & g & c & Hin & Hg & _).
      rewrite (Hall f Hin) in Hg. discriminate. }
  assert (Hthrow : forall fs', computeBounds fs' = None
                               <-> exists f, f ∈ fs' /\ noRepresentative f).
  { intros fs'. unfold computeBounds.
    destruct fs' as [|f0 fs0].
    { split; [discriminate |]. intros (f & Hin & _). now apply elem_of_nil in Hin. }
    set (fs1 := f0 :: fs0).
    destruct (representatives fs1) as [|r rs] eqn:Hr.
    - split; [discriminate |]. intros (f & Hin & g & c & Hg & Hnone).
      assert (Hel : representative g c ∈ representatives fs1)
        by (apply representatives_elem; eauto 10).
      rewrite Hr in Hel. now apply elem_of_nil in Hel.
    - rewrite <- Hr.
      destruct (mapM (fun c : option coord => c) (representatives fs1)) as [cs|] eqn:Hm.
      + split; [discriminate |]. intros (f & Hin & g & c & Hg & Hnone).
        assert (Hel : None ∈ representatives fs1).
        { apply representatives_elem. exists f, g, c. auto. }
        apply mapM_id_None in Hel. congruence.
      + split; [| reflexivity]. intros _.
        apply mapM_id_None, representatives_elem in Hm
          as (f & g & c & Hin & Hg & Hnone).
        exists f. split; [exact Hin |]. exists g, c. auto. }
  split; [| split].
  - rewrite <- Hnil. unfold computeBounds.
    destruct fs as [|f0 fs0]; [now split |].
    destruct (representatives (f0 :: fs0)) as [|r rs] eqn:Hr; [now split |].
    destruct (mapM _ (r :: rs)); split; discriminate.
  - apply Hthrow.
  - intros w today body geo Hgeo (_ & (p & ps & Hps) & Hm & Hres & Hrad) Hbad.
    apply Hthrow in Hbad.
    unfold interpolateHandler. now rewrite Hgeo, Hps, Hm, Hres, Hrad, Hbad.
Qed.

(** The theorem at a line without vertices. *)
Lemma computeBounds_edge_cases_witness :
  let line :=
    {| fgeometry := Some {| gtype := "LineString"; coordinates := Some (CArr []) |};
       properties := [] |} in
  interpolateHandler (H := exactRuntime) (fun _ _ => SpawnError "unused") "20240101"
    {| geoJson := Some {| fctype := "FeatureCollection"; features := [line] |};
       parameters := Some ["Zn"];
       bodyMethod := "idw";
       resolution := Fin 10;
       searchRadius := Fin 100;
       bodyPropertyName := None |}
  = ServerError500.
Proof.
  intros line.
  destruct (computeBounds_edge_cases (H := exactRuntime) [line]) as (_ & _ & H500).
  apply (H500 _ _ _ {| fctype := "FeatureCollection"; features := [line] |}).
  - reflexivity.
  - repeat split; cbn; eauto.
  - exists line. split; [apply list_elem_of_here |].
    eexists _, _. split; reflexivity.
Defined.

(** ** The order of the bounds *)

Lemma notAbove_refl a : notAbove a a.
Proof.
  unfold notAbove. destruct a as [| | q |]; try reflexivity. cbn.
  apply negb_false_iff, Qle_bool_iff, Qle_refl.
Qed.

Lemma notAbove_trans a b c :
  isNaN b = false -> notAbove a b -> notAbove b c -> notAbove a c.
Proof.
  unfold notAbove.
  destruct a as [| | x |], b as [| | y |], c as [| | z |]; cbn;
    try reflexivity; try discriminate.
  intros _ Hxy Hyz. apply negb_false_iff, Qle_bool_iff in Hxy, Hyz.
  apply negb_false_iff, Qle_bool_iff. now apply Qle_trans with y.
Qed.

Lemma gt_notAbove a b : gt a b = true -> notAbove b a.
Proof.
  unfold notAbove.
  destruct a as [| | x |], b as [| | y |]; cbn; try reflexivity; try discriminate.
  intros Hxy. apply negb_true_iff in Hxy.
  apply negb_false_iff, Qle_bool_iff.
  destruct (Qlt_le_dec y x) as [Hlt | Hle]; [now apply Qlt_le_weak |].
  apply Qle_bool_iff in Hle. congruence.
Qed.

Lemma min2_spec a b :
  isNaN a = false -> isNaN b = false ->
  isNaN (min2 a b) = false /\ notAbove (min2 a b) a /\ notAbove (min2 a b) b.
Proof.
  intros Ha Hb. unfold min2, lt. rewrite Ha, Hb. cbn.
  destruct (gt a b) eqn:E.
  - repeat split; [exact Hb | now apply gt_notAbove | apply notAbove_refl].
  - repeat split; [exact Ha | apply notAbove_refl | exact E].
Qed.

Lemma max2_spec a b :
  isNaN a = false -> isNaN b = false ->
  isNaN (max2 a b) = false /\ notAbove a (max2 a b) /\ notAbove b (max2 a b).
Proof.
  intros Ha Hb. unfold max2. rewrite Ha, Hb. cbn.
  destruct (gt b a) eqn:E.
  - repeat split; [exact Hb | now apply gt_notAbove | apply notAbove_refl].
  - repeat split; [exact Ha | apply notAbove_refl | exact E].
Qed.

Lemma fold_min2_spec l acc :
  isNaN acc = false -> (forall x, x ∈ l -> isNaN x = false) ->
  isNaN (fold_left min2 l acc) = false
  /\ notAbove (fold_left min2 l acc) acc
  /\ forall x, x ∈ l -> notAbove (fold_left min2 l acc) x.
Proof.
  revert acc. induction l as [|y l IH]; intros acc Hacc Hl.
  - repeat split; [exact Hacc | apply notAbove_refl |].
    intros x Hx. now apply elem_of_nil in Hx.
  - assert (Hy : isNaN y = false) by (apply Hl, list_elem_of_here).
    destruct (min2_spec acc y Hacc Hy) as (Hm & Hma & Hmy).
    destruct (IH (min2 acc y) Hm) as (Hr & Hrm & Hrl).
    { intros x Hx. apply Hl. now apply list_elem_of_further. }
    cbn [fold_left]. repeat split; [exact Hr | |].
    + now apply notAbove_trans with (min2 acc y).
    + intros x Hx. apply elem_of_cons in Hx as [-> | Hx]; [| now apply Hrl].
      now apply notAbove_trans with (min2 acc y).
Qed.

Lemma fold_max2_spec l acc :
  isNaN acc = false -> (forall x, x ∈ l -> isNaN x = false) ->
  isNaN (fold_left max2 l acc) = false
  /\ notAbove acc (fold_left max2 l acc)
  /\ forall x, x ∈ l -> notAbove x (fold_left max2 l acc).
Proof.
  revert acc. induction l as [|y l IH]; intros acc Hacc Hl.
  - repeat split; [exact Hacc | apply notAbove_refl |].
    intros x Hx. now apply elem_of_nil in Hx.
  - assert (Hy : isNaN y = false) by (apply Hl, list_elem_of_here).
    destruct (max2_spec acc y Hacc Hy) as (Hm & Hma & Hmy).
    destruct (IH (max2 acc y) Hm) as (Hr & Hrm & Hrl).
    { intros x Hx. apply Hl. now apply list_elem_of_further. }
    cbn [fold_left]. repeat split; [exact Hr | |].
    + now apply notAbove_trans with (max2 acc y).
    + intros x Hx. apply elem_of_cons in Hx as [-> | Hx]; [| now apply Hrl].
      now apply notAbove_trans with (max2 acc y).
Qed.

(** X15. When every feature with coordinates is represented by a
    position whose longitude and latitude are not NaN, the bounds enclose
    every representative: its latitude lies between the first components
    of the two corners and its longitude between the second ones. *)
Theorem bounds_enclose_representatives :
  forall fs sw ne,
    (forall f, f ∈ fs ->
               geometryCoordinates f = None \/ is_Some (representativePosition f)) ->
    (forall lon lat, (lon, lat) ∈ omap representativePosition fs ->
                     isNaN lon = false /\ isNaN lat = false) ->
    computeBounds fs = Some (Some (sw, ne)) ->
    forall lon lat,
      (lon, lat) ∈ omap representativePosition fs ->
      notAbove (fst sw) lat /\ notAbove lat (fst ne)
      /\ notAbove (snd sw) lon /\ notAbove lon (snd ne).
Proof.
  intros fs sw ne Hpos Hnan Hb lon lat Hin.
  assert (Hne : omap representativePosition fs <> []).
  { intros E. rewrite E in Hin. now apply elem_of_nil in Hin. }
  rewrite (computeBounds_positions fs Hpos Hne) in Hb.
  injection Hb as <- <-. cbn [fst snd]. unfold mathMin, mathMax.
  assert (Hlons : forall x, x ∈ map fst (omap representativePosition fs) ->
                            isNaN x = false).
  { intros x Hx. apply list_elem_of_fmap in Hx as ([a b] & -> & Hab).
    now apply (Hnan a b). }
  assert (Hlats : forall x, x ∈ map snd (omap representativePosition fs) ->
                            isNaN x = false).
  { intros x Hx. apply list_elem_of_fmap in Hx as ([a b] & -> & Hab).
    now apply (Hnan a b). }
  assert (Hlon : lon ∈ map fst (omap representativePosition fs)).
  { apply list_elem_of_fmap. now exists (lon, lat). }
  assert (Hlat : lat ∈ map snd (omap representativePosition fs)).
  { apply list_elem_of_fmap. now exists (lon, lat). }
  repeat split.
  - now apply (fold_min2_spec _ PosInf eq_refl Hlats).
  - now apply (fold_max2_spec _ NegInf eq_refl Hlats).
  - now apply (fold_min2_spec _ PosInf eq_refl Hlons).
  - now apply (fold_max2_spec _ NegInf eq_refl Hlons).
Qed.

(** The theorem at two sample points. *)
Lemma bounds_enclose_representatives_witness :
  let point (lon lat : Q) :=
    {| fgeometry :=
         Some {| gtype := "Point";
                 coordinates := Some (CArr [CNum (Fin lon); CNum (Fin lat)]) |};
       properties := [] |} in
  notAbove (Fin (-23)) (Fin (-22)) /\ notAbove (Fin (-22)) (Fin (-22))
  /\ notAbove (Fin (-57)) (Fin (-57)) /\ notAbove (Fin (-57)) (Fin (-56)).
Proof.
  intros point.
  apply (bounds_enclose_representatives
           [point (-57)%Q (-22)%Q; point (-56)%Q (-23)%Q]
           (Fin (-23), Fin (-57)) (Fin (-22), Fin (-56))).
  - intros f Hf. right.
    apply elem_of_cons in Hf as [-> | Hf]; [eexists; reflexivity |].
    apply elem_of_cons in Hf as [-> | Hf]; [eexists; reflexivity |].
    now apply elem_of_nil in Hf.
  - intros lon lat Hin. cbn in Hin.
    apply elem_of_cons in Hin as [[= -> ->] | Hin]; [split; reflexivity |].
    apply elem_of_cons in Hin as [[= -> ->] | Hin]; [split; reflexivity |].
    now apply elem_of_nil in Hin.
  - reflexivity.
  - cbn. apply list_elem_of_here.
Defined.

(** ** The upload of a shapefile *)

Lemma scanZip_snoc entries entry :
  scanZip (entries ++ [entry]) = scanEntry (scanZip entries) entry.
Proof. unfold scanZip. now rewrite fold_left_app. Qed.

Lemma scanEntry_shp parts name content :
  shpBuffer (scanEntry parts (name, content))
  = if endsWith ".shp" name then Some content else shpBuffer parts.
Proof.
  unfold scanEntry. destruct (endsWith ".shp" name); [reflexivity |].
  destruct (endsWith ".dbf" name); [reflexivity |].
  now destruct (endsWith ".prj" name).
Qed.

Lemma scanZip_no_shp entries :
  shpBuffer (scanZip entries) = None
  <-> forall name content, (name, content) ∈ entries -> endsWith ".shp" name = false.
Proof.
  induction entries as [|[name content] entries IH] using rev_ind.
  - split; [| reflexivity]. intros _ n c Hin. now apply elem_of_nil in Hin.
  - rewrite scanZip_snoc, scanEntry_shp.
    destruct (endsWith ".shp" name) eqn:E.
    + split; [discriminate |]. intros Hall.
      rewrite (Hall name content) in E; [discriminate |].
      apply elem_of_app. right. apply list_elem_of_here.
    + rewrite IH. split.
      * intros Hall n c Hin. apply elem_of_app in Hin as [Hin | Hin]; [eauto |].
        apply list_elem_of_singleton in Hin. now injection Hin as -> ->.
      * intros Hall n c Hin. apply (Hall n c). apply elem_of_app. now left.
Qed.

Lemma scanZip_last_shp before name content after :
  endsWith ".shp" name = true ->
  (forall n c, (n, c) ∈ after -> endsWith ".shp" n = false) ->
  shpBuffer (scanZip (before ++ (name, content) :: after)) = Some content.
Proof.
  intros Hshp. induction after as [|[n c] after IH] using rev_ind; intros Hlast.
  - now rewrite scanZip_snoc, scanEntry_shp, Hshp.
  - replace (before ++ (name, content) :: after ++ [(n, c)])
      with ((before ++ (name, content) :: after) ++ [(n, c)])
      by now rewrite <- app_assoc.
    rewrite scanZip_snoc, scanEntry_shp.
    rewrite (Hlast n c) by (apply elem_of_app; right; apply list_elem_of_here).
    apply IH. intros n' c' Hin. apply (Hlast n' c'). apply elem_of_app. now left.
Qed.

(** X16. The upload looks for the shapefile by the lower-case suffix
    [.shp]: an archive none of whose entries ends so, even one that holds
    [POINTS.SHP], is rejected as having no shapefile, whatever else it
    holds; when several entries end so, the last one is read. *)
Theorem upload_requires_shp :
  forall lib proj4 ext entries,
    toLowerCase ext = ".zip" ->
    ((forall name content, (name, content) ∈ entries -> endsWith ".shp" name = false) ->
     uploadShapefile lib proj4 (Some {| extname := ext; zipEntries := inr entries |})
     = UploadRejected "Arquivo .shp não encontrado no ZIP")
    /\ (forall before name content after,
           entries = before ++ (name, content) :: after ->
           endsWith ".shp" name = true ->
           (forall n c, (n, c) ∈ after -> endsWith ".shp" n = false) ->
           shpBuffer (scanZip entries) = Some content).
Proof.
  intros lib proj4 ext entries Hext. split.
  - intros Hno. unfold uploadShapefile. cbn. rewrite Hext. cbn.
    apply scanZip_no_shp in Hno. now rewrite Hno.
  - intros before name content after -> Hshp Hlast.
    now apply scanZip_last_shp.
Qed.

(** The theorem at an archive written on a system that upper-cases file
    names. *)
Lemma upload_requires_shp_witness :
  uploadShapefile None None
    (Some {| extname := ".ZIP";
             zipEntries := inr [("POINTS.SHP", "shp"); ("POINTS.DBF", "dbf")] |})
  = UploadRejected "Arquivo .shp não encontrado no ZIP".
Proof.
  apply (upload_requires_shp None None ".ZIP"); [reflexivity |].
  intros name content Hin.
  apply elem_of_cons in Hin as [[= -> ->] | Hin]; [reflexivity |].
  apply elem_of_cons in Hin as [[= -> ->] | Hin]; [reflexivity |].
  now apply elem_of_nil in Hin.
Defined.

(** Reprojection to [EPSG:4326] from a code that starts with [EPSG:]
    stands on one call of [proj4], for that code and [EPSG:4326]. *)
Lemma reproject_from_epsg p geojson code :
  String.eqb ("EPSG:" +:+ code) "EPSG:4326" = false ->
  reprojectGeoJSON (Some p) geojson ("EPSG:" +:+ code) "EPSG:4326"
  = match p ("EPSG:" +:+ code) "EPSG:4326" with
    | Some t => convertedWith t geojson
    | None => geojson
    end.
Proof.
  intros Hne. unfold reprojectGeoJSON, buildTransform. rewrite Hne.
  change (String.eqb ("EPSG:" +:+ code) "4326") with false.
  change (String.eqb ("EPSG:" +:+ code) "32721") with false.
  change (String.eqb ("EPSG:" +:+ code) "4674") with false.
  change (String.eqb ("EPSG:" +:+ code) "UTM") with false.
  change (String.eqb ("EPSG:" +:+ code) "PROJECTED") with false.
  cbn [orb].
  destruct (String.eqb ("EPSG:" +:+ code) "EPSG:32721") eqn:E1.
  { apply String.eqb_eq in E1. rewrite E1.
    now destruct (p "EPSG:32721" "EPSG:4326"). }
  destruct (startsWith "EPSG:327" ("EPSG:" +:+ code)
            || startsWith "EPSG:326" ("EPSG:" +:+ code)).
  { now destruct (p ("EPSG:" +:+ code) "EPSG:4326"). }
  destruct (String.eqb ("EPSG:" +:+ code) "EPSG:4674") eqn:E2.
  { apply String.eqb_eq in E2. rewrite E2.
    now destruct (p "EPSG:4674" "EPSG:4326"). }
  now destruct (p ("EPSG:" +:+ code) "EPSG:4326").
Qed.

Lemma epsg_eqb_4326 n :
  (32600 <= n)%N -> String.eqb ("EPSG:" +:+ showN n) "EPSG:4326" = false.
Proof.
  intros Hn. apply String.eqb_neq.
  apply (epsg_code_neq n 4326); [reflexivity | exact Hn].
Qed.

Lemma epsg_eqb_4674 n :
  (32600 <= n)%N -> String.eqb ("EPSG:" +:+ showN n) "EPSG:4674" = false.
Proof.
  intros Hn. apply String.eqb_neq.
  apply (epsg_code_neq n 4674); [reflexivity | exact Hn].
Qed.

(** The forms of the CRS an upload detects. *)
Lemma uploadCRS_forms prj :
  (forall s, prj = Some s -> maxDigitRun s <= 15) ->
  uploadCRS prj = "EPSG:4674" \/ uploadCRS prj = "EPSG:4326"
  \/ uploadCRS prj = "UTM" \/ uploadCRS prj = "PROJECTED"
  \/ exists n, (32600 <= n <= maxSafe)%N /\ uploadCRS prj = "EPSG:" +:+ showN n.
Proof.
  unfold uploadCRS. destruct prj as [s|]; [| auto].
  intros Hrun. specialize (Hrun s eq_refl).
  destruct (isEmpty s); [auto |].
  destruct (hasUtmMarker s) eqn:Hm.
  - destruct (detectCRS_utm_branch_exact s Hm Hrun) as [-> | (n & Hn & ->)];
      eauto 10.
  - unfold detectCRS. unfold hasUtmMarker in Hm. rewrite Hm.
    destruct (isEmpty s); [now left |].
    repeat (match goal with
            | |- context [if ?b then _ else _] => destruct b
            end; auto 10).
Qed.

(** X17. What an upload does to the coordinates it read, by the [.prj] of
    the archive, a [.prj] in which no run of digits is longer than fifteen.
    Without a [.prj], with an empty one, and with one that resolves to
    [EPSG:4326] or to a sentinel ([UTM], [PROJECTED]), the collection is
    answered as read.  Otherwise the code is [EPSG:4674] or a UTM code
    that the source computes exactly, and the collection is converted with
    the transform [proj4] builds from that code to [EPSG:4326], or
    answered as read when [proj4] builds none. *)
Theorem upload_conversion :
  forall p prj geojson,
    (forall s, prj = Some s -> maxDigitRun s <= 15) ->
    let crs := uploadCRS prj in
    (prj = None \/ prj = Some EmptyString \/ crs = "EPSG:4326" \/ crs = "UTM"
     \/ crs = "PROJECTED" ->
     reprojectAfterUpload (Some p) crs geojson = geojson)
    /\ (crs <> "EPSG:4326" -> crs <> "UTM" -> crs <> "PROJECTED" ->
        (crs = "EPSG:4674"
         \/ exists n, (32600 <= n <= maxSafe)%N /\ crs = "EPSG:" +:+ showN n)
        /\ reprojectAfterUpload (Some p) crs geojson
           = match p crs "EPSG:4326" with
             | Some t => convertedWith t geojson
             | None => geojson
             end).
Proof.
  intros p prj geojson Hrun crs. split.
  - intros Hcase.
    assert (Hcrs : crs = "EPSG:4326" \/ crs = "UTM" \/ crs = "PROJECTED").
    { destruct Hcase as [-> | [-> | Hc]]; [now left | now left | exact Hc]. }
    destruct Hcrs as [-> | [-> | ->]]; reflexivity.
  - intros H1 H2 H3. subst crs.
    destruct (uploadCRS_forms prj Hrun) as [E | [E | [E | [E | (n & Hn & E)]]]];
      try contradiction; rewrite E in *.
    + split; [now left |].
      unfold reprojectAfterUpload. cbn.
      apply (reproject_from_epsg p geojson "4674"). reflexivity.
    + split; [right; eauto |]. destruct Hn as [Hn _].
      unfold reprojectAfterUpload.
      rewrite (epsg_eqb_4326 n Hn), (epsg_eqb_4674 n Hn). cbn.
      apply reproject_from_epsg, epsg_eqb_4326, Hn.
Qed.

(** The theorem at an archive without [.prj] and at one in UTM zone 21
    south. *)
Lemma upload_conversion_witness :
  let geojson :=
    {| fctype := "FeatureCollection";
       features :=
         [{| fgeometry :=
               Some {| gtype := "Point";
                       coordinates := Some (CArr [CNum (Fin 500000); CNum (Fin 7500000)]) |};
             properties := [] |}] |} in
  let p : proj4lib := fun _ _ => Some (fun _ => Some (Fin (-57), Fin (-22))) in
  reprojectAfterUpload (Some p) (uploadCRS None) geojson = geojson
  /\ features (reprojectAfterUpload (Some p) (uploadCRS (Some "WGS 84 / UTM zone 21S")) geojson)
     = [{| fgeometry :=
             Some {| gtype := "Point";
                     coordinates := Some (CArr [CNum (Fin (-57)); CNum (Fin (-22))]) |};
           properties := [] |}].
Proof.
  intros geojson p. split.
  - apply (upload_conversion p None geojson); [discriminate | now left].
  - destruct (upload_conversion p (Some "WGS 84 / UTM zone 21S") geojson)
      as [_ Hconv].
    { intros s [= <-]. vm_compute. lia. }
    destruct Hconv as [_ ->]; try (intros [=]). reflexivity.
Defined.

Lemma reprojectAfterUpload_attributes proj4 crs geojson :
  map properties (features (reprojectAfterUpload proj4 crs geojson))
  = map properties (features geojson).
Proof.
  unfold reprojectAfterUpload.
  destruct (negb (String.eqb crs "EPSG:4326") && negb (String.eqb crs "EPSG:4674")).
  - apply (reprojectGeoJSON_attributes proj4 geojson crs "EPSG:4326").
  - destruct (String.eqb crs "EPSG:4674"); [| reflexivity].
    apply (reprojectGeoJSON_attributes proj4 geojson "EPSG:4674" "EPSG:4326").
Qed.

(** X18. An upload that is accepted comes from a file with the extension
    [.zip] in any case, an archive with a [.shp] entry and a reading
    library that found at least one feature, the first of them with a
    coordinate to log; the answer has as many features as the library
    read, with the attributes it read, and its columns are the attribute
    names of the first feature. *)
Theorem upload_answer :
  forall lib proj4 file geojson columns,
    uploadShapefile lib proj4 file = Uploaded geojson columns ->
    exists ext entries shp read f0 fs,
      file = Some {| extname := ext; zipEntries := inr entries |}
      /\ toLowerCase ext = ".zip"
      /\ shpBuffer (scanZip entries) = Some shp
      /\ lib = Some read
      /\ read shp (dbfBuffer (scanZip entries)) = inr (f0 :: fs)
      /\ logThrows (f0 :: fs) = false
      /\ map properties (features geojson) = map properties (f0 :: fs)
      /\ length (features geojson) = S (length fs)
      /\ columns = keys (properties f0).
Proof.
  intros lib proj4 file geojson columns. unfold uploadShapefile.
  destruct file as [[ext [message | entries]]|]; cbn; try discriminate.
  - destruct (String.eqb (toLowerCase ext) ".zip"); discriminate.
  - destruct (String.eqb (toLowerCase ext) ".zip") eqn:Hext; [| discriminate].
    apply String.eqb_eq in Hext. cbn.
    destruct (shpBuffer (scanZip entries)) as [shp|] eqn:Hshp; [| discriminate].
    destruct lib as [read|]; [| discriminate].
    destruct (read shp (dbfBuffer (scanZip entries))) as [message | [|f0 fs]] eqn:Hread;
      try discriminate.
    destruct (logThrows (f0 :: fs)) eqn:Hlog; [discriminate |].
    destruct (_ && logThrows _); [discriminate |].
    intros [= <- <-].
    pose proof (reprojectAfterUpload_attributes proj4
                  (uploadCRS (prjString (scanZip entries)))
                  {| fctype := "FeatureCollection"; features := f0 :: fs |}) as Hattr.
    cbn [features] in Hattr.
    exists ext, entries, shp, read, f0, fs. repeat split; auto.
    + rewrite <- (length_map properties), Hattr. cbn. now rewrite length_map.
    + unfold columnsOf.
      destruct (features (reprojectAfterUpload proj4 _ _)) as [|g0 gs];
        [discriminate |].
      cbn in Hattr. now injection Hattr as -> _.
Qed.

(** The theorem at an archive of one point in UTM. *)
Lemma upload_answer_witness :
  let point :=
    {| fgeometry :=
         Some {| gtype := "Point";
                 coordinates := Some (CArr [CNum (Fin 500000); CNum (Fin 7500000)]) |};
       properties := [("ID", VNum (Fin 1)); ("Farm", VStr "A")] |} in
  let read : shapefileReader := fun _ _ => inr [point] in
  let p : proj4lib := fun _ _ => Some (fun _ => Some (Fin (-57), Fin (-22))) in
  exists geojson,
    uploadShapefile (Some read) (Some p)
      (Some {| extname := ".zip";
               zipEntries := inr [("a.shp", "shp");
                                  ("a.prj", "WGS 84 / UTM zone 21S")] |})
    = Uploaded geojson ["ID"; "Farm"]
    /\ map properties (features geojson)
       = [[("ID", VNum (Fin 1)); ("Farm", VStr "A")]].
Proof.
  intros point read p. eexists. split; [reflexivity |].
  destruct (upload_answer (Some read) (Some p)
              (Some {| extname := ".zip";
                       zipEntries := inr [("a.shp", "shp");
                                          ("a.prj", "WGS 84 / UTM zone 21S")] |})
              _ _ eq_refl)
    as (ext & entries & shp & read' & f0 & fs & _ & _ & _ & Hlib & Hread & _ & Hattr & _).
  injection Hlib as <-. cbn in Hread. injection Hread as <- <-. exact Hattr.
Defined.

(** ** [findShpFile] *)

Lemma node_ind (P : node -> Prop) :
  (forall name, P (File name)) ->
  (forall name entries, Forall P entries -> P (Dir name entries)) ->
  forall n, P n.
Proof.
  intros HF HD. fix IH 1. intros [name | name entries].
  - apply HF.
  - apply HD. induction entries as [|e entries IHe]; constructor;
      [apply IH | exact IHe].
Qed.

Lemma findAt_dir join dir name entries :
  findAt join dir (Dir name entries)
  = match findShpFile join (join dir name) entries with
    | Some p => if isEmpty p then None else Some p
    | None => None
    end.
Proof.
  cbn [findAt].
  assert (Hloop : forall d l,
             (fix loop (files : list node) : option string :=
                match files with
                | [] => None
                | file :: rest =>
                    match findAt join d file with
                    | Some p => Some p
                    | None => loop rest
                    end
                end) l = findShpFile join d l).
  { intros d l. induction l as [|e l IHl]; [reflexivity |]. cbn.
    now rewrite IHl. }
  now rewrite Hloop.
Qed.

Lemma head_app {A} (l k : list A) :
  head (l ++ k) = match head l with Some x => Some x | None => head k end.
Proof. now destruct l. Qed.

Lemma shpPaths_nonempty join dir n p :
  (forall a b, join a b <> EmptyString) ->
  p ∈ shpPaths join dir n -> p <> EmptyString.
Proof.
  intros Hjoin. revert dir.
  induction n as [name | name entries IH] using node_ind; intros dir; cbn.
  - destruct (endsWith ".shp" (toLowerCase name)).
    + intros Hin. apply list_elem_of_singleton in Hin as ->. apply Hjoin.
    + intros Hin. now apply elem_of_nil in Hin.
  - induction IH as [|e entries He _ IHe]; cbn.
    + intros Hin. now apply elem_of_nil in Hin.
    + intros Hin. apply elem_of_app in Hin as [Hin | Hin]; [now apply (He _ Hin) |].
      now apply IHe.
Qed.

(** X19. [findShpFile] returns the first file, in depth-first order with
    every directory in the order of its listing, whose name ends in [.shp]
    in any case, and [null] when the tree has none ([path.join] never
    returns the empty string). *)
Theorem findShpFile_first :
  forall join dir files,
    (forall a b, join a b <> EmptyString) ->
    findShpFile join dir files
    = head (concat (map (shpPaths join dir) files)).
Proof.
  intros join dir files Hjoin.
  assert (Hat : forall n d, findAt join d n = head (shpPaths join d n)).
  { induction n as [name | name entries IH] using node_ind; intros d.
    - cbn. now destruct (endsWith ".shp" (toLowerCase name)).
    - rewrite findAt_dir. cbn [shpPaths].
      assert (Hfind : findShpFile join (join d name) entries
                      = head (concat (map (shpPaths join (join d name)) entries))).
      { induction IH as [|e entries He _ IHe]; [reflexivity |].
        cbn. rewrite head_app, He, IHe. reflexivity. }
      rewrite Hfind.
      destruct (head (concat (map (shpPaths join (join d name)) entries)))
        as [p|] eqn:Hhead; [| reflexivity].
      assert (Hp : p <> EmptyString).
      { apply (shpPaths_nonempty join d (Dir name entries) p Hjoin).
        cbn [shpPaths]. apply head_Some_elem_of. exact Hhead. }
      now destruct p. }
  induction files as [|n files IH]; [reflexivity |].
  cbn. now rewrite head_app, Hat, IH.
Qed.

(** The theorem at an extracted archive with the shapefile in a folder. *)
Lemma findShpFile_first_witness :
  let join a b := a +:+ "/" +:+ b in
  findShpFile join "uploads/x"
    [File "readme.txt";
     Dir "data" [File "points.dbf"; File "Points.SHP"];
     File "other.shp"]
  = Some "uploads/x/data/Points.SHP".
Proof.
  intros join. rewrite (findShpFile_first join).
  - reflexivity.
  - intros a b. unfold join. destruct a; discriminate.
Defined.

(** ** The depths the page offers *)

Lemma dropWhile_stops f (s : string) : stops f s -> dropWhile f s = s.
Proof. destruct s as [|c s]; cbn; [reflexivity | now intros ->]. Qed.

Lemma stops_trimEnd (s : string) : stops isSpace s -> stops isSpace (trimEnd s).
Proof. destruct s as [|c s]; cbn; [easy |]. intros Hc. now rewrite Hc. Qed.

Lemma trimEnd_idem (s : string) : trimEnd (trimEnd s) = trimEnd s.
Proof.
  induction s as [|c s IH]; [reflexivity |]. cbn.
  destruct (isSpace c && isEmpty (trimEnd s)) eqn:Hc; [reflexivity |].
  cbn. now rewrite IH, Hc.
Qed.

Lemma trim_fixed (s : string) :
  stops isSpace s -> trimEnd s = s -> trim s = s.
Proof. intros Hs He. unfold trim. now rewrite (dropWhile_stops _ _ Hs). Qed.

Lemma trimEnd_cons c (s : string) :
  trimEnd (String c s) = String c s
  <-> trimEnd s = s /\ isSpace c && isEmpty s = false.
Proof.
  cbn. split.
  - destruct (isSpace c && isEmpty (trimEnd s)) eqn:Hc; [discriminate |].
    intros [= Hs]. rewrite Hs in Hc. now split.
  - intros [Hs Hc]. now rewrite Hs, Hc.
Qed.

Lemma trimEnd_dropWhile (s : string) :
  trimEnd s = s -> trimEnd (dropWhile isSpace s) = dropWhile isSpace s.
Proof.
  induction s as [|c s IH]; [reflexivity |]. intros Hs. cbn [dropWhile].
  destruct (isSpace c); [| exact Hs].
  apply IH. now apply trimEnd_cons in Hs.
Qed.

Lemma trimEnd_stripPrefixCI p (s r : string) :
  stripPrefixCI p s = Some r -> trimEnd s = s -> trimEnd r = r.
Proof.
  revert s. induction p as [|a p IH]; intros s; cbn.
  - now intros [= ->].
  - destruct s as [|b s]; [discriminate |].
    destruct (Ascii.eqb a (lowerChar b)); [| discriminate].
    intros Hr Hs. apply (IH _ Hr). now apply trimEnd_cons in Hs.
Qed.

Section ClientFacts.
Context `{JsRuntime}.

Lemma cmAt_stops (s rest : string) : cmAt s = Some rest -> stops isSpace rest.
Proof.
  unfold cmAt. destruct (stripPrefixCI "cm" (dropWhile isSpace s)); [| discriminate].
  intros [= <-]. apply stops_dropWhile.
Qed.

Lemma cmAt_trimEnd (s rest : string) :
  cmAt s = Some rest -> trimEnd s = s -> trimEnd rest = rest.
Proof.
  unfold cmAt.
  destruct (stripPrefixCI "cm" (dropWhile isSpace s)) as [r|] eqn:Hr; [| discriminate].
  intros [= <-] Hs. apply trimEnd_dropWhile.
  apply (trimEnd_stripPrefixCI _ _ _ Hr). now apply trimEnd_dropWhile.
Qed.

Lemma cmAt_space c (s : string) :
  isSpace c = true -> cmAt (String c s) = cmAt s.
Proof. intros Hc. unfold cmAt. cbn [dropWhile]. now rewrite Hc. Qed.

Lemma replaceCmFuel_stops fuel (s : string) :
  stops isSpace s -> stops isSpace (replaceCmFuel fuel s).
Proof.
  revert s. induction fuel as [|fuel IH]; intros s Hs; [exact Hs |].
  cbn [replaceCmFuel]. destruct (cmAt s) as [rest|] eqn:Hcm.
  - apply IH. now apply (cmAt_stops s).
  - destruct s as [|c s]; [exact I | exact Hs].
Qed.

Lemma replaceCmFuel_trimEnd fuel (s : string) :
  trimEnd s = s -> trimEnd (replaceCmFuel fuel s) = replaceCmFuel fuel s.
Proof.
  revert s. induction fuel as [|fuel IH]; intros s Hs; [exact Hs |].
  cbn [replaceCmFuel]. destruct (cmAt s) as [rest|] eqn:Hcm.
  - apply IH. now apply (cmAt_trimEnd s).
  - destruct s as [|c s]; [reflexivity |].
    apply trimEnd_cons in Hs as [Hs Hc]. apply trimEnd_cons.
    split; [now apply IH |].
    destruct (isSpace c) eqn:Hsp; [| reflexivity]. cbn in Hc |- *.
    rewrite (cmAt_space _ _ Hsp) in Hcm.
    destruct s as [|c' s]; [discriminate |].
    destruct fuel as [|fuel]; [reflexivity |].
    cbn [replaceCmFuel]. now rewrite Hcm.
Qed.

Lemma stripPrefixCI_lower p (s r : string) :
  stripPrefixCI p s = Some r -> startsWith p (toLowerCase s) = true.
Proof.
  unfold startsWith. revert s. induction p as [|a p IH]; intros s; [reflexivity |].
  destruct s as [|b s]; [discriminate |]. cbn.
  destruct (Ascii.eqb a (lowerChar b)); [| discriminate].
  apply IH.
Qed.

Lemma includes_cons p c (s : string) :
  includes p s = true -> includes p (String c s) = true.
Proof. intros Hs. cbn. rewrite Hs. apply orb_true_r. Qed.

Lemma includes_start p (s : string) :
  startsWith p s = true -> includes p s = true.
Proof. intros Hs. destruct s; cbn; now rewrite Hs. Qed.

Lemma includes_dropWhile f p (s : string) :
  includes p (toLowerCase (dropWhile f s)) = true ->
  includes p (toLowerCase s) = true.
Proof.
  induction s as [|c s IH]; [easy |]. cbn [dropWhile].
  destruct (f c); [| easy].
  intros Hin. apply (includes_cons p (lowerChar c)), IH, Hin.
Qed.

Lemma cmAt_includes (s rest : string) :
  cmAt s = Some rest -> includes "cm" (toLowerCase s) = true.
Proof.
  unfold cmAt.
  destruct (stripPrefixCI "cm" (dropWhile isSpace s)) as [r|] eqn:Hr; [| discriminate].
  intros _. apply (includes_dropWhile isSpace).
  apply includes_start. now apply (stripPrefixCI_lower _ _ r).
Qed.

Lemma replaceCmFuel_fixed fuel (s : string) :
  includes "cm" (toLowerCase s) = false -> replaceCmFuel fuel s = s.
Proof.
  revert s. induction fuel as [|fuel IH]; intros s Hs; [reflexivity |].
  cbn [replaceCmFuel]. destruct (cmAt s) as [rest|] eqn:Hcm.
  - apply cmAt_includes in Hcm. congruence.
  - destruct s as [|c s]; [reflexivity |]. f_equal. apply IH.
    destruct (includes "cm" (toLowerCase s)) eqn:Hin; [| reflexivity].
    apply (includes_cons "cm" (lowerChar c)) in Hin.
    change (String (lowerChar c) (toLowerCase s)) with (toLowerCase (String c s)) in Hin.
    congruence.
Qed.

Lemma trimEnd_lower (s : string) : trimEnd (toLowerCase s) = toLowerCase (trimEnd s).
Proof.
  induction s as [|c s IH]; [reflexivity |].
  change (toLowerCase (String c s)) with (String (lowerChar c) (toLowerCase s)).
  cbn [trimEnd]. rewrite IH, lowerChar_space.
  assert (He : isEmpty (toLowerCase (trimEnd s)) = isEmpty (trimEnd s))
    by now destruct (trimEnd s).
  rewrite He. now destruct (isSpace c && isEmpty (trimEnd s)).
Qed.

Lemma stops_lower (s : string) : stops isSpace s -> stops isSpace (toLowerCase s).
Proof. destruct s as [|c s]; [easy |]. cbn. now rewrite lowerChar_space. Qed.

(** A depth the page has put in normal form is left as it is by the
    normal form of the server, when no [cm] is left in it. *)
Lemma normalizeDepth_offered (x : string) :
  let d := toLowerCase (replaceCm (trim x)) in
  includes "cm" d = false -> normalizeDepth d = d.
Proof.
  intros d Hcm. unfold normalizeDepth.
  assert (Htrim : trim d = d).
  { apply trim_fixed; unfold d, replaceCm.
    - apply stops_lower, replaceCmFuel_stops. unfold trim.
      apply stops_trimEnd, stops_dropWhile.
    - rewrite trimEnd_lower. f_equal. apply replaceCmFuel_trimEnd.
      unfold trim. apply trimEnd_idem. }
  rewrite Htrim. unfold replaceCm at 1.
  assert (Hlow : toLowerCase d = d) by apply toLowerCase_idem.
  rewrite replaceCmFuel_fixed by now rewrite Hlow.
  exact Hlow.
Qed.

Lemma rowDepth_normal depthColumn row d :
  rowDepth depthColumn row = Some d ->
  isEmpty d = false
  /\ exists x, d = toLowerCase (replaceCm (trim x)).
Proof.
  unfold rowDepth.
  destruct (getProp depthColumn row) as [v|]; [| discriminate].
  assert (Hv : (let depthStr := trim (jsString (Some v)) in
                if isEmpty depthStr then None
                else
                  let normalized := toLowerCase (replaceCm depthStr) in
                  if isEmpty normalized then None else Some normalized) = Some d ->
               isEmpty d = false /\ exists x, d = toLowerCase (replaceCm (trim x))).
  { generalize (jsString (Some v)). intros t. cbv zeta.
    destruct (isEmpty (trim t)); [discriminate |].
    destruct (isEmpty (toLowerCase (replaceCm (trim t)))) eqn:He; [discriminate |].
    intros [= <-]. split; [exact He | eauto]. }
  destruct v; try exact Hv. discriminate.
Qed.

(** The filter of the server and the loop of the page on one row. *)
Lemma depthRowFilter_rowDepth depthColumn d row :
  isEmpty d = false ->
  depthRowFilter depthColumn d row = true
  <-> rowDepth depthColumn row = Some d
      /\ getProp depthColumn row <> Some (VStr "NULL").
Proof.
  intros Hd. unfold depthRowFilter, rowDepth.
  destruct (getProp depthColumn row) as [v|]; [| split; [discriminate | now intros [[=] _]]].
  assert (Hgen : forall v',
             isNullText v' = false ->
             (let rowDepthStr := trim (jsString (Some v')) in
              if isEmpty rowDepthStr then false
              else String.eqb (toLowerCase (replaceCm rowDepthStr)) d) = true
             <-> (let depthStr := trim (jsString (Some v')) in
                  if isEmpty depthStr then None
                  else
                    let normalized := toLowerCase (replaceCm depthStr) in
                    if isEmpty normalized then None else Some normalized) = Some d).
  { intros v' _. generalize (trim (jsString (Some v'))). intros t. cbv zeta.
    destruct (isEmpty t); [split; discriminate |].
    split.
    - intros He. apply String.eqb_eq in He. rewrite He, Hd. reflexivity.
    - destruct (isEmpty (toLowerCase (replaceCm t))); [discriminate |].
      intros [= ->]. apply String.eqb_refl. }
  destruct v as [| b | n | s].
  - split; [discriminate | now intros [[=] _]].
  - cbn [isNullText]. rewrite (Hgen (VBool b) eq_refl). split; [| tauto].
    intros Hr. split; [exact Hr | discriminate].
  - cbn [isNullText]. rewrite (Hgen (VNum n) eq_refl). split; [| tauto].
    intros Hr. split; [exact Hr | discriminate].
  - destruct (isNullText (VStr s)) eqn:Hnull.
    + split; [discriminate |]. intros [Hr Hne]. exfalso.
      cbn in Hnull. apply orb_prop in Hnull as [Hn | Hn].
      * apply String.eqb_eq in Hn. subst s. now apply Hne.
      * destruct s; [| discriminate]. discriminate Hr.
    + rewrite (Hgen (VStr s) Hnull). split; [| tauto].
      intros Hr. split; [exact Hr |]. intros [= ->]. discriminate Hnull.
Qed.

Lemma depths_fold depthColumn (data : list obj) (acc : gset string) d :
  d ∈ fold_left (fun depths row =>
                   match rowDepth depthColumn row with
                   | Some normalized => depths ∪ {[normalized]}
                   | None => depths
                   end) data acc
  <-> d ∈ acc \/ exists row, row ∈ data /\ rowDepth depthColumn row = Some d.
Proof.
  revert acc. induction data as [|row data IH]; intros acc; cbn.
  - split; [now left | intros [Hin | (row & Hin & _)]; [exact Hin |]].
    now apply elem_of_nil in Hin.
  - rewrite IH. split.
    + intros [Hin | (r & Hin & Hr)].
      * destruct (rowDepth depthColumn row) as [n|] eqn:Hn; [| now left].
        apply elem_of_union in Hin as [Hin | Hin]; [now left |].
        apply elem_of_singleton in Hin as ->. right. exists row.
        split; [apply list_elem_of_here | exact Hn].
      * right. exists r. split; [now apply list_elem_of_further | exact Hr].
    + intros [Hin | (r & Hin & Hr)].
      * left. destruct (rowDepth depthColumn row); [| exact Hin].
        apply elem_of_union. now left.
      * apply elem_of_cons in Hin as [-> | Hin].
        -- left. rewrite Hr. apply elem_of_union. right. now apply elem_of_singleton.
        -- right. eauto.
Qed.

End ClientFacts.

(** X20. The page and the server agree on the depths: a depth that
    [detectDepthsFromSpreadsheet] collects for a spreadsheet, where no
    [cm] is left in it, comes from a row of the spreadsheet, and sent back
    as the selected depth it makes the merge keep exactly the rows it was
    derived from, less those whose depth is the text [NULL]. *)
Theorem offered_depth_selects_its_rows :
  forall `{JsRuntime} (data : list obj) (depths : gset string) (d : string),
    detectDepthsFromSpreadsheet data (keys (hd [] data)) = Some depths ->
    d ∈ depths ->
    includes "cm" d = false ->
    exists depthColumn,
      depthColumnOf data = Some depthColumn
      /\ (exists row, row ∈ data /\ rowDepth depthColumn row = Some d)
      /\ forall row,
          row ∈ filterByDepth data (Some d)
          <-> row ∈ data /\ rowDepth depthColumn row = Some d
              /\ getProp depthColumn row <> Some (VStr "NULL").
Proof.
  intros rt data depths d Hdetect Hd Hcm.
  unfold detectDepthsFromSpreadsheet in Hdetect. unfold filterByDepth, depthColumnOf.
  destruct (find isDepthColumn (keys (hd [] data))) as [col|]; [| discriminate].
  exists col. split; [reflexivity |].
  assert (Hfrom : exists row, row ∈ data /\ rowDepth col row = Some d).
  { destruct data as [|row0 data]; [discriminate |].
    injection Hdetect as <-.
    apply (depths_fold col (row0 :: data) ∅) in Hd as [Hd | Hd]; [| exact Hd].
    now apply elem_of_empty in Hd. }
  split; [exact Hfrom |].
  destruct Hfrom as (row0 & _ & Hrow0).
  destruct (rowDepth_normal _ _ _ Hrow0) as (Hne & x & Hx).
  assert (Hnorm : normalizeDepth d = d).
  { rewrite Hx. apply normalizeDepth_offered. now rewrite <- Hx. }
  rewrite Hne, Hnorm. intros row.
  rewrite list_elem_of_filter, (depthRowFilter_rowDepth col d row Hne). tauto.
Qed.

(** The theorem at a spreadsheet with the depth [0-20] written in two
    ways. *)
Lemma offered_depth_selects_its_rows_witness :
  let data :=
    [[("Ponto", VStr "1"); ("Prof", VStr "0-20 cm")];
     [("Ponto", VStr "2"); ("Prof", VStr "20-40 cm")];
     [("Ponto", VStr "3"); ("Prof", VStr " 0-20")]] in
  exists depthColumn,
    depthColumnOf data = Some depthColumn
    /\ (exists row, row ∈ data /\ rowDepth (H := exactRuntime) depthColumn row = Some "0-20")
    /\ forall row,
        row ∈ filterByDepth (H := exactRuntime) data (Some "0-20")
        <-> row ∈ data /\ rowDepth (H := exactRuntime) depthColumn row = Some "0-20"
            /\ getProp depthColumn row <> Some (VStr "NULL").
Proof.
  intros data.
  refine (offered_depth_selects_its_rows (H := exactRuntime) data _ "0-20"
            eq_refl _ eq_refl).
  apply (bool_decide_unpack _). vm_compute. exact I.
Defined.

(** ** The report *)

Lemma endsWith_app (suffix a : string) : endsWith suffix (a +:+ suffix) = true.
Proof.
  induction a as [|c a IH].
  - rewrite append_nil. destruct suffix; cbn; now rewrite ?String.eqb_refl, ?Ascii.eqb_refl.
  - rewrite append_cons. cbn [endsWith]. rewrite IH. apply orb_true_r.
Qed.

Lemma removeFirst_prefix p (s rest : string) :
  stripPrefix p s = Some rest -> removeFirst p s = rest.
Proof. intros Hs. destruct s; cbn [removeFirst]; now rewrite Hs. Qed.

(** A path under [/output/] is resolved to the file of that name in the
    output directory. *)
Lemma absoluteTiff_output outputPath (name : string) :
  absoluteTiff outputPath ("/output/" +:+ name) = outputPath name.
Proof.
  unfold absoluteTiff, startsWith.
  rewrite (removeFirst_prefix _ _ _ (stripPrefix_app "/output/" name)).
  now rewrite stripPrefix_app.
Qed.

Section ReportFacts.
Context `{JsRuntime}.

Lemma recorded_rasterName j param e file stats :
  recorded j param e = JobSuccess file stats ->
  exists name, file = "/output/" +:+ name /\ rasterName param name.
Proof.
  destruct e as [[[| p | p]|] stdout stderr [|] copyOk | message];
    cbn; try discriminate.
  intros [= <- _]. destruct copyOk.
  - eexists. split; [reflexivity |].
    exists (cleanPropertyName (propertyName j) +:+ "_" +:+ jobMethod j
                                +:+ "_" +:+ dateStr j).
    now rewrite !append_assoc.
  - eexists. split; [reflexivity |].
    exists (jobMethod j +:+ "_interpolation").
    now rewrite !append_assoc.
Qed.

Lemma processFrom_rasterNames w j rest i r :
  (forall param file, tiffFiles r !! param = Some file ->
     exists name, file = "/output/" +:+ name /\ rasterName param name) ->
  forall param file,
    tiffFiles (processFrom w j rest i r) !! param = Some file ->
    exists name, file = "/output/" +:+ name /\ rasterName param name.
Proof.
  revert i r. induction rest as [|p rest IH]; intros i r Hr; [exact Hr |].
  cbn [processFrom]. apply IH. intros param file.
  rewrite recordEnd_tiffFiles.
  destruct (recorded j p (w i p)) as [f st | err] eqn:Hrec; [| apply Hr].
  destruct (decide (p = param)) as [-> | Hne].
  - rewrite lookup_insert_eq. intros [= <-].
    now apply (recorded_rasterName j param (w i param) f st).
  - rewrite lookup_insert_ne by exact Hne. apply Hr.
Qed.

Lemma interpolateHandler_rasterNames w today body r :
  interpolateHandler w today body = Results r ->
  forall param file,
    tiffFiles r !! param = Some file ->
    exists name, file = "/output/" +:+ name /\ rasterName param name.
Proof.
  unfold interpolateHandler.
  destruct (geoJson body) as [geo|]; [| discriminate].
  destruct (parameters body) as [params|]; [| discriminate].
  destruct (isEmpty (bodyMethod body) || negb (truthyNum (resolution body))
            || negb (truthyNum (searchRadius body))); [discriminate |].
  destruct params as [|p params]; [discriminate |].
  destruct (computeBounds (features geo)) as [b|]; [| discriminate].
  intros [= <-]. unfold processParameter. apply processFrom_rasterNames.
  cbn. intros param file. now rewrite lookup_empty.
Qed.

End ReportFacts.

(** X21. Every path the interpolation answers for a parameter is
    [/output/] followed by a file name that starts with the parameter and
    ends in [.tif], and the report resolves it to the file of that name in
    the output directory. *)
Theorem interpolated_rasters_resolve :
  forall `{JsRuntime} w today body r (outputPath : string -> string) param file,
    interpolateHandler w today body = Results r ->
    tiffFiles r !! param = Some file ->
    exists name,
      file = "/output/" +:+ name
      /\ rasterName param name
      /\ endsWith ".tif" name = true
      /\ absoluteTiff outputPath file = outputPath name.
Proof.
  intros rt w today body r outputPath param file Hr Hfile.
  destruct (interpolateHandler_rasterNames w today body r Hr param file Hfile)
    as (name & -> & Hname).
  exists name. split; [reflexivity |]. split; [exact Hname |].
  split; [| apply absoluteTiff_output].
  destruct Hname as (rest & ->).
  replace (param +:+ "_" +:+ rest +:+ ".tif")
    with ((param +:+ "_" +:+ rest) +:+ ".tif")
    by now rewrite <- !append_assoc.
  apply endsWith_app.
Qed.

(** The theorem at the second example of the specification. *)
Lemma interpolated_rasters_resolve_witness :
  let outputPath := fun name => "/srv/app/output/" +:+ name in
  let file := "/output/Cu_santa_rita_idw_20240101.tif" in
  exists name,
    file = "/output/" +:+ name
    /\ rasterName "Cu" name
    /\ endsWith ".tif" name = true
    /\ absoluteTiff outputPath file = outputPath name.
Proof.
  intros outputPath file.
  pose (w := (fun i _ =>
                match i with
                | 0 => Close (Some 1%Z) EmptyString "ValueError: no data" false false
                | _ => Close (Some 0%Z) "STATS: min=1.5, max=3.5, mean=2.5"
                             EmptyString true true
                end) : workers).
  pose (body :=
          {| geoJson := Some {| fctype := "FeatureCollection"; features := [] |};
             parameters := Some ["Zn"; "Cu"];
             bodyMethod := "idw";
             resolution := Fin 10;
             searchRadius := Fin 100;
             bodyPropertyName := Some "Santa Rita" |}).
  exact (interpolated_rasters_resolve (H := exactRuntime) w "20240101" body _
           outputPath "Cu" file eq_refl eq_refl).
Defined.

Lemma tiffFilesAbsolute_strings outputPath (tiffFiles : obj) :
  pathsAreStrings tiffFiles ->
  exists absolute,
    tiffFilesAbsolute outputPath tiffFiles = Some absolute
    /\ forall p,
        p ∈ map snd absolute
        <-> exists param s, (param, VStr s) ∈ tiffFiles /\ isEmpty s = false
                            /\ p = absoluteTiff outputPath s.
Proof.
  unfold pathsAreStrings.
  induction tiffFiles as [|[param v] rest IH]; intros Hstr.
  - exists []. split; [reflexivity |]. intros p. split.
    + intros Hin. now apply elem_of_nil in Hin.
    + intros (q & s & Hin & _). now apply elem_of_nil in Hin.
  - destruct IH as (absolute & Habs & Hiff).
    { intros q u Hin Ht.
      apply (Hstr q u); [now apply list_elem_of_further | exact Ht]. }
    cbn [tiffFilesAbsolute]. destruct (truthy (Some v)) eqn:Htruthy.
    + assert (Hhere : (param, v) ∈ (param, v) :: rest) by apply list_elem_of_here.
      destruct (Hstr param v Hhere Htruthy) as [s ->]. clear Hhere.
      rewrite Habs. eexists. split; [reflexivity |]. intros p. cbn [map snd].
      rewrite elem_of_cons, Hiff. split.
      * intros [-> | (q & s' & Hin & Hs & ->)].
        -- exists param, s. split; [apply list_elem_of_here |].
           split; [| reflexivity]. cbn in Htruthy. now destruct s.
        -- exists q, s'. split; [now apply list_elem_of_further | now split].
      * intros (q & s' & Hin & Hs & ->).
        apply elem_of_cons in Hin as [[= -> ->] | Hin]; [now left |].
        right. eauto.
    + exists absolute. split; [exact Habs |]. intros p. rewrite Hiff.
      split; intros (q & s & Hin & Hs & ->); exists q, s.
      * split; [now apply list_elem_of_further | now split].
      * apply elem_of_cons in Hin as [[= -> <-] | Hin]; [| now split].
        cbn in Htruthy. rewrite Hs in Htruthy. discriminate.
Qed.

(** X22. A complete report request whose paths are strings starts Python
    only when one of the listed rasters, resolved, is on the disk.  With
    one, the answer is that of the write test when it fails, and otherwise
    the first that is sent once Python is started: the answer of the
    listener of the event with which the process ends, or status 500 with
    the text of the timeout when five minutes pass before an event.  With
    none, the request is refused with status 400. *)
Theorem report_needs_raster :
  forall outputPath existsSync reportsDirError pdfPath run body tiffFiles,
    completeReport body ->
    reportTiffFiles body = Some tiffFiles ->
    pathsAreStrings tiffFiles ->
    (listsRaster outputPath existsSync tiffFiles ->
     generateReport outputPath existsSync reportsDirError pdfPath run body
     = match reportsDirError, run with
       | Some message, _ =>
           ReportFailed ("Erro de permissão no diretório de relatórios: " +:+ message)
       | None, Ended e => reportClose pdfPath e
       | None, TimedOut => ReportFailed "Timeout ao gerar PDF (mais de 5 minutos)"
       end)
    /\ (~ listsRaster outputPath existsSync tiffFiles ->
        generateReport outputPath existsSync reportsDirError pdfPath run body
        = ReportRejected
            "Nenhum arquivo TIFF válido encontrado. Faça a interpolação primeiro.").
Proof.
  intros outputPath existsSync reportsDirError pdfPath run body tiffFiles
         (Hname & Hplot & Hint) Htiff Hstr.
  unfold generateReport. rewrite Htiff, Hname, Hplot, Hint. cbn [orb negb].
  destruct (tiffFilesAbsolute_strings outputPath tiffFiles Hstr)
    as (absolute & -> & Hiff).
  assert (Hvalid : forall p,
             p ∈ validTiffs existsSync absolute
             <-> exists param s, (param, VStr s) ∈ tiffFiles /\ isEmpty s = false
                                 /\ p = absoluteTiff outputPath s
                                 /\ isEmpty p = false /\ existsSync p = true).
  { intros p. unfold validTiffs. rewrite list_elem_of_filter, Hiff.
    rewrite andb_true_iff, negb_true_iff. split.
    - intros [[He Hex] (q & s & Hin & Hs & Hp)]. exists q, s. tauto.
    - intros (q & s & Hin & Hs & Hp & He & Hex). split; [tauto | eauto]. }
  split.
  - intros (param & s & Hin & Hs & He & Hex).
    destruct (validTiffs existsSync absolute) as [|p ps] eqn:Hv;
      [| now destruct reportsDirError, run].
    exfalso. apply (elem_of_nil (absoluteTiff outputPath s)).
    apply Hvalid. exists param, s. tauto.
  - intros Hnone.
    destruct (validTiffs existsSync absolute) as [|p ps] eqn:Hv; [reflexivity |].
    exfalso. apply Hnone.
    assert (Hhere : p ∈ p :: ps) by apply list_elem_of_here.
    destruct (proj1 (Hvalid p) Hhere)
      as (param & s & Hin & Hs & -> & He & Hex).
    exists param, s. tauto.
Qed.

(** The theorem at a request with one raster on the disk and one path
    that is empty: answered with the PDF when Python ends well, with the
    timeout when it runs for more than five minutes. *)
Lemma report_needs_raster_witness :
  let outputPath := fun name => "/srv/app/output/" +:+ name in
  let existsSync := String.eqb "/srv/app/output/Cu_idw.tif" in
  let body :=
    {| reportPropertyName := Some "Santa Rita";
       reportPlotName := Some "T1";
       reportInterpolations := true;
       reportTiffFiles :=
         Some [("Zn", VStr EmptyString); ("Cu", VStr "/output/Cu_idw.tif")] |} in
  generateReport outputPath existsSync None "/srv/app/reports/r.pdf"
                 (Ended (ReportClose (Some 0%Z) EmptyString EmptyString true)) body
  = PdfSent
  /\ generateReport outputPath existsSync None "/srv/app/reports/r.pdf"
                    TimedOut body
     = ReportFailed "Timeout ao gerar PDF (mais de 5 minutos)".
Proof.
  intros outputPath existsSync body.
  assert (Hstr : pathsAreStrings
                   [("Zn", VStr EmptyString); ("Cu", VStr "/output/Cu_idw.tif")]).
  { intros param v Hin Htruthy.
    apply elem_of_cons in Hin as [[= -> ->] | Hin]; [discriminate |].
    apply elem_of_cons in Hin as [[= -> ->] | Hin]; [eauto |].
    now apply elem_of_nil in Hin. }
  assert (Hlists : listsRaster outputPath existsSync
                     [("Zn", VStr EmptyString); ("Cu", VStr "/output/Cu_idw.tif")]).
  { exists "Cu", "/output/Cu_idw.tif". repeat split.
    apply list_elem_of_further, list_elem_of_here. }
  assert (Hreq : completeReport body) by (repeat split).
  split.
  - exact (proj1 (report_needs_raster outputPath existsSync None
                    "/srv/app/reports/r.pdf"
                    (Ended (ReportClose (Some 0%Z) EmptyString EmptyString true))
                    body _ Hreq eq_refl Hstr) Hlists).
  - exact (proj1 (report_needs_raster outputPath existsSync None
                    "/srv/app/reports/r.pdf" TimedOut
                    body _ Hreq eq_refl Hstr) Hlists).
Defined.

(** ** The end of the Python process of the report *)

(** X23. When the Python process of the report ends with another code
    than zero and one of the texts [permission denied], [errno 13] and
    [permissionerror] occurs, in any case of the letters, in what it wrote
    to stderr followed by what it wrote to stdout, the answer is the
    permission error with the path of the PDF, whatever else was
    written. *)
Theorem permission_error_first :
  forall pdfPath code stdout stderr pdfExists pre marker post,
    code <> Some 0%Z ->
    permissionMarker marker ->
    stderr +:+ stdout = pre +:+ marker +:+ post ->
    reportClose pdfPath (ReportClose code stdout stderr pdfExists)
    = PermissionFailed
        "Erro de permissão ao salvar PDF. O arquivo pode estar aberto em outro programa."
        "Feche o PDF anterior se estiver aberto e tente gerar novamente."
        ("Caminho: " +:+ pdfPath).
Proof.
  intros pdfPath code stdout stderr pdfExists pre marker post Hcode Hmark Hout.
  assert (Hsome : includes "permission denied" (toLowerCase (stderr +:+ stdout))
                  || includes "errno 13" (toLowerCase (stderr +:+ stdout))
                  || includes "permissionerror" (toLowerCase (stderr +:+ stdout))
                  = true).
  { rewrite Hout, !toLowerCase_app.
    destruct Hmark as [-> | [-> | ->]]; rewrite includes_app;
      now rewrite ?orb_true_r. }
  destruct code as [[| p | p]|]; [congruence | | |]; cbn [reportClose];
    now rewrite Hsome.
Qed.

(** The theorem at a traceback of Python in capital letters. *)
Lemma permission_error_first_witness :
  exists error suggestion,
    reportClose "/srv/app/reports/r.pdf"
      (ReportClose (Some 1%Z) EmptyString
                   "Traceback: PermissionError: [Errno 13] PERMISSION DENIED" true)
    = PermissionFailed error suggestion "Caminho: /srv/app/reports/r.pdf".
Proof.
  eexists _, _.
  apply (permission_error_first "/srv/app/reports/r.pdf" (Some 1%Z) EmptyString
           "Traceback: PermissionError: [Errno 13] PERMISSION DENIED" true
           "Traceback: PermissionError: [Errno 13] " "PERMISSION DENIED" EmptyString).
  - discriminate.
  - left. reflexivity.
  - reflexivity.
Defined.

Lemma includes_empty p : p <> EmptyString -> includes p EmptyString = false.
Proof. destruct p; [congruence | reflexivity]. Qed.

Lemma isErrorLine_nonempty l : isErrorLine l = true -> l <> EmptyString.
Proof. intros Hl ->. discriminate Hl. Qed.

Lemma joinWith_nonempty sep (l : string) ls :
  l <> EmptyString -> joinWith sep (l :: ls) <> EmptyString.
Proof.
  intros Hl. destruct l as [|c l]; [congruence |].
  destruct ls; cbn [joinWith]; [discriminate |].
  rewrite append_cons. discriminate.
Qed.

Lemma errorMsg_nonempty stderr : errorMsg stderr <> EmptyString.
Proof.
  unfold errorMsg. destruct stderr as [|c stderr]; [discriminate |].
  cbn [isEmpty].
  destruct (filter (fun l => isErrorLine l = true) (splitLines (String c stderr)))
    as [|l ls] eqn:Hlines; [discriminate |].
  cbn [take]. apply joinWith_nonempty, isErrorLine_nonempty.
  assert (Hin : l ∈ filter (fun l => isErrorLine l = true)
                          (splitLines (String c stderr)))
    by (rewrite Hlines; apply list_elem_of_here).
  now apply list_elem_of_filter in Hin.
Qed.

(** X24. A failure of Python that is not taken for a permission problem
    is answered with the exit code, which is not zero, and with an error
    text that is never empty; when stderr is an ASCII text, the details
    are its first 500 characters, all of it when it has no more. *)
Theorem python_failure_answer :
  forall pdfPath e error code details,
    reportClose pdfPath e = PythonFailed error code details ->
    code <> Some 0%Z
    /\ error <> EmptyString
    /\ exists stdout stderr pdfExists,
        e = ReportClose code stdout stderr pdfExists
        /\ (isAscii stderr = true ->
            details = substring0 500 stderr
            /\ String.length details <= 500
            /\ (String.length stderr <= 500 -> details = stderr)).
Proof.
  intros pdfPath e error code details.
  destruct e as [code' stdout stderr pdfExists | message text]; [| discriminate].
  assert (Hfail :
            (if includes "permission denied" (toLowerCase (stderr +:+ stdout))
                || includes "errno 13" (toLowerCase (stderr +:+ stdout))
                || includes "permissionerror" (toLowerCase (stderr +:+ stdout))
             then
               PermissionFailed
                 "Erro de permissão ao salvar PDF. O arquivo pode estar aberto em outro programa."
                 "Feche o PDF anterior se estiver aberto e tente gerar novamente."
                 ("Caminho: " +:+ pdfPath)
             else PythonFailed (errorMsg stderr) code' (substring0 500 stderr))
            = PythonFailed error code details ->
            error <> EmptyString /\ code' = code
            /\ details = substring0 500 stderr).
  { destruct (_ || _); [discriminate |]. intros [= <- <- <-].
    split; [apply errorMsg_nonempty | now split]. }
  intros Hclose.
  assert (Hres : code' <> Some 0%Z /\ error <> EmptyString /\ code' = code
                 /\ details = substring0 500 stderr).
  { destruct code' as [[| p | p]|]; cbn [reportClose] in Hclose.
    - destruct pdfExists; discriminate.
    - split; [discriminate | now apply Hfail].
    - split; [discriminate | now apply Hfail].
    - split; [discriminate | now apply Hfail]. }
  destruct Hres as (Hcode & Herr & <- & ->).
  split; [exact Hcode |]. split; [exact Herr |].
  exists stdout, stderr, pdfExists. split; [reflexivity |]. intros _.
  split; [reflexivity |]. split; [apply substring0_length | apply substring0_short].
Qed.

(** The theorem at a run that ends with a traceback. *)
Lemma python_failure_answer_witness :
  reportClose "/srv/app/reports/r.pdf"
    (ReportClose (Some 1%Z) EmptyString
       (String "a" (String "010" "ValueError: empty raster")) false)
  = PythonFailed "ValueError: empty raster" (Some 1%Z)
      (String "a" (String "010" "ValueError: empty raster"))
  /\ "ValueError: empty raster" <> EmptyString.
Proof.
  split; [reflexivity |].
  exact (proj1 (proj2 (python_failure_answer "/srv/app/reports/r.pdf"
                         (ReportClose (Some 1%Z) EmptyString
                            (String "a" (String "010" "ValueError: empty raster"))
                            false)
                         _ _ _ eq_refl))).
Defined.

(** ** The checklist of parameters of the page *)

Lemma availableParameters_distinct : NoDup availableParameters.
Proof. apply (bool_decide_unpack _). vm_compute. exact I. Qed.

(** X25. The checklist of the page never shows a parameter twice, so
    that no selection from it names a parameter twice, and every
    parameter it shows is, up to the case of the letters, a column of the
    first merged feature. *)
Theorem paramsToShow_distinct :
  forall mergedGeoJson,
    NoDup (availableCols mergedGeoJson) ->
    (forall selected, sublist selected (paramsToShow mergedGeoJson) -> NoDup selected)
    /\ forall param,
        param ∈ paramsToShow mergedGeoJson ->
        exists col, col ∈ availableCols mergedGeoJson
                    /\ toLowerCase col = toLowerCase param.
Proof.
  intros merged Hcols. unfold paramsToShow.
  set (shown := fun param =>
                  existsb (fun col => String.eqb (toLowerCase col) (toLowerCase param))
                          (availableCols merged) = true).
  split.
  - intros selected Hsub. eapply sublist_NoDup; [| exact Hsub].
    destruct (filter shown availableParameters) as [|p ps] eqn:Hf; [exact Hcols |].
    rewrite <- Hf. apply NoDup_filter, availableParameters_distinct.
  - intros param Hin.
    destruct (filter shown availableParameters) as [|p ps] eqn:Hf.
    + exists param. now split.
    + rewrite <- Hf in Hin. apply list_elem_of_filter in Hin as [Hshown _].
      unfold shown in Hshown. apply existsb_exists in Hshown as (col & Hcol & Heq).
      exists col. split; [now apply list_elem_of_In | now apply String.eqb_eq].
Qed.

(** The theorem at merged data with the columns of two parameters. *)
Lemma paramsToShow_distinct_witness :
  let merged :=
    Some {| fctype := "FeatureCollection";
            features :=
              [{| fgeometry := None;
                  properties := [("ID", VNum (Fin 1)); ("ZN", VNum (Fin 2));
                                 ("cu", VNum (Fin 3))] |}] |} in
  paramsToShow merged = ["Zn"; "Cu"] /\ NoDup ["Cu"].
Proof.
  intros merged. split; [reflexivity |].
  refine (proj1 (paramsToShow_distinct merged _) ["Cu"] _).
  - apply (bool_decide_unpack _). vm_compute. exact I.
  - apply (sublist_cons "Zn"), sublist_skip, sublist_nil.
Defined.

(** ** The depth filter, in the words of the specification *)




Section DepthWords.
Context `{JsRuntime}.






End DepthWords.




(** ** The orchestrator, event by event *)



Section EventFacts.
Context `{JsRuntime}.
Variables (j : job) (params : list string).





End EventFacts.



